(** * Transaction ingestion and aggregation engine (stori-challenge)

    A shallow embedding of the record parser
    ([internal/infrastructure/csv/reader.go]) and of the summary calculator
    ([internal/service/calculator.go]), together with the parts of the Go
    standard library ([strings], [strconv], [time], [path/filepath]) and
    of [github.com/shopspring/decimal] that these two files call, and of
    what stands around them: the S3 locations ([internal/aws]), the
    methods of the domain types, the mail settings ([internal/config]),
    the month names of the mail service and the batch loop of the
    processor ([internal/service/processor.go]).

    Conventions.
    - A Go [string] is a sequence of bytes: Rocq's [string] (one [ascii]
      per byte).
    - A Go function returning [(T, error)] returns [error + T] ([inl] is the
      error).  A function that may panic returns an [option] ([None] is the
      panic).
    - Go's [int] is 64 bits wide here; lengths and counters are kept in [Z].
    - The ambient capabilities ([time.Now], [uuid.New]) are passed
      explicitly: the clock in an environment record, the identifier
      generator as a counter threaded through the parser. *)

From Stdlib Require Import ZArith QArith Qpower Qabs Lia List Ascii String DecimalString Permutation.
From stdpp Require Import gmap strings list fin_maps.

Local Open Scope string_scope.
Local Open Scope Z_scope.

(** ** Go's [strings] and [strconv] *)

Module gostrings.

Definition byte (n : nat) : ascii := ascii_of_nat n.

Definition bytes (l : list nat) : string :=
  string_of_list_ascii (map byte l).

Definition code (c : ascii) : Z := Z.of_nat (nat_of_ascii c).

(** [len(s)] *)
Definition len (s : string) : Z := Z.of_nat (String.length s).

(** [s[n:]] for [0 <= n <= len(s)] *)
Fixpoint drop (n : nat) (s : string) : string :=
  match n, s with
  | O, _ => s
  | S n', String _ r => drop n' r
  | S _, EmptyString => EmptyString
  end.

(** [s[:n]] for [0 <= n <= len(s)] *)
Fixpoint take (n : nat) (s : string) : string :=
  match n, s with
  | O, _ => EmptyString
  | S n', String c r => String c (take n' r)
  | S _, EmptyString => EmptyString
  end.

Fixpoint rev_onto (s acc : string) : string :=
  match s with
  | EmptyString => acc
  | String c r => rev_onto r (String c acc)
  end.

Definition reverse (s : string) : string := rev_onto s EmptyString.

Definition HasPrefix (s pre : string) : bool := String.prefix pre s.

Definition TrimPrefix (s pre : string) : string :=
  if HasPrefix s pre then drop (String.length pre) s else s.

(** The UTF-8 encodings of the runes for which [unicode.IsSpace] holds:
    tab, line feed, vertical tab, form feed, carriage return, space,
    U+0085, U+00A0, U+1680, U+2000..U+200A, U+2028, U+2029, U+202F,
    U+205F and U+3000. *)
Definition spaceRunes : list string :=
  map bytes
    [ [9]; [10]; [11]; [12]; [13]; [32];
      [194; 133]; [194; 160]; [225; 154; 128];
      [226; 128; 128]; [226; 128; 129]; [226; 128; 130]; [226; 128; 131];
      [226; 128; 132]; [226; 128; 133]; [226; 128; 134]; [226; 128; 135];
      [226; 128; 136]; [226; 128; 137]; [226; 128; 138];
      [226; 128; 168]; [226; 128; 169]; [226; 128; 175];
      [226; 129; 159]; [227; 128; 128] ]%nat.

(** The string after one leading space rune, if it starts with one.  A
    string starts with the encoding of a rune exactly when decoding its
    first rune yields that rune. *)
Fixpoint cutRune (rs : list string) (s : string) : option string :=
  match rs with
  | [] => None
  | r :: rs' =>
      if String.prefix r s then Some (drop (String.length r) s)
      else cutRune rs' s
  end.

Fixpoint trimLeftRunes (fuel : nat) (rs : list string) (s : string) : string :=
  match fuel with
  | O => s
  | S f =>
      match cutRune rs s with
      | Some s' => trimLeftRunes f rs s'
      | None => s
      end
  end.

(** [strings.TrimSpace]: all leading and trailing white space removed.
    The trailing side is the leading side of the reversed string, matched
    against the reversed encodings. *)
Definition TrimSpace (s : string) : string :=
  let l := trimLeftRunes (String.length s) spaceRunes s in
  reverse (trimLeftRunes (String.length l) (map reverse spaceRunes) (reverse l)).

Definition lowerByte (c : ascii) : ascii :=
  if (65 <=? code c) && (code c <=? 90)
  then ascii_of_nat (nat_of_ascii c + 32) else c.

(** [strings.ToLower], as far as a comparison of its result with an ASCII
    string can observe it: ASCII upper-case letters are lowered, and the
    two runes outside ASCII whose lower case is an ASCII letter are mapped
    to it (U+0130, bytes C4 B0, to [i]; U+212A, bytes E2 84 AA, to [k]).
    Go maps every other rune outside ASCII to a rune outside ASCII; their
    bytes are kept here as they are. *)
Fixpoint ToLower (s : string) : string :=
  match s with
  | EmptyString => EmptyString
  | String c r =>
      match r with
      | String c2 r2 =>
          if (code c =? 196) && (code c2 =? 176) then String "i" (ToLower r2)
          else
            match r2 with
            | String c3 r3 =>
                if (code c =? 226) && (code c2 =? 132) && (code c3 =? 170)
                then String "k" (ToLower r3)
                else String (lowerByte c) (ToLower r)
            | EmptyString => String (lowerByte c) (ToLower r)
            end
      | EmptyString => String (lowerByte c) (ToLower r)
      end
  end.

(** [strings.IndexAny(s, "Ee")] *)
Fixpoint IndexAny_Ee (s : string) : option nat :=
  match s with
  | EmptyString => None
  | String c r =>
      if (code c =? 69) || (code c =? 101) then Some O
      else option_map S (IndexAny_Ee r)
  end.

(** Position of the only ['.'] of [s]: [inl tt] when there are several,
    [inr None] when there is none. *)
Fixpoint pointIndex (s : string) (i : nat) (found : option nat)
  : unit + option nat :=
  match s with
  | EmptyString => inr found
  | String c r =>
      if code c =? 46
      then match found with
           | Some _ => inl tt
           | None => pointIndex r (S i) (Some i)
           end
      else pointIndex r (S i) found
  end.

End gostrings.

Module strconv.
Import gostrings.

Definition isDigit (c : ascii) : bool := (48 <=? code c) && (code c <=? 57).

(** The value of a string of decimal digits; [None] when a byte is not a
    digit. *)
Fixpoint digits (s : string) (acc : Z) : option Z :=
  match s with
  | EmptyString => Some acc
  | String c r =>
      if isDigit c then digits r (10 * acc + (code c - 48)) else None
  end.

(** An optional sign followed by at least one decimal digit: the syntax
    that [strconv.ParseInt] and [big.Int.SetString] accept in base 10. *)
Definition signedDigits (s : string) : option Z :=
  match s with
  | EmptyString => None
  | String c r =>
      let body := if (code c =? 43) || (code c =? 45) then r else s in
      match body with
      | EmptyString => None
      | _ =>
          match digits body 0 with
          | Some v => Some (if code c =? 45 then - v else v)
          | None => None
          end
      end
  end.

(** [strconv.ParseInt(s, 10, bitSize)]: a value outside the range of the
    bit size is an error. *)
Definition ParseInt (s : string) (bitSize : Z) : option Z :=
  match signedDigits s with
  | Some v =>
      if (- 2 ^ (bitSize - 1) <=? v) && (v <=? 2 ^ (bitSize - 1) - 1)
      then Some v else None
  | None => None
  end.

Definition Atoi (s : string) : option Z := ParseInt s 64.

End strconv.

(** ** [github.com/shopspring/decimal] *)

Module decimal.
Import gostrings.

(** [Decimal{value *big.Int, exp int32}] stands for [value * 10^exp].  The
    zero value of the struct has a nil [value], which every method replaces
    by 0 before use ([ensureInitialized]); it is [mkDecimal 0 0] here. *)
Record Decimal : Type := mkDecimal { value : Z; exp : Z }.

Definition MaxInt32 : Z := 2147483647.
Definition MinInt32 : Z := -2147483648.

(** Conversion to [int32], wrapping around. *)
Definition int32 (z : Z) : Z := (z + 2 ^ 31) mod 2 ^ 32 - 2 ^ 31.

Definition New (v e : Z) : Decimal := mkDecimal v e.

(** [var Zero = New(0, 1)] *)
Definition Zero : Decimal := New 0 1.

(** The zero value [decimal.Decimal{}] of a declared, unassigned variable. *)
Definition zeroValue : Decimal := mkDecimal 0 0.

Definition NewFromInt (v : Z) : Decimal := mkDecimal v 0.

(** [decimal.NewFromFloat(1000000)]: the shortest decimal form of the
    float, one digit [1] with the point after seven digits. *)
Definition NewFromFloat_1000000 : Decimal := mkDecimal 1 6.

Definition DivisionPrecision : Z := 16.

(** [NewFromString] after the exponent part has been split off: [e] is the
    exponent read so far. *)
Definition NewFromString_mantissa (val : string) (e : Z) : option Decimal :=
  match pointIndex val 0 None with
  | inl _ => None                                   (* too many .s *)
  | inr pIndex =>
      let '(intString, e') :=
        match pIndex with
        | None => (val, e)
        | Some p =>
            (take p val ++ drop (S p) val,
             e + - len (drop (S p) val))
        end in
      match strconv.signedDigits intString with
      | None => None
      | Some dValue =>
          if (e' <? MinInt32) || (e' >? MaxInt32) then None
          else Some (mkDecimal dValue e')
      end
  end.

(** [decimal.NewFromString]: an optional exponent part introduced by the
    first [E] or [e], then digits with an optional sign and at most one
    decimal point.  [None] is the error. *)
Definition NewFromString (val : string) : option Decimal :=
  match IndexAny_Ee val with
  | Some eIndex =>
      match strconv.ParseInt (drop (S eIndex) val) 32 with
      | None => None
      | Some expInt => NewFromString_mantissa (take eIndex val) expInt
      end
  | None => NewFromString_mantissa val 0
  end.

(** [big.Int.Quo] truncates toward zero. *)
Definition rescale (d : Decimal) (e : Z) : Decimal :=
  if exp d =? e then d
  else
    let diff := Z.abs (e - exp d) in
    let expScale := 10 ^ diff in
    if e >? exp d then mkDecimal (Z.quot (value d) expScale) e
    else mkDecimal (value d * expScale) e.

Definition RescalePair (d1 d2 : Decimal) : Decimal * Decimal :=
  if exp d1 <? exp d2 then (d1, rescale d2 (exp d1))
  else if exp d1 >? exp d2 then (rescale d1 (exp d2), d2)
  else (d1, d2).

Definition Add (d d2 : Decimal) : Decimal :=
  let '(rd, rd2) := RescalePair d d2 in
  mkDecimal (value rd + value rd2) (exp rd).

Definition Sub (d d2 : Decimal) : Decimal :=
  let '(rd, rd2) := RescalePair d d2 in
  mkDecimal (value rd - value rd2) (exp rd).

Definition Neg (d : Decimal) : Decimal := mkDecimal (- value d) (exp d).

Definition IsNegative (d : Decimal) : bool := value d <? 0.

Definition Abs (d : Decimal) : Decimal :=
  if IsNegative d then mkDecimal (Z.abs (value d)) (exp d) else d.

Definition Cmp (d d2 : Decimal) : comparison :=
  if exp d =? exp d2 then value d ?= value d2
  else let '(rd, rd2) := RescalePair d d2 in value rd ?= value rd2.

Definition GreaterThan (d d2 : Decimal) : bool :=
  match Cmp d d2 with Gt => true | _ => false end.

Definition Equal (d d2 : Decimal) : bool :=
  match Cmp d d2 with Eq => true | _ => false end.

Definition Exponent (d : Decimal) : Z := exp d.

(** [QuoRem] panics on a zero divisor and when the exponent of the scaled
    dividend leaves [int32]; [big.Int.QuoRem] truncates toward zero. *)
Definition QuoRem (d d2 : Decimal) (precision : Z) : option (Decimal * Decimal) :=
  if value d2 =? 0 then None
  else
    let scale := int32 (- precision) in
    let e := exp d - exp d2 - scale in
    if (e >? MaxInt32) || (e <? MinInt32) then None
    else
      let '(aa, bb, scalerest) :=
        if e <? 0
        then (value d, value d2 * 10 ^ (- e), exp d)
        else (value d * 10 ^ e, value d2, int32 (scale + exp d2)) in
      Some (mkDecimal (Z.quot aa bb) scale, mkDecimal (Z.rem aa bb) scalerest).

(** Division to [precision] digits after the point, rounding half away
    from zero. *)
Definition DivRound (d d2 : Decimal) (precision : Z) : option Decimal :=
  match QuoRem d d2 precision with
  | None => None
  | Some (q, r) =>
      let r2 := mkDecimal (Z.abs (value r) * 2) (int32 (exp r + precision)) in
      match Cmp r2 (Abs d2) with
      | Lt => Some q
      | _ =>
          if Z.sgn (value d) * Z.sgn (value d2) <? 0
          then Some (Sub q (New 1 (int32 (- precision))))
          else Some (Add q (New 1 (int32 (- precision))))
      end
  end.

Definition Div (d d2 : Decimal) : option Decimal :=
  DivRound d d2 (int32 DivisionPrecision).

(** [Round]: half away from zero, to [places] digits after the point.
    [big.Int.DivMod] is Euclidean; for the divisor 10 that is [Z.div] and
    [Z.modulo]. *)
Definition Round (d : Decimal) (places : Z) : Decimal :=
  if exp d =? - places then d
  else
    let ret := rescale d (int32 (- places - 1)) in
    let v := if value ret <? 0 then value ret - 5 else value ret + 5 in
    let q := v / 10 in
    let m := v mod 10 in
    let q' := if (q <? 0) && negb (m =? 0) then q + 1 else q in
    mkDecimal q' (int32 (exp ret + 1)).

(** [big.Int.String] *)
Definition bigIntString (z : Z) : string :=
  DecimalString.NilEmpty.string_of_int (Z.to_int z).

Fixpoint Repeat (s : string) (n : nat) : string :=
  match n with
  | O => EmptyString
  | S n' => s ++ Repeat s n'
  end.

(** [d.string(false)]: all digits of the fraction are printed. *)
Definition string_ (d : Decimal) : string :=
  if exp d >=? 0 then bigIntString (value (rescale d 0))
  else
    let str := bigIntString (Z.abs (value d)) in
    let dExpInt := exp d in
    let '(intPart, fractionalPart) :=
      if len str >? - dExpInt
      then (take (Z.to_nat (len str + dExpInt)) str,
            drop (Z.to_nat (len str + dExpInt)) str)
      else ("0", Repeat "0" (Z.to_nat (- dExpInt - len str)) ++ str) in
    let number :=
      if len fractionalPart >? 0 then intPart ++ "." ++ fractionalPart
      else intPart in
    if value d <? 0 then "-" ++ number else number.

Definition StringFixed (d : Decimal) (places : Z) : string :=
  string_ (Round d places).

(** The rational number a [Decimal] stands for. *)
Definition toQ (d : Decimal) : Q :=
  (inject_Z (value d) * Qpower (10 # 1) (exp d))%Q.

End decimal.

(** ** Go's [time], as far as the date parser and the calculator use it *)

Module gotime.
Import gostrings.

Inductive Month : Type :=
| January | February | March | April | May | June
| July | August | September | October | November | December.

Definition allMonths : list Month :=
  [January; February; March; April; May; June;
   July; August; September; October; November; December].

(** [int(m)] *)
Definition Month_to_Z (m : Month) : Z :=
  match m with
  | January => 1 | February => 2 | March => 3 | April => 4
  | May => 5 | June => 6 | July => 7 | August => 8
  | September => 9 | October => 10 | November => 11 | December => 12
  end.

(** [Month(z)] for [1 <= z <= 12]. *)
Definition Month_of_Z (z : Z) : Month :=
  nth (Z.to_nat (z - 1)) allMonths January.

(** [Month.String], which is also what [Format("January")] prints. *)
Definition Month_String (m : Month) : string :=
  match m with
  | January => "January" | February => "February" | March => "March"
  | April => "April" | May => "May" | June => "June"
  | July => "July" | August => "August" | September => "September"
  | October => "October" | November => "November" | December => "December"
  end.

Definition isLeap (year : Z) : bool :=
  (Z.rem year 4 =? 0) && (negb (Z.rem year 100 =? 0) || (Z.rem year 400 =? 0)).

Definition daysIn (m : Month) (year : Z) : Z :=
  match m with
  | February => if isLeap year then 29 else 28
  | April | June | September | November => 30
  | _ => 31
  end.

Inductive Location : Type := UTC | Local.

(** A [time.Time], held as the civil date and clock it shows in its
    location. *)
Record Time : Type := mkTime {
  tYear : Z; tMonth : Month; tDay : Z;
  tHour : Z; tMinute : Z; tSecond : Z; tNanosecond : Z;
  tLocation : Location }.

Definition Year (t : Time) : Z := tYear t.
Definition Month_ (t : Time) : Month := tMonth t.
Definition Day (t : Time) : Z := tDay t.

(** [t.Format("January")] *)
Definition Format_January (t : Time) : string := Month_String (tMonth t).

(** [norm(hi, lo, base)]: [lo] brought into [0, base), the excess carried
    into [hi]. *)
Definition norm (hi lo base : Z) : Z * Z := (hi + lo / base, lo mod base).

Definition nextMonth (y : Z) (m : Month) : Z * Month :=
  match m with
  | December => (y + 1, January)
  | _ => (y, Month_of_Z (Month_to_Z m + 1))
  end.

Definition prevMonth (y : Z) (m : Month) : Z * Month :=
  match m with
  | January => (y - 1, December)
  | _ => (y, Month_of_Z (Month_to_Z m - 1))
  end.

(** A day outside its month is carried into the neighbouring months: day
    32 of October is day 1 of November, day 0 of March the last day of
    February. *)
Fixpoint carryDays (fuel : nat) (y : Z) (m : Month) (d : Z) : Z * Month * Z :=
  match fuel with
  | O => (y, m, d)
  | S f =>
      if d >? daysIn m y
      then let '(y', m') := nextMonth y m in carryDays f y' m' (d - daysIn m y)
      else if d <? 1
      then let '(y', m') := prevMonth y m in carryDays f y' m' (d + daysIn m' y')
      else (y, m, d)
  end.

(** [time.Date]: values outside their usual ranges are normalized.  Go
    counts the days from an epoch and converts the count back to a date;
    the result is the date reached by carrying the excess of each field
    into the next one. *)
Definition Date (year month day hour min sec nsec : Z) (loc : Location) : Time :=
  let '(year, m) := norm year (month - 1) 12 in
  let '(sec, nsec) := norm sec nsec 1000000000 in
  let '(min, sec) := norm min sec 60 in
  let '(hour, min) := norm hour min 60 in
  let '(day, hour) := norm day hour 24 in
  let '(y, mo, d) := carryDays (S (Z.to_nat (Z.abs day))) year (Month_of_Z (m + 1)) day in
  mkTime y mo d hour min sec nsec loc.

(** [t.AddDate(years, months, days)] *)
Definition AddDate (t : Time) (years months days : Z) : Time :=
  Date (tYear t + years) (Month_to_Z (tMonth t) + months) (tDay t + days)
       (tHour t) (tMinute t) (tSecond t) (tNanosecond t) (tLocation t).

(** The layout directives that occur in the layouts of the date parser. *)
Inductive std : Type :=
| stdNumMonth      (* "1" *)
| stdZeroMonth     (* "01" *)
| stdDay           (* "2" *)
| stdZeroDay       (* "02" *)
| stdLongYear.     (* "2006" *)

Inductive chunk : Type :=
| Lit (c : ascii)
| Std (s : std).

(** [nextStdChunk], applied until the layout is used up, for layouts
    written with the bytes [0 1 2 6 / -] as those of the date parser are:
    ["2006"] is the long year and any other ["2"] the day, ["01"] and
    ["02"] are the two-digit month and day, any other ["1"] is the month;
    every other byte stands for itself. *)
Fixpoint chunks (layout : string) : list chunk :=
  match layout with
  | EmptyString => []
  | String "2" (String "0" (String "0" (String "6" r))) => Std stdLongYear :: chunks r
  | String "2" r => Std stdDay :: chunks r
  | String "0" (String "1" r) => Std stdZeroMonth :: chunks r
  | String "0" (String "2" r) => Std stdZeroDay :: chunks r
  | String "1" r => Std stdNumMonth :: chunks r
  | String c r => Lit c :: chunks r
  end.

Definition digitVal (c : ascii) : Z := code c - 48.

(** [getnum]: one or two digits, exactly two when [fixed]. *)
Definition getnum (s : string) (fixed : bool) : option (Z * string) :=
  match s with
  | String c1 r1 =>
      if strconv.isDigit c1 then
        match r1 with
        | String c2 r2 =>
            if strconv.isDigit c2
            then Some (digitVal c1 * 10 + digitVal c2, r2)
            else if fixed then None else Some (digitVal c1, r1)
        | EmptyString => if fixed then None else Some (digitVal c1, r1)
        end
      else None
  | EmptyString => None
  end.

(** The long year: the next four bytes, all of them digits. *)
Definition getLongYear (s : string) : option (Z * string) :=
  if (len s <? 4) then None
  else match strconv.digits (take 4 s) 0 with
       | Some y => Some (y, drop 4 s)
       | None => None
       end.

Inductive ParseError : Type :=
| errBad            (* the value does not have the form of the layout *)
| errExtraText      (* text is left after the layout is used up *)
| errMonthRange     (* ": month out of range" *)
| errDayRange.      (* ": day out of range" *)

(** The fields [parse] collects; month and day start at -1, the year at 0. *)
Record fields : Type := mkFields { fYear : Z; fMonth : Z; fDay : Z }.

Fixpoint parseChunks (cs : list chunk) (val : string) (f : fields)
  : ParseError + fields :=
  match cs with
  | [] => if len val =? 0 then inr f else inl errExtraText
  | Lit c :: cs' =>
      match val with
      | String c' r => if Ascii.eqb c c' then parseChunks cs' r f else inl errBad
      | EmptyString => inl errBad
      end
  | Std stdLongYear :: cs' =>
      match getLongYear val with
      | Some (y, r) => parseChunks cs' r (mkFields y (fMonth f) (fDay f))
      | None => inl errBad
      end
  | Std ((stdNumMonth | stdZeroMonth) as s) :: cs' =>
      match getnum val (match s with stdZeroMonth => true | _ => false end) with
      | Some (m, r) =>
          if (m <=? 0) || (12 <? m) then inl errMonthRange
          else parseChunks cs' r (mkFields (fYear f) m (fDay f))
      | None => inl errBad
      end
  | Std ((stdDay | stdZeroDay) as s) :: cs' =>
      match getnum val (match s with stdZeroDay => true | _ => false end) with
      | Some (d, r) => parseChunks cs' r (mkFields (fYear f) (fMonth f) d)
      | None => inl errBad
      end
  end.

(** [time.Parse(layout, value)]: fields the layout does not mention keep
    their defaults (January, day 1, year 0, midnight); the day is checked
    against the month and year read; the result is in UTC. *)
Definition Parse (layout val : string) : ParseError + Time :=
  match parseChunks (chunks layout) val (mkFields 0 (-1) (-1)) with
  | inl e => inl e
  | inr f =>
      let month := if fMonth f <? 0 then 1 else fMonth f in
      let day := if fDay f <? 0 then 1 else fDay f in
      if (day <? 1) || (day >? daysIn (Month_of_Z month) (fYear f))
      then inl errDayRange
      else inr (Date (fYear f) month day 0 0 0 0 UTC)
  end.

End gotime.

(** ** The domain types ([internal/domain]) *)

Module domain.
Import decimal gotime.

(** [type TransactionType string] *)
Definition TransactionType : Type := string.
Definition Credit : TransactionType := "credit".
Definition Debit : TransactionType := "debit".

(** A [uuid.UUID], identified by its rank among the identifiers
    generated. *)
Definition UUID : Type := nat.

Module Transaction.
Record t : Type := mk {
  ID : UUID;
  AccountID : string;
  Date : Time;
  Amount : Decimal;
  Type_ : TransactionType;
  Description : string;
  CreatedAt : Time;
  UpdatedAt : Time }.
End Transaction.

Definition IsCredit (t : Transaction.t) : bool :=
  String.eqb (Transaction.Type_ t) Credit.

Definition IsDebit (t : Transaction.t) : bool :=
  String.eqb (Transaction.Type_ t) Debit.

Module MonthlySummary.
Record t : Type := mk {
  Month : gotime.Month;
  Year : Z;
  TransactionCount : Z;
  AverageCredit : Decimal;
  AverageDebit : Decimal;
  TotalCredits : Decimal;
  TotalDebits : Decimal;
  CreditCount : Z;
  DebitCount : Z }.
End MonthlySummary.

Module AccountSummary.
Record t : Type := mk {
  AccountID : string;
  TotalBalance : Decimal;
  MonthlySummaries : gmap string MonthlySummary.t;
  ProcessedAt : Time;
  TotalTransactions : Z }.
End AccountSummary.

End domain.

(** The clock, as the readings the code takes of it.  The record parser
    reads [time.Now().UTC()] twice for every identifier it generates, for
    the two time stamps of a transaction: [stampUTC n] is the reading
    number [n] among these, counted from 0. *)
Record Clock : Type := clockOf {
  currentYear : Z;                  (* time.Now().Year() *)
  nowUTC : gotime.Time;             (* time.Now().UTC(), in the calculator *)
  stampUTC : nat -> gotime.Time }.  (* time.Now().UTC(), in the record parser *)

(** A clock that shows [now] at every reading of the record parser. *)
Definition mkClock (year : Z) (now : gotime.Time) : Clock :=
  clockOf year now (fun _ => now).

(** ** The CSV reader ([internal/infrastructure/csv/reader.go]) *)

Module csv.
Import gostrings decimal gotime domain.

(** What [csvReader.Read] of [encoding/csv] finds next in the stream: the
    fields of a record, or text that is not CSV. *)
Inductive rawRecord : Type :=
| Fields (record : list string)
| Malformed (msg : string).



Inductive csvError : Type :=
| ErrFieldCount                      (* "wrong number of fields" *)
| ErrSyntax (msg : string).

(** The errors of the reader, one constructor per message; a [cause] is
    the error wrapped with [%w]. *)
Inductive error : Type :=
| ErrAmountEmpty                                   (* "amount cannot be empty" *)
| ErrInvalidNumeric (numericStr : string)          (* "invalid numeric amount: %s" *)
| ErrExceedsMaximum (amountStr : string)           (* "amount exceeds maximum limit: %s" *)
| ErrTooManyDecimals (amountStr : string)          (* "amount has too many decimal places (max 2): %s" *)
| ErrUnableToParseDate (dateStr : string)          (* "unable to parse date: %s" *)
| ErrRecordFormat (n : Z)                          (* "invalid CSV record format, expected 3 fields but got %d" *)
| ErrEmptyID                                       (* "transaction ID cannot be empty" *)
| ErrInvalidDate (dateStr : string) (cause : error)      (* "invalid date format '%s': %w" *)
| ErrInvalidAmount (amountStr : string) (cause : error)  (* "invalid amount format '%s': %w" *)
| ErrReadRecord (line : Z) (cause : csvError)      (* "failed to read CSV record at line %d: %w" *)
| ErrParseTransaction (line : Z) (cause : error)   (* "failed to parse transaction at line %d: %w" *)
| ErrNoTransactions.                               (* "no valid transactions found in CSV file" *)

Definition formats : list string :=
  [ "1/2";          (* M/D (assuming current year) *)
    "1/02";         (* M/DD (assuming current year) *)
    "01/2";         (* MM/D (assuming current year) *)
    "01/02";        (* MM/DD (assuming current year) *)
    "1/2/2006";     (* M/D/YYYY *)
    "1/02/2006";    (* M/DD/YYYY *)
    "01/2/2006";    (* MM/D/YYYY *)
    "01/02/2006";   (* MM/DD/YYYY *)
    "2006-01-02";   (* YYYY-MM-DD *)
    "2006/01/02" ]. (* YYYY/MM/DD *)

(** The loop of [parseDate] over the layouts still to be tried. *)
Fixpoint parseDate_from (clock : Clock) (fs : list string) (dateStr : string)
  : error + Time :=
  match fs with
  | [] => inl (ErrUnableToParseDate dateStr)
  | format :: fs' =>
      match Parse format dateStr with
      | inr date =>
          (* If year is not specified, assume current year *)
          if Year date =? 0
          then inr (AddDate date (currentYear clock) 0 0)
          else inr date
      | inl _ => parseDate_from clock fs' dateStr
      end
  end.

Definition parseDate (clock : Clock) (dateStr : string) : error + Time :=
  parseDate_from clock formats dateStr.

(** [parseAmount] parses the transaction amount and determines if it's
    credit or debit. *)
Definition parseAmount (amountStr : string) : error + (Decimal * TransactionType) :=
  let amountStr := TrimSpace amountStr in
  if String.eqb amountStr "" then inl ErrAmountEmpty
  else
    let '(transactionType, numericStr) :=
      if HasPrefix amountStr "+" then (Credit, TrimPrefix amountStr "+")
      else if HasPrefix amountStr "-" then (Debit, TrimPrefix amountStr "-")
      else (Credit, amountStr) in
    match NewFromString numericStr with
    | None => inl (ErrInvalidNumeric numericStr)
    | Some amount =>
        let amount := Abs amount in
        let amount := if String.eqb transactionType Debit then Neg amount else amount in
        let maxAmount := NewFromFloat_1000000 in
        if GreaterThan (Abs amount) maxAmount then inl (ErrExceedsMaximum amountStr)
        else if Exponent amount <? -2 then inl (ErrTooManyDecimals amountStr)
        else inr (amount, transactionType)
    end.

(** [parseTransaction] converts a CSV record to a Transaction.  [ids] is
    the number of identifiers generated so far; it is returned
    incremented when [uuid.New] has been called.  The clock has been read
    twice for each of them, so the two readings taken here are the
    readings number [2 * ids] and [2 * ids + 1]. *)
Definition parseTransaction (clock : Clock) (record : list string)
    (accountID : string) (ids : nat) : (error + Transaction.t) * nat :=
  match record with
  | [f0; f1; f2] =>
      let idStr := TrimSpace f0 in
      if String.eqb idStr "" then (inl ErrEmptyID, ids)
      else
        let dateStr := TrimSpace f1 in
        match parseDate clock dateStr with
        | inl err => (inl (ErrInvalidDate dateStr err), ids)
        | inr transactionDate =>
            let amountStr := TrimSpace f2 in
            match parseAmount amountStr with
            | inl err => (inl (ErrInvalidAmount amountStr err), ids)
            | inr (amount, transactionType) =>
                (inr (Transaction.mk ids accountID transactionDate amount
                        transactionType ("Transaction " ++ idStr)
                        (stampUTC clock (2 * ids)%nat) (stampUTC clock (2 * ids + 1)%nat)),
                 S ids)
            end
        end
  | _ => (inl (ErrRecordFormat (Z.of_nat (length record))), ids)
  end.

Definition isHeaderRow (record : list string) : bool :=
  match record with
  | [f0; f1; f2] =>
      let firstCol := ToLower (TrimSpace f0) in
      if String.eqb firstCol "id" || String.eqb firstCol "transaction_id" then true
      else
        let secondCol := ToLower (TrimSpace f1) in
        if String.eqb secondCol "date" || String.eqb secondCol "transaction_date" then true
        else
          let thirdCol := ToLower (TrimSpace f2) in
          if String.eqb thirdCol "amount" || String.eqb thirdCol "transaction"
             || String.eqb thirdCol "value" then true
          else
            match strconv.Atoi (TrimSpace f0) with
            | Some _ => false
            | None => false
            end
  | _ => false
  end.

(** [csvReader.Read] with [FieldsPerRecord = n]: a record with another
    number of fields is an error. *)
Definition Read (FieldsPerRecord : Z) (raw : rawRecord) : csvError + list string :=
  match raw with
  | Malformed msg => inl (ErrSyntax msg)
  | Fields record =>
      if Z.of_nat (length record) =? FieldsPerRecord then inr record
      else inl ErrFieldCount
  end.

(** The loop of [ReadTransactions]; the stream running out is [io.EOF]. *)
Fixpoint readLoop (clock : Clock) (stream : list rawRecord) (accountID : string)
    (lineNumber : Z) (ids : nat) (transactions : list Transaction.t)
  : error + list Transaction.t :=
  match stream with
  | [] =>
      if Z.of_nat (length transactions) =? 0 then inl ErrNoTransactions
      else inr transactions
  | raw :: rest =>
      match Read 3 raw with
      | inl err => inl (ErrReadRecord (lineNumber + 1) err)
      | inr record =>
          let lineNumber := lineNumber + 1 in
          (* Skip header row *)
          if (lineNumber =? 1) && isHeaderRow record
          then readLoop clock rest accountID lineNumber ids transactions
          else
            match parseTransaction clock record accountID ids with
            | (inl err, _) => inl (ErrParseTransaction lineNumber err)
            | (inr transaction, ids') =>
                readLoop clock rest accountID lineNumber ids'
                         (transactions ++ [transaction])
            end
      end
  end.

(** [ReadTransactions], from [csv.NewReader] on: [stream] is what the
    opened file or S3 object holds, record after record. *)
Definition ReadTransactions (clock : Clock) (stream : list rawRecord)
    (accountID : string) (ids : nat) : error + list Transaction.t :=
  readLoop clock stream accountID 0 ids [].

End csv.

(** ** The calculator ([internal/service/calculator.go]) *)

Module service.
Import gostrings decimal gotime domain.

(** [groupTransactionsByMonth] groups transactions by month name.  A key
    that is not in the map yet reads as the nil slice. *)
Definition groupStep (monthlyData : gmap string (list Transaction.t))
    (tx : Transaction.t) : gmap string (list Transaction.t) :=
  let monthKey := Format_January (Transaction.Date tx) in (* e.g., "July", "August" *)
  <[monthKey := (default [] (monthlyData !! monthKey) ++ [tx])%list]> monthlyData.

Definition groupTransactionsByMonth (transactions : list Transaction.t)
  : gmap string (list Transaction.t) :=
  fold_left groupStep transactions ∅.

(** [parseMonth] converts month name string to time.Month. *)
Definition parseMonth (monthName : string) : Month :=
  if String.eqb monthName "January" then January
  else if String.eqb monthName "February" then February
  else if String.eqb monthName "March" then March
  else if String.eqb monthName "April" then April
  else if String.eqb monthName "May" then May
  else if String.eqb monthName "June" then June
  else if String.eqb monthName "July" then July
  else if String.eqb monthName "August" then August
  else if String.eqb monthName "September" then September
  else if String.eqb monthName "October" then October
  else if String.eqb monthName "November" then November
  else if String.eqb monthName "December" then December
  else January.

(** The running totals of the loop of [calculateMonthlySummary]:
    [(totalCredits, totalDebits, creditCount, debitCount)]. *)
Definition tally (acc : Decimal * Decimal * Z * Z) (tx : Transaction.t)
  : Decimal * Decimal * Z * Z :=
  let '(totalCredits, totalDebits, creditCount, debitCount) := acc in
  if IsCredit tx
  then (Add totalCredits (Transaction.Amount tx), totalDebits, creditCount + 1, debitCount)
  else if IsDebit tx
  then (totalCredits, Add totalDebits (Transaction.Amount tx), creditCount, debitCount + 1)
  else acc.

(** [calculateMonthlySummary] calculates summary statistics for a month.
    [None] is a panic of [Div]. *)
Definition calculateMonthlySummary (clock : Clock) (monthKey : string)
    (transactions : list Transaction.t) : option MonthlySummary.t :=
  match transactions with
  | [] =>
      Some (MonthlySummary.mk (parseMonth monthKey) (currentYear clock) 0
              Zero Zero Zero Zero 0 0)
  | tx0 :: _ =>
      let sampleDate := Transaction.Date tx0 in
      let '(totalCredits, totalDebits, creditCount, debitCount) :=
        fold_left tally transactions (Zero, Zero, 0, 0) in
      (* Calculate averages *)
      match (if creditCount >? 0
             then Div totalCredits (NewFromInt creditCount)
             else Some zeroValue) with
      | None => None
      | Some averageCredit =>
          match (if debitCount >? 0
                 then Div totalDebits (NewFromInt debitCount)
                 else Some zeroValue) with
          | None => None
          | Some averageDebit =>
              Some (MonthlySummary.mk (Month_ sampleDate) (Year sampleDate)
                      (Z.of_nat (length transactions))
                      averageCredit averageDebit totalCredits totalDebits
                      creditCount debitCount)
          end
      end
  end.

(** The loop of [CalculateSummary] over the groups.  Every key is written
    once, and a panic in one group is a panic of the loop, so the order in
    which the map is ranged over does not show in the result. *)
Definition monthlySummariesOf (clock : Clock)
    (monthlyData : gmap string (list Transaction.t))
  : option (gmap string MonthlySummary.t) :=
  map_fold
    (fun monthKey monthTransactions (acc : option (gmap string MonthlySummary.t)) =>
       match acc, calculateMonthlySummary clock monthKey monthTransactions with
       | Some monthlySummaries, Some summary =>
           Some (<[monthKey := summary]> monthlySummaries)
       | _, _ => None
       end)
    (Some ∅) monthlyData.

(** [CalculateSummary]; the Go function has no statement that returns an
    error other than nil, so the result type has no error to return, and
    [None] is a panic. *)
Definition CalculateSummary (clock : Clock) (accountID : string)
    (transactions : list Transaction.t) : option AccountSummary.t :=
  match transactions with
  | [] => Some (AccountSummary.mk accountID Zero ∅ (nowUTC clock) 0)
  | _ =>
      let totalBalance :=
        fold_left (fun totalBalance tx => Add totalBalance (Transaction.Amount tx))
                  transactions Zero in
      let monthlyData := groupTransactionsByMonth transactions in
      match monthlySummariesOf clock monthlyData with
      | None => None
      | Some monthlySummaries =>
          Some (AccountSummary.mk accountID totalBalance monthlySummaries
                  (nowUTC clock) (Z.of_nat (length transactions)))
      end
  end.

Definition newline : string := String (ascii_of_nat 10) EmptyString.

(** [%d] of an [int] *)
Definition formatInt (z : Z) : string := bigIntString z.

(** The first loop of [FormatSummaryForEmail]: a line per month, added to
    [result] in the order the map is ranged over. *)
Definition monthLines (result : string) (order : list (string * MonthlySummary.t))
  : string :=
  fold_left
    (fun result '(monthName, monthlySummary) =>
       result ++ "Number of transactions in " ++ monthName ++ ": "
              ++ formatInt (MonthlySummary.TransactionCount monthlySummary) ++ newline)
    order result.

(** The totals of the second loop of [FormatSummaryForEmail]:
    [(totalCredits, totalDebits, totalCreditCount, totalDebitCount)]. *)
Definition overallStep (acc : Decimal * Decimal * Z * Z)
    (entry : string * MonthlySummary.t) : Decimal * Decimal * Z * Z :=
  let '(totalCredits, totalDebits, totalCreditCount, totalDebitCount) := acc in
  let monthlySummary := snd entry in
  (Add totalCredits (MonthlySummary.TotalCredits monthlySummary),
   Add totalDebits (MonthlySummary.TotalDebits monthlySummary),
   totalCreditCount + MonthlySummary.CreditCount monthlySummary,
   totalDebitCount + MonthlySummary.DebitCount monthlySummary).

Definition overallTotals (order : list (string * MonthlySummary.t))
  : Decimal * Decimal * Z * Z :=
  fold_left overallStep order (Zero, Zero, 0, 0).

(** [FormatSummaryForEmail], given the orders in which its two loops range
    over [summary.MonthlySummaries] (Go leaves them unspecified).  [None]
    is a panic of [Div]. *)
Definition FormatSummaryForEmail_in
    (order1 order2 : list (string * MonthlySummary.t))
    (summary : AccountSummary.t) : option string :=
  (* Total balance *)
  let result :=
    "Total balance is " ++ StringFixed (AccountSummary.TotalBalance summary) 2 ++ newline in
  (* Monthly transaction counts *)
  let result := monthLines result order1 in
  (* Calculate overall averages across all months *)
  let '(totalCredits, totalDebits, totalCreditCount, totalDebitCount) :=
    overallTotals order2 in
  (* Average debit amount (should be negative) *)
  match (if totalDebitCount >? 0
         then match Div totalDebits (NewFromInt totalDebitCount) with
              | Some averageDebit =>
                  Some (result ++ "Average debit amount: "
                               ++ StringFixed averageDebit 2 ++ newline)
              | None => None
              end
         else Some result) with
  | None => None
  | Some result =>
      (* Average credit amount (should be positive) *)
      if totalCreditCount >? 0
      then match Div totalCredits (NewFromInt totalCreditCount) with
           | Some averageCredit =>
               Some (result ++ "Average credit amount: " ++ StringFixed averageCredit 2)
           | None => None
           end
      else Some result
  end.

(** [out] is a text [FormatSummaryForEmail] can return for [summary]: the
    text it returns for some order of each of its two passes over the
    map. *)
Definition FormatSummaryForEmail (summary : AccountSummary.t) (out : string) : Prop :=
  exists order1 order2,
    order1 ≡ₚ map_to_list (AccountSummary.MonthlySummaries summary) /\
    order2 ≡ₚ map_to_list (AccountSummary.MonthlySummaries summary) /\
    FormatSummaryForEmail_in order1 order2 summary = Some out.


End service.

(** ** S3 locations ([internal/aws]) *)

Module aws.
Import gostrings.

(** [s] cut at its first ["/"]: what stands before it and what stands
    after it. *)
Fixpoint cutSlash (s : string) : option (string * string) :=
  match s with
  | EmptyString => None
  | String c r =>
      if code c =? 47 then Some (EmptyString, r)
      else match cutSlash r with
           | Some (before, after) => Some (String c before, after)
           | None => None
           end
  end.

(** [strings.SplitN(s, "/", 2)] *)
Definition SplitN_2 (s : string) : list string :=
  match cutSlash s with
  | Some (before, after) => [before; after]
  | None => [s]
  end.

Inductive urlError : Type :=
| ErrEmptyURL                          (* "S3 URL cannot be empty" *)
| ErrInvalidFormat (s3URL : string)    (* "invalid S3 URL format: %s" *)
| ErrMissingKey (s3URL : string)       (* "invalid S3 URL format, missing key: %s" *)
| ErrMissingBucket (s3URL : string).   (* "invalid S3 URL format, missing bucket: %s" *)

(** [ParseS3URL] parses an S3 URL and returns bucket and key. *)
Definition ParseS3URL (s3URL : string) : urlError + (string * string) :=
  if String.eqb s3URL "" then inl ErrEmptyURL
  else if negb (HasPrefix s3URL "s3://") then inl (ErrInvalidFormat s3URL)
  else
    (* Remove s3:// prefix *)
    let path := TrimPrefix s3URL "s3://" in
    (* Split bucket and key *)
    match SplitN_2 path with
    | bucket :: key :: _ =>
        if String.eqb bucket "" then inl (ErrMissingBucket s3URL)
        else if String.eqb key "" then inl (ErrMissingKey s3URL)
        else inr (bucket, key)
    | _ => inl (ErrMissingKey s3URL)
    end.

(** [GenerateProcessedKey] generates a key for the processed directory. *)
Definition GenerateProcessedKey (originalKey : string) : string :=
  (* Remove "input/" prefix if present *)
  let key := TrimPrefix originalKey "input/" in
  "processed/" ++ key.

End aws.

(** ** Methods of the domain types ([internal/domain]) *)

Module domainMethods.
Import decimal gotime domain.

(** [Transaction.GetAbsoluteAmount] *)
Definition GetAbsoluteAmount (t : Transaction.t) : Decimal :=
  Abs (Transaction.Amount t).

(** [MonthlySummary.GetMonthlyKey] *)
Definition GetMonthlyKey (ms : MonthlySummary.t) : string :=
  Month_String (MonthlySummary.Month ms).

End domainMethods.

(** ** The mail settings ([internal/config]) *)

Module config.

Record Email : Type := mkEmail {
  EmailMode : string;
  MailHogHost : string;
  MailHogPort : Z;
  GmailHost : string;
  GmailPort : Z;
  GmailUsername : string;
  GmailPassword : string;
  SMTPHost : string;
  SMTPPort : Z;
  SMTPUsername : string;
  SMTPPassword : string;
  FromAddress : string;
  FromName : string;
  ToAddress : string;
  ToName : string;
  SESFromEmail : string;
  SESRegion : string }.

(** The receiver with the four SMTP connection parameters assigned. *)
Definition setSMTP (e : Email) (host : string) (port : Z) (username password : string)
  : Email :=
  mkEmail (EmailMode e) (MailHogHost e) (MailHogPort e)
          (GmailHost e) (GmailPort e) (GmailUsername e) (GmailPassword e)
          host port username password
          (FromAddress e) (FromName e) (ToAddress e) (ToName e)
          (SESFromEmail e) (SESRegion e).

(** [ConfigureSMTP] configures the SMTP settings based on [EmailMode]; the
    method updates its receiver, which is returned here. *)
Definition ConfigureSMTP (e : Email) : Email :=
  if String.eqb (EmailMode e) "development" || String.eqb (EmailMode e) "mailhog"
  then (* Use MailHog for development (no authentication required) *)
    setSMTP e (MailHogHost e) (MailHogPort e) "" ""
  else if String.eqb (EmailMode e) "gmail" || String.eqb (EmailMode e) "production"
  then (* Use Gmail for real email delivery *)
    setSMTP e (GmailHost e) (GmailPort e) (GmailUsername e) (GmailPassword e)
  else (* Keep legacy configuration if mode not recognized *)
    e.

(** [GetEmailModeDescription] returns a human-readable description of the
    current email mode. *)
Definition GetEmailModeDescription (e : Email) : string :=
  if String.eqb (EmailMode e) "development" || String.eqb (EmailMode e) "mailhog"
  then "Development Mode (MailHog at " ++ MailHogHost e ++ ":"
         ++ service.formatInt (MailHogPort e) ++ ")"
  else if String.eqb (EmailMode e) "gmail"
  then "Gmail Mode (SMTP at " ++ GmailHost e ++ ":"
         ++ service.formatInt (GmailPort e) ++ ")"
  else if String.eqb (EmailMode e) "production"
  then "Production Mode (AWS SES)"
  else "Legacy Mode (SMTP at " ++ SMTPHost e ++ ":"
         ++ service.formatInt (SMTPPort e) ++ ")".

Definition IsMailHogMode (e : Email) : bool :=
  String.eqb (EmailMode e) "development" || String.eqb (EmailMode e) "mailhog".

Definition IsGmailMode (e : Email) : bool :=
  String.eqb (EmailMode e) "gmail".

End config.

(** ** The mail service ([internal/infrastructure/email]) *)

Module email.
Import gostrings gotime.

(** [SESService.parseMonth]: English and Spanish month names, in any
    case. *)
Definition parseMonth (monthName : string) : Month :=
  let name := ToLower monthName in
  if String.eqb name "january" || String.eqb name "enero" then January
  else if String.eqb name "february" || String.eqb name "febrero" then February
  else if String.eqb name "march" || String.eqb name "marzo" then March
  else if String.eqb name "april" || String.eqb name "abril" then April
  else if String.eqb name "may" || String.eqb name "mayo" then May
  else if String.eqb name "june" || String.eqb name "junio" then June
  else if String.eqb name "july" || String.eqb name "julio" then July
  else if String.eqb name "august" || String.eqb name "agosto" then August
  else if String.eqb name "september" || String.eqb name "septiembre" then September
  else if String.eqb name "october" || String.eqb name "octubre" then October
  else if String.eqb name "november" || String.eqb name "noviembre" then November
  else if String.eqb name "december" || String.eqb name "diciembre" then December
  else January.

End email.

(** ** The processor ([internal/service/processor.go]) *)

Module processor.
Import gostrings.

(** [os.IsPathSeparator] where the path separator is ["/"]. *)
Definition IsPathSeparator (c : ascii) : bool := code c =? 47.

(** The path separators at the start of [r]. *)
Fixpoint dropSeparators (r : string) : string :=
  match r with
  | EmptyString => EmptyString
  | String c r' => if IsPathSeparator c then dropSeparators r' else r
  end.

(** The bytes of [r] before its first path separator. *)
Fixpoint untilSeparator (r : string) : string :=
  match r with
  | EmptyString => EmptyString
  | String c r' => if IsPathSeparator c then EmptyString else String c (untilSeparator r')
  end.

(** [filepath.Base]: the last element of the path, trailing separators
    removed first; ["."] for the empty path and ["/"] for a path of
    separators only.  The loops of the Go function run from the end of the
    path; they run here from the start of the reversed path. *)
Definition Base (path : string) : string :=
  if String.eqb path "" then "."
  else
    (* Strip trailing slashes, find the last element *)
    let last := reverse (untilSeparator (dropSeparators (reverse path))) in
    (* If empty now, it had only slashes. *)
    if String.eqb last "" then "/" else last.

(** The loop of [filepath.Ext], from the last byte backwards: [r] is the
    reversed path still to be looked at, [seen] the bytes looked at. *)
Fixpoint extFrom (r seen : string) : string :=
  match r with
  | EmptyString => EmptyString
  | String c r' =>
      if IsPathSeparator c then EmptyString
      else if code c =? 46 then String c seen
      else extFrom r' (String c seen)
  end.

(** [filepath.Ext]: the suffix beginning at the final dot in the final
    element of the path; empty if there is no dot. *)
Definition Ext (path : string) : string := extFrom (reverse path) EmptyString.

(** [strings.HasSuffix] *)
Definition HasSuffix (s suffix : string) : bool :=
  (String.length suffix <=? String.length s)%nat &&
  String.eqb (drop (String.length s - String.length suffix) s) suffix.

(** [strings.TrimSuffix] *)
Definition TrimSuffix (s suffix : string) : string :=
  if HasSuffix s suffix
  then take (String.length s - String.length suffix) s
  else s.

(** [extractAccountIDFromFilename] extracts account ID from filename. *)
Definition extractAccountIDFromFilename (filePath : string) : string :=
  let filename := Base filePath in
  (* Remove extension *)
  let name := TrimSuffix filename (Ext filename) in
  (* Use filename as account ID, or default if empty *)
  if String.eqb name "" || String.eqb name "transactions"
  then "default-account"
  else name.

Section Batch.

(** What processing a file does to the world outside (files, database,
    mail), and the error it returns, if any. *)
Context {World Err : Type}.
Variable ProcessFile : string -> World -> option Err * World.

Inductive batchError : Type :=
| ErrProcessFile (filePath : string) (cause : Err). (* "failed to process file %s: %w" *)

(** [ProcessBatch] processes multiple files, one after the other. *)
Fixpoint ProcessBatch (filePaths : list string) (w : World)
  : option batchError * World :=
  match filePaths with
  | [] => (None, w)
  | filePath :: rest =>
      match ProcessFile filePath w with
      | (Some err, w') => (Some (ErrProcessFile filePath err), w')
      | (None, w') => ProcessBatch rest w'
      end
  end.

End Batch.

End processor.

(** ** Vocabulary of the statements *)

Import gostrings decimal gotime domain csv service.

(** The sum of a list of rational numbers. *)
Fixpoint sumQ (l : list Q) : Q :=
  match l with
  | [] => 0%Q
  | x :: l' => (x + sumQ l')%Q
  end.

(** What [parseAmount] hands to [NewFromString]: the trimmed input without
    its leading sign character. *)
Definition numericRemainder (amountStr : string) : string :=
  let a := TrimSpace amountStr in
  if HasPrefix a "+" then TrimPrefix a "+"
  else if HasPrefix a "-" then TrimPrefix a "-"
  else a.

(** The classification [parseAmount] takes from the leading character. *)
Definition kindOfSign (amountStr : string) : TransactionType :=
  let a := TrimSpace amountStr in
  if HasPrefix a "+" then Credit
  else if HasPrefix a "-" then Debit
  else Credit.

(** Amount and kind agree: a credit is not negative, a debit not positive. *)
Definition signAgrees (amount : Decimal) (kind : TransactionType) : Prop :=
  (kind = Credit /\ (0 <= toQ amount)%Q) \/ (kind = Debit /\ (toQ amount <= 0)%Q).

(** The number of bytes written after the decimal point of [s]. *)
Definition bytesAfterPoint (s : string) : Z :=
  match pointIndex s 0 None with
  | inr (Some p) => len (drop (S p) s)
  | _ => 0
  end.

(** The number of digits in [s] before any exponent mark. *)
Fixpoint countDigits (s : string) : Z :=
  match s with
  | EmptyString => 0
  | String c r =>
      if (code c =? 69) || (code c =? 101) then 0
      else (if strconv.isDigit c then 1 else 0) + countDigits r
  end.

(** The number of digits written after the decimal point of [s], up to
    the exponent part if there is one. *)
Definition digitsAfterPoint (s : string) : Z :=
  match pointIndex s 0 None with
  | inr (Some p) => countDigits (drop (S p) s)
  | _ => 0
  end.

(** The layouts that carry no year. *)
Definition yearlessFormats : list string := firstn 4 formats.

(** The month and day directives, by whether they take exactly two
    digits. *)
Definition monthStd (fixed : bool) : std := if fixed then stdZeroMonth else stdNumMonth.
Definition dayStd (fixed : bool) : std := if fixed then stdZeroDay else stdDay.

(** [layout] does not match [s]. *)
Definition noMatch (s layout : string) : Prop :=
  exists e, Parse layout s = inl e.

(** Why a row cannot be turned into a transaction, if it cannot: the error
    of the CSV reader or the error of the record parser. *)
Definition rowCause (clock : Clock) (accountID : string) (raw : rawRecord)
  : option (csvError + error) :=
  match Read 3 raw with
  | inl e => Some (inl e)
  | inr record =>
      match fst (parseTransaction clock record accountID 0) with
      | inl e => Some (inr e)
      | inr _ => None
      end
  end.

(** The row at position [i] of the stream, counted from 0, is skipped as a
    header. *)
Definition skippedAsHeader (i : nat) (raw : rawRecord) : bool :=
  match Read 3 raw with
  | inr record => Nat.eqb i 0 && isHeaderRow record
  | inl _ => false
  end.

(** The row at position [i] fails to parse, for the reason [cause]. *)
Definition rowFails (clock : Clock) (accountID : string) (i : nat)
    (raw : rawRecord) (cause : csvError + error) : Prop :=
  skippedAsHeader i raw = false /\ rowCause clock accountID raw = Some cause.

(** The row at position [i] is skipped or parses. *)
Definition rowPasses (clock : Clock) (accountID : string) (i : nat)
    (raw : rawRecord) : Prop :=
  skippedAsHeader i raw = true \/ rowCause clock accountID raw = None.

(** The error of the ingestion driver for a row that fails at [line]. *)
Definition lineError (line : Z) (cause : csvError + error) : error :=
  match cause with
  | inl e => ErrReadRecord line e
  | inr e => ErrParseTransaction line e
  end.

(** The transactions of [txs] whose date has the month name [monthName],
    in the order of [txs]; the year plays no part. *)
Definition inMonth (monthName : string) (txs : list Transaction.t)
  : list Transaction.t :=
  filter (fun tx => Format_January (Transaction.Date tx) = monthName) txs.

(** The amount of a transaction as a rational number, and the part of it
    that counts as a credit and as a debit. *)
Definition amountQ (tx : Transaction.t) : Q := toQ (Transaction.Amount tx).
Definition creditPart (tx : Transaction.t) : Q :=
  if IsCredit tx then amountQ tx else 0%Q.
Definition debitPart (tx : Transaction.t) : Q :=
  if IsDebit tx then amountQ tx else 0%Q.

(** The number of transactions of [g] for which [p] holds. *)
Definition countIf (p : Transaction.t -> bool) (g : list Transaction.t) : Z :=
  Z.of_nat (length (List.filter p g)).

(** The sum of [F] over the values of a map. *)
Definition sumMapQ {A : Type} (F : A -> Q) (m : gmap string A) : Q :=
  sumQ (map (fun e => F (snd e)) (map_to_list m)).

(** The sum of a decimal field over all monthly summaries. *)
Definition sumOverMonths (F : MonthlySummary.t -> Decimal)
    (ms : gmap string MonthlySummary.t) : Q :=
  sumMapQ (fun m => toQ (F m)) ms.

(** [q] is the quotient of [total] by [count] to 16 digits after the
    decimal point: a multiple of 10^-16 that lies no further than half of
    10^-16 from the quotient. *)
Definition quotientTo16 (total : Decimal) (count : Z) (q : Decimal) : Prop :=
  exp q = -16 /\
  (Qabs (toQ q - toQ total / inject_Z count) <= (1 # 2) * (10 # 1) ^ (-16))%Q.

(** An average is guarded: when the count is positive, what [Div] returns
    for total and count, which is their quotient to 16 digits after the
    decimal point; when the count is 0, the zero value. *)
Definition guardedAverage (total : Decimal) (count : Z) (average : Decimal) : Prop :=
  (0 < count /\ Div total (NewFromInt count) = Some average /\
   quotientTo16 total count average) \/
  (count = 0 /\ average = zeroValue).

(** The text the report has for an overall average: with a positive count,
    the label, the quotient of total and count (to 16 digits after the
    decimal point) printed with 2 decimals, and the [ending]; with a count
    of 0, nothing. *)
Definition averageLine (label : string) (total : Decimal) (count : Z)
    (ending : string) (line : string) : Prop :=
  (0 < count /\
   exists average, Div total (NewFromInt count) = Some average /\
                   quotientTo16 total count average /\
                   line = label ++ StringFixed average 2 ++ ending) \/
  (count = 0 /\ line = "").

(** A decimal field added up over all monthly summaries as the formatter
    adds, starting from [Zero]. *)
Definition totalOverMonths (F : MonthlySummary.t -> Decimal)
    (ms : gmap string MonthlySummary.t) : Decimal :=
  fold_left Add (map (fun e => F (snd e)) (map_to_list ms)) Zero.

(** The four rows of the example of the specification. *)
Definition exampleRows : list rawRecord :=
  [ Fields ["1"; "7/15"; "+60.5"]; Fields ["2"; "7/28"; "-10.3"];
    Fields ["3"; "8/2"; "-20.46"]; Fields ["4"; "8/13"; "+10"] ].

(** A transaction with the given date, amount and kind. *)
Definition sampleTx (date : Time) (amount : Decimal) (kind : TransactionType)
  : Transaction.t :=
  Transaction.mk 0%nat "acc" date amount kind "Transaction" date date.

Definition sampleClock : Clock := mkClock 2023 (mkTime 2023 July 1 12 0 0 0 UTC).

(** Two transactions of July, of the years 2023 and 2024, and one of
    August. *)
Definition twoJulys : list Transaction.t :=
  [ sampleTx (mkTime 2023 July 15 0 0 0 0 UTC) (mkDecimal 605 (-1)) Credit;
    sampleTx (mkTime 2023 August 2 0 0 0 0 UTC) (mkDecimal (-2046) (-2)) Debit;
    sampleTx (mkTime 2024 July 28 0 0 0 0 UTC) (mkDecimal (-103) (-1)) Debit ].



(** [strings.Split(s, "\n")]: the lines of a text. *)
Fixpoint lines (s : string) : list string :=
  match s with
  | EmptyString => [EmptyString]
  | String c r =>
      if code c =? 10 then EmptyString :: lines r
      else match lines r with
           | l :: ls => String c l :: ls
           | [] => [String c EmptyString]
           end
  end.

(** The report on the four rows of the example, with the lines of the two
    months in the given order. *)
Definition exampleReport (first second : string) : string :=
  "Total balance is 39.74" ++ newline
  ++ "Number of transactions in " ++ first ++ ": 2" ++ newline
  ++ "Number of transactions in " ++ second ++ ": 2" ++ newline
  ++ "Average debit amount: -15.38" ++ newline
  ++ "Average credit amount: 35.25".

(** The exponent of an amount is an [int32]. *)
Definition wellFormed (tx : Transaction.t) : Prop :=
  MinInt32 <= exp (Transaction.Amount tx) <= MaxInt32.

(** The rows the ingestion driver hands to the record parser: all rows,
    but for a first row that is skipped as a header. *)
Definition dataRows (stream : list rawRecord) : list rawRecord :=
  match stream with
  | raw :: rest => if skippedAsHeader 0 raw then rest else stream
  | [] => []
  end.

(** The record parser turns the row [raw] into [tx] when [n] identifiers
    have been generated before. *)
Definition parsesTo (clock : Clock) (accountID : string) (n : nat)
    (raw : rawRecord) (tx : Transaction.t) : Prop :=
  exists record,
    raw = Fields record /\
    parseTransaction clock record accountID n = (inr tx, S n).

(** A time that shows a day of the calendar, at midnight, in UTC. *)
Definition calendarDay (t : Time) : Prop :=
  1 <= tDay t <= daysIn (tMonth t) (tYear t).

Definition midnightUTC (t : Time) : Prop :=
  tHour t = 0 /\ tMinute t = 0 /\ tSecond t = 0 /\ tNanosecond t = 0 /\
  tLocation t = UTC.

(** A transaction that counts neither as a credit nor as a debit, and the
    part of its amount that is in neither total. *)
Definition isOther (tx : Transaction.t) : bool :=
  negb (IsCredit tx) && negb (IsDebit tx).
Definition otherPart (tx : Transaction.t) : Q :=
  if isOther tx then amountQ tx else 0%Q.

(** The sum of an integer field over the values of a map. *)
Definition sumMapZ {A : Type} (F : A -> Z) (m : gmap string A) : Z :=
  fold_right Z.add 0 (map (fun e => F (snd e)) (map_to_list m)).

(** No byte of [s] has the code [b]. *)
Fixpoint noByte (b : Z) (s : string) : bool :=
  match s with
  | EmptyString => true
  | String c r => negb (code c =? b) && noByte b r
  end.

(** The directory part of a path: nothing, or text that ends with the
    separator. *)
Definition directoryPart (d : string) : Prop :=
  d = "" \/ exists d', d = d' ++ "/".

(** The account a file name stands for. *)
Definition accountOfName (name : string) : string :=
  if String.eqb name "" || String.eqb name "transactions"
  then "default-account" else name.

(** ** Facts about decimals *)

Section decimal_facts.
Local Open Scope Q_scope.

Lemma pow10_pos (e : Z) : 0 < (10 # 1) ^ e.
Proof. apply Qpower_0_lt. reflexivity. Qed.

Lemma pow10_scale (v e k : Z) :
  (0 <= k)%Z ->
  inject_Z (v * 10 ^ k) * (10 # 1) ^ e == inject_Z v * (10 # 1) ^ (e + k).
Proof.
  intros Hk.
  rewrite inject_Z_mult, (Zpower_Qpower 10 k Hk).
  rewrite Qpower_plus by discriminate.
  change (inject_Z 10) with (10 # 1). ring.
Qed.

Lemma toQ_rescale (d : Decimal) (e : Z) :
  (e <= exp d)%Z -> toQ (rescale d e) == toQ d.
Proof.
  intros He. unfold rescale.
  destruct (Z.eqb_spec (exp d) e) as [_|Hne]; [reflexivity|].
  destruct (Z.gtb_spec e (exp d)) as [Hgt|_]; [lia|].
  unfold toQ; cbn [value exp].
  rewrite pow10_scale by lia.
  replace (e + Z.abs (e - exp d))%Z with (exp d) by lia.
  reflexivity.
Qed.

Lemma RescalePair_spec (a b : Decimal) :
  exp (fst (RescalePair a b)) = Z.min (exp a) (exp b) /\
  exp (snd (RescalePair a b)) = Z.min (exp a) (exp b) /\
  toQ (fst (RescalePair a b)) == toQ a /\
  toQ (snd (RescalePair a b)) == toQ b.
Proof.
  unfold RescalePair.
  destruct (Z.ltb_spec (exp a) (exp b)) as [Hlt|Hge].
  - cbn [fst snd]. repeat split; try reflexivity; try lia.
    + unfold rescale. destruct (Z.eqb_spec (exp b) (exp a)); [lia|].
      destruct (Z.gtb_spec (exp a) (exp b)); cbn [exp]; lia.
    + apply toQ_rescale; lia.
  - destruct (Z.gtb_spec (exp a) (exp b)) as [Hgt|Hle]; cbn [fst snd].
    + repeat split; try reflexivity; try lia.
      * unfold rescale. destruct (Z.eqb_spec (exp a) (exp b)); [lia|].
        destruct (Z.gtb_spec (exp b) (exp a)); cbn [exp]; lia.
      * apply toQ_rescale; lia.
    + repeat split; try reflexivity; lia.
Qed.

Lemma toQ_Add (a b : Decimal) : toQ (Add a b) == toQ a + toQ b.
Proof.
  unfold Add.
  destruct (RescalePair_spec a b) as (Ha & Hb & Qa & Qb).
  destruct (RescalePair a b) as [rd rd2]; cbn [fst snd] in *.
  rewrite <- Qa, <- Qb. unfold toQ; cbn [value exp].
  rewrite inject_Z_plus, Ha, Hb. ring.
Qed.

Lemma exp_Add (a b : Decimal) : exp (Add a b) = Z.min (exp a) (exp b).
Proof.
  unfold Add.
  destruct (RescalePair_spec a b) as (Ha & _).
  destruct (RescalePair a b) as [rd rd2]; cbn [fst snd] in *. exact Ha.
Qed.

Lemma toQ_Neg (a : Decimal) : toQ (Neg a) == - toQ a.
Proof.
  unfold toQ, Neg; cbn [value exp]. rewrite inject_Z_opp. ring.
Qed.

Lemma toQ_sign_nonneg (a : Decimal) : (0 <= value a)%Z <-> 0 <= toQ a.
Proof.
  unfold toQ. pose proof (pow10_pos (exp a)) as Hp.
  rewrite (Zle_Qle 0 (value a)). change (inject_Z 0) with 0.
  rewrite <- (Qmult_le_r _ _ _ Hp), Qmult_0_l. reflexivity.
Qed.

Lemma toQ_sign_nonpos (a : Decimal) : (value a <= 0)%Z <-> toQ a <= 0.
Proof.
  unfold toQ. pose proof (pow10_pos (exp a)) as Hp.
  rewrite (Zle_Qle (value a) 0). change (inject_Z 0) with 0.
  rewrite <- (Qmult_le_r _ _ _ Hp), Qmult_0_l. reflexivity.
Qed.

Lemma toQ_Abs (a : Decimal) : toQ (Abs a) == Qabs (toQ a).
Proof.
  unfold Abs, IsNegative.
  destruct (Z.ltb_spec (value a) 0) as [Hneg|Hpos].
  - rewrite Qabs_neg by (apply toQ_sign_nonpos; lia).
    rewrite <- toQ_Neg. unfold toQ, Neg; cbn [value exp].
    replace (Z.abs (value a)) with (- value a)%Z by lia. reflexivity.
  - rewrite Qabs_pos by (apply toQ_sign_nonneg; lia). reflexivity.
Qed.

Lemma Cmp_spec (a b : Decimal) : Cmp a b = (toQ a ?= toQ b).
Proof.
  assert (Hcmp : Cmp a b =
                 (value (fst (RescalePair a b)) ?= value (snd (RescalePair a b)))%Z).
  { unfold Cmp. destruct (Z.eqb_spec (exp a) (exp b)) as [He|He].
    - unfold RescalePair. rewrite He, Z.ltb_irrefl.
      destruct (Z.gtb_spec (exp b) (exp b)); [lia|]. reflexivity.
    - destruct (RescalePair a b); reflexivity. }
  rewrite Hcmp.
  destruct (RescalePair_spec a b) as (Ha & Hb & Qa & Qb).
  rewrite <- Qa, <- Qb. unfold toQ. rewrite Ha, Hb.
  set (x := value (fst (RescalePair a b))).
  set (y := value (snd (RescalePair a b))).
  pose proof (pow10_pos (Z.min (exp a) (exp b))) as Hp.
  symmetry.
  destruct (Z.compare_spec x y) as [Heq|Hlt|Hgt].
  - apply Qeq_alt. rewrite Heq. reflexivity.
  - apply Qlt_alt. apply Qmult_lt_compat_r; [exact Hp|].
    rewrite <- Zlt_Qlt. exact Hlt.
  - apply Qgt_alt. apply Qmult_lt_compat_r; [exact Hp|].
    rewrite <- Zlt_Qlt. exact Hgt.
Qed.

Lemma GreaterThan_spec (a b : Decimal) :
  GreaterThan a b = true <-> toQ b < toQ a.
Proof.
  unfold GreaterThan. rewrite Cmp_spec.
  destruct (Qcompare_spec (toQ a) (toQ b)) as [H|H|H]; split; intros H'; try discriminate; try reflexivity.
  - rewrite H in H'. exfalso. exact (Qlt_irrefl _ H').
  - exfalso. exact (Qlt_irrefl _ (Qlt_trans _ _ _ H H')).
  - exact H.
Qed.

Lemma Equal_spec (a b : Decimal) : Equal a b = true <-> toQ a == toQ b.
Proof.
  unfold Equal. rewrite Cmp_spec, Qeq_alt.
  destruct (toQ a ?= toQ b); split; intros H; congruence.
Qed.

End decimal_facts.

(** ** The decimal point *)

Section decimal_point.

Lemma pointIndex_found (s : string) :
  forall i q r, pointIndex s i (Some q) = inr r -> r = Some q.
Proof.
  induction s as [|c s IH]; intros i q r; cbn [pointIndex].
  - intros [= <-]. reflexivity.
  - destruct (code c =? 46); [discriminate|]. apply IH.
Qed.

Lemma pointIndex_from (s : string) :
  forall i p, pointIndex s i None = inr (Some p) -> (i <= p)%nat.
Proof.
  induction s as [|c s IH]; intros i p; cbn [pointIndex].
  - discriminate.
  - destruct (code c =? 46).
    + intros H. apply pointIndex_found in H. injection H as <-. lia.
    + intros H. apply IH in H. lia.
Qed.

Lemma pointIndex_first (s : string) :
  pointIndex s 0 None = inr (Some 0%nat) ->
  exists r, s = String "." r.
Proof.
  destruct s as [|c s]; cbn [pointIndex]; [discriminate|].
  destruct (code c =? 46) eqn:E.
  - intros _. exists s. f_equal.
    apply Z.eqb_eq in E. unfold code in E.
    rewrite <- (ascii_nat_embedding c).
    replace (nat_of_ascii c) with 46%nat by lia. reflexivity.
  - intros H. apply pointIndex_from in H. lia.
Qed.

Lemma digits_all (s : string) :
  forall acc v, strconv.digits s acc = Some v -> countDigits s = len s.
Proof.
  induction s as [|c s IH]; intros acc v; cbn [strconv.digits countDigits].
  - reflexivity.
  - destruct (strconv.isDigit c) eqn:E; [|discriminate].
    intros H. rewrite (IH _ _ H).
    unfold strconv.isDigit in E. apply andb_true_iff in E as [E1 E2].
    apply Z.leb_le in E1, E2.
    destruct (Z.eqb_spec (code c) 69); [lia|].
    destruct (Z.eqb_spec (code c) 101); [lia|].
    cbn [orb]. unfold len. cbn [String.length]. lia.
Qed.

Lemma digits_app (a b : string) :
  forall acc v, strconv.digits (a ++ b) acc = Some v ->
                exists w, strconv.digits b w = Some v.
Proof.
  induction a as [|c a IH]; intros acc v.
  - intros H. exists acc. exact H.
  - change (String c a ++ b) with (String c (a ++ b)). cbn [strconv.digits].
    destruct (strconv.isDigit c); [|discriminate]. apply IH.
Qed.

(** In a string without exponent part that [NewFromString] accepts, the
    bytes after the decimal point are digits, but for a sign that follows
    a leading point. *)
Lemma NewFromString_plain_digits (val : string) (d : Decimal) :
  NewFromString val = Some d ->
  IndexAny_Ee val = None ->
  bytesAfterPoint val = digitsAfterPoint val \/
  ((HasPrefix val ".+" = true \/ HasPrefix val ".-" = true) /\
   bytesAfterPoint val = digitsAfterPoint val + 1).
Proof.
  unfold NewFromString, NewFromString_mantissa, bytesAfterPoint, digitsAfterPoint.
  intros H Hnone. rewrite Hnone in H.
  destruct (pointIndex val 0 None) as [|[p|]] eqn:Hp; [discriminate| |left; reflexivity].
  destruct (strconv.signedDigits (take p val ++ drop (S p) val)) as [v|] eqn:Hs;
    [|discriminate].
  clear H. unfold strconv.signedDigits in Hs.
  destruct p as [|p].
  - destruct (pointIndex_first val Hp) as [r ->].
    cbn [take drop] in *. change ("" ++ r) with r in Hs.
    destruct r as [|c r]; [discriminate|].
    destruct ((code c =? 43) || (code c =? 45)) eqn:Esign.
    + right. destruct r as [|c' r']; [discriminate|].
      destruct (strconv.digits (String c' r') 0) as [w|] eqn:Hd; [|discriminate].
      split.
      * unfold HasPrefix. apply orb_true_iff in Esign.
        destruct Esign as [E|E]; apply Z.eqb_eq in E; unfold code in E;
          rewrite <- (ascii_nat_embedding c);
          [replace (nat_of_ascii c) with 43%nat by lia; left
          |replace (nat_of_ascii c) with 45%nat by lia; right];
          unfold String.prefix; vm_compute; reflexivity.
      * set (rr := String c' r') in *.
        cbn [countDigits]. rewrite (digits_all _ _ _ Hd).
        assert (Hnd : strconv.isDigit c = false).
        { unfold strconv.isDigit. apply orb_true_iff in Esign.
          destruct Esign as [E|E]; apply Z.eqb_eq in E; rewrite E; reflexivity. }
        rewrite Hnd.
        assert (HnE : (code c =? 69) || (code c =? 101) = false).
        { apply orb_true_iff in Esign.
          destruct Esign as [E|E]; apply Z.eqb_eq in E; rewrite E; reflexivity. }
        rewrite HnE. unfold len. cbn [String.length]. lia.
    + left. destruct (strconv.digits (String c r) 0) as [w|] eqn:Hd; [|discriminate].
      symmetry. exact (digits_all _ _ _ Hd).
  - left. destruct val as [|c0 val0]; [discriminate|].
    set (after := drop (S (S p)) (String c0 val0)) in *.
    change (take (S p) (String c0 val0)) with (String c0 (take p val0)) in Hs.
    set (before := take p val0) in *.
    change (String c0 before ++ after) with (String c0 (before ++ after)) in Hs.
    cbv beta iota zeta in Hs.
    assert (Hd : exists acc w, strconv.digits after acc = Some w).
    { destruct ((code c0 =? 43) || (code c0 =? 45)).
      - destruct (strconv.digits (before ++ after) 0) as [w|] eqn:Hw.
        + destruct (digits_app _ _ _ _ Hw) as [acc Hacc]. exists acc, w. exact Hacc.
        + destruct (before ++ after); discriminate.
      - destruct (strconv.digits (String c0 (before ++ after)) 0) as [w|] eqn:Hw;
          [|discriminate].
        change (String c0 (before ++ after)) with (String c0 before ++ after) in Hw.
        destruct (digits_app _ _ _ _ Hw) as [acc Hacc]. exists acc, w. exact Hacc. }
    destruct Hd as (acc & w & Hd). symmetry. exact (digits_all _ _ _ Hd).
Qed.

End decimal_point.

(** ** The amount parser *)

Section amount_parser.
Local Open Scope Q_scope.

Lemma parseAmount_eq (s : string) :
  parseAmount s =
  if String.eqb (TrimSpace s) "" then inl ErrAmountEmpty
  else
    match NewFromString (numericRemainder s) with
    | None => inl (ErrInvalidNumeric (numericRemainder s))
    | Some d =>
        let amount := if String.eqb (kindOfSign s) Debit then Neg (Abs d) else Abs d in
        if GreaterThan (Abs amount) NewFromFloat_1000000
        then inl (ErrExceedsMaximum (TrimSpace s))
        else if (Exponent amount <? -2)%Z then inl (ErrTooManyDecimals (TrimSpace s))
        else inr (amount, kindOfSign s)
    end.
Proof.
  unfold parseAmount, numericRemainder, kindOfSign.
  destruct (String.eqb (TrimSpace s) ""); [reflexivity|].
  destruct (HasPrefix (TrimSpace s) "+"); [reflexivity|].
  destruct (HasPrefix (TrimSpace s) "-"); reflexivity.
Qed.

Lemma kindOfSign_cases (s : string) :
  (kindOfSign s = Debit /\ HasPrefix (TrimSpace s) "-" = true) \/
  (kindOfSign s = Credit /\ HasPrefix (TrimSpace s) "-" = false).
Proof.
  unfold kindOfSign, HasPrefix.
  destruct (TrimSpace s) as [|c r]; [right; split; reflexivity|].
  cbn [String.prefix].
  destruct (ascii_dec "+" c) as [Hp|Hp].
  - destruct (ascii_dec "-" c) as [Hm|Hm]; [congruence|].
    destruct r; right; split; reflexivity.
  - destruct (ascii_dec "-" c) as [Hm|Hm].
    + destruct r; left; split; reflexivity.
    + right; split; reflexivity.
Qed.

Lemma Credit_neq_Debit : Credit <> Debit.
Proof. discriminate. Qed.

Lemma toQ_max : toQ NewFromFloat_1000000 == 1000000.
Proof. reflexivity. Qed.

Lemma normalized_abs (s : string) (d : Decimal) :
  toQ (Abs (if String.eqb (kindOfSign s) Debit then Neg (Abs d) else Abs d))
  == Qabs (toQ d).
Proof.
  destruct (String.eqb (kindOfSign s) Debit).
  - rewrite toQ_Abs, toQ_Neg, toQ_Abs, Qabs_opp.
    apply Qabs_pos, Qabs_nonneg.
  - rewrite !toQ_Abs. apply Qabs_pos, Qabs_nonneg.
Qed.

Lemma NewFromString_plain_exp (val : string) (d : Decimal) :
  NewFromString val = Some d ->
  IndexAny_Ee val = None ->
  exp d = (- bytesAfterPoint val)%Z.
Proof.
  unfold NewFromString, NewFromString_mantissa, bytesAfterPoint.
  intros H Hnone. rewrite Hnone in H.
  destruct (pointIndex val 0 None) as [|[p|]]; [discriminate| |].
  - destruct (strconv.signedDigits _); [|discriminate].
    destruct (_ || _); [discriminate|]. injection H as <-. apply Z.add_0_l.
  - destruct (strconv.signedDigits _); [|discriminate].
    destruct (_ || _); [discriminate|]. injection H as <-. reflexivity.
Qed.

(** What a successful [parseAmount] has computed. *)
Lemma parseAmount_inr (s : string) (amount : Decimal) (kind : TransactionType) :
  parseAmount s = inr (amount, kind) ->
  exists d,
    NewFromString (numericRemainder s) = Some d /\
    kind = kindOfSign s /\
    amount = (if String.eqb kind Debit then Neg (Abs d) else Abs d) /\
    Qabs (toQ d) <= 1000000 /\ (-2 <= exp amount)%Z.
Proof.
  rewrite parseAmount_eq.
  destruct (String.eqb (TrimSpace s) ""); [discriminate|].
  destruct (NewFromString (numericRemainder s)) as [d|]; [|discriminate].
  cbv zeta.
  destruct (GreaterThan _ _) eqn:Hgt; [discriminate|].
  destruct (Z.ltb_spec (Exponent (if String.eqb (kindOfSign s) Debit
                                  then Neg (Abs d) else Abs d)) (-2)) as [|Hexp];
    [discriminate|].
  intros [= <- <-]. exists d. repeat split; try assumption.
  apply Qnot_lt_le. intros Hlt.
  apply Bool.not_true_iff_false in Hgt. apply Hgt.
  apply GreaterThan_spec. rewrite normalized_abs, toQ_max. exact Hlt.
Qed.

Lemma parseAmount_signAgrees (s : string) (amount : Decimal) (kind : TransactionType) :
  parseAmount s = inr (amount, kind) -> signAgrees amount kind.
Proof.
  intros H. destruct (parseAmount_inr _ _ _ H) as (d & _ & Hk & Ha & _).
  unfold signAgrees. subst amount.
  destruct (kindOfSign_cases s) as [[Hd _]|[Hc _]]; rewrite <- Hk in *.
  - right. split; [assumption|]. rewrite Hd, String.eqb_refl.
    rewrite toQ_Neg, toQ_Abs.
    change 0 with (- 0). apply Qopp_le_compat, Qabs_nonneg.
  - left. split; [assumption|]. rewrite Hc.
    change (String.eqb Credit Debit) with false.
    rewrite toQ_Abs. apply Qabs_nonneg.
Qed.

Lemma signAgrees_strict (amount : Decimal) (kind : TransactionType) :
  signAgrees amount kind ->
  (toQ amount < 0 -> kind = Debit) /\ (0 < toQ amount -> kind = Credit).
Proof.
  intros [[Hk Hs]|[Hk Hs]]; split; intros Hlt; try assumption; exfalso.
  - exact (Qlt_irrefl _ (Qlt_le_trans _ _ _ Hlt Hs)).
  - exact (Qlt_irrefl _ (Qlt_le_trans _ _ _ Hlt Hs)).
Qed.

Lemma parseTransaction_amount (clock : Clock) (record : list string)
    (accountID : string) (ids ids' : nat) (tx : Transaction.t) :
  parseTransaction clock record accountID ids = (inr tx, ids') ->
  exists f0 f1 f2,
    record = [f0; f1; f2] /\
    parseAmount (TrimSpace f2) = inr (Transaction.Amount tx, Transaction.Type_ tx).
Proof.
  unfold parseTransaction.
  destruct record as [|f0 [|f1 [|f2 [|? ?]]]]; try discriminate.
  destruct (String.eqb (TrimSpace f0) ""); [discriminate|].
  destruct (parseDate clock (TrimSpace f1)); [discriminate|].
  destruct (parseAmount (TrimSpace f2)) as [|[amount kind]] eqn:Hp; [discriminate|].
  intros [= <- _]. exists f0, f1, f2. split; [reflexivity | exact Hp].
Qed.

Lemma readLoop_Forall (P : Transaction.t -> Prop) (clock : Clock) (accountID : string) :
  (forall record ids tx ids',
      parseTransaction clock record accountID ids = (inr tx, ids') -> P tx) ->
  forall stream lineNumber ids acc txs,
    Forall P acc ->
    readLoop clock stream accountID lineNumber ids acc = inr txs ->
    Forall P txs.
Proof.
  intros HP stream. induction stream as [|raw rest IH]; intros lineNumber ids acc txs Hacc.
  - cbn. destruct (Z.of_nat (length acc) =? 0)%Z; [discriminate|].
    intros [= <-]. exact Hacc.
  - cbn [readLoop]. destruct (Read 3 raw) as [|record]; [discriminate|].
    destruct ((lineNumber + 1 =? 1)%Z && isHeaderRow record).
    + apply IH. exact Hacc.
    + destruct (parseTransaction clock record accountID ids) as [[err|tx] ids'] eqn:Hp;
        [discriminate|].
      apply IH. apply Forall_app. split; [exact Hacc|].
      constructor; [|constructor]. exact (HP _ _ _ _ Hp).
Qed.

(** C1, as amended.  For every input string accepted by the amount parser,
    the returned pair (amount, kind) satisfies: the kind is Debit exactly
    when the trimmed input starts with ['-'] and Credit otherwise; a
    Credit is never negative and a Debit never positive, so a negative
    amount is a Debit and a positive one a Credit; a zero written with a
    leading ['-'] is a Debit of amount 0.  The magnitude is the one of the
    numeric remainder, whatever sign is embedded in it.  The agreement of
    sign and kind holds for every transaction of the record parser and of
    the ingestion driver. *)
Theorem parseAmount_kind_follows_sign_character :
  (forall s amount kind,
      parseAmount s = inr (amount, kind) ->
      (kind = Debit <-> HasPrefix (TrimSpace s) "-" = true) /\
      (kind = Credit <-> HasPrefix (TrimSpace s) "-" = false) /\
      (kind = Credit -> 0 <= toQ amount) /\
      (kind = Debit -> toQ amount <= 0) /\
      (toQ amount < 0 -> kind = Debit) /\
      (0 < toQ amount -> kind = Credit) /\
      (exists d, NewFromString (numericRemainder s) = Some d /\
                 Qabs (toQ amount) == Qabs (toQ d))) /\
  (forall clock record accountID ids tx ids',
      parseTransaction clock record accountID ids = (inr tx, ids') ->
      signAgrees (Transaction.Amount tx) (Transaction.Type_ tx)) /\
  (forall clock stream accountID ids txs,
      ReadTransactions clock stream accountID ids = inr txs ->
      Forall (fun tx => signAgrees (Transaction.Amount tx) (Transaction.Type_ tx)) txs).
Proof.
  split; [|split].
  - intros s amount kind H.
    pose proof (parseAmount_signAgrees _ _ _ H) as Hs.
    destruct (signAgrees_strict _ _ Hs) as [Hneg Hpos].
    destruct (parseAmount_inr _ _ _ H) as (d & Hd & Hk & Ha & _).
    assert (Hdebit : kind = Debit <-> HasPrefix (TrimSpace s) "-" = true).
    { destruct (kindOfSign_cases s) as [[Hk' Hp]|[Hk' Hp]]; rewrite <- Hk in Hk';
        rewrite Hp, Hk'; split; intros; try reflexivity; try discriminate. }
    assert (Hcredit : kind = Credit <-> HasPrefix (TrimSpace s) "-" = false).
    { destruct (kindOfSign_cases s) as [[Hk' Hp]|[Hk' Hp]]; rewrite <- Hk in Hk';
        rewrite Hp, Hk'; split; intros; try reflexivity; try discriminate. }
    repeat split; try (apply Hdebit); try (apply Hcredit); try assumption.
    + intros Hc. destruct Hs as [[_ Hs]|[Hk' _]]; [exact Hs|].
      rewrite Hc in Hk'. discriminate.
    + intros Hc. destruct Hs as [[Hk' _]|[_ Hs]]; [|exact Hs].
      rewrite Hc in Hk'. discriminate.
    + exists d. split; [exact Hd|]. rewrite Ha.
      destruct (String.eqb kind Debit).
      * rewrite toQ_Neg, toQ_Abs, Qabs_opp. apply Qabs_pos, Qabs_nonneg.
      * rewrite toQ_Abs. apply Qabs_pos, Qabs_nonneg.
  - intros clock record accountID ids tx ids' H.
    destruct (parseTransaction_amount _ _ _ _ _ _ H) as (f0 & f1 & f2 & _ & Hp).
    exact (parseAmount_signAgrees _ _ _ Hp).
  - intros clock stream accountID ids txs H. unfold ReadTransactions in H.
    refine (readLoop_Forall _ clock accountID _ stream 0%Z ids [] txs ltac:(constructor) H).
    intros record ids0 tx ids' Hp.
    destruct (parseTransaction_amount _ _ _ _ _ _ Hp) as (f0 & f1 & f2 & _ & Hp').
    exact (parseAmount_signAgrees _ _ _ Hp').
Qed.

(** The amended C1 at the input ["-0.00"]: a Debit whose amount is not
    positive. *)
Lemma parseAmount_kind_follows_sign_character_witness :
  parseAmount "-0.00" = inr (mkDecimal 0 (-2), Debit) /\
  toQ (mkDecimal 0 (-2)) <= 0.
Proof.
  split; [reflexivity|].
  apply (proj1 parseAmount_kind_follows_sign_character
               "-0.00" (mkDecimal 0 (-2)) Debit eq_refl).
  reflexivity.
Defined.

(** C1 as stated fails at ["-0"]: the parser accepts it as a Debit of
    amount 0, which is not negative. *)
Lemma parseAmount_minus_zero_counterexample :
  parseAmount "-0" = inr (mkDecimal 0 0, Debit) /\
  ~ (forall s amount kind,
        parseAmount s = inr (amount, kind) ->
        (kind = Credit <-> 0 <= toQ amount) /\
        (kind = Debit <-> toQ amount < 0)).
Proof.
  split; [reflexivity|].
  intros H. destruct (H "-0" (mkDecimal 0 0) Debit eq_refl) as [_ [Hd _]].
  specialize (Hd eq_refl). vm_compute in Hd. discriminate.
Qed.

Lemma parseAmount_limits_payload (s : string) (d : Decimal) :
  NewFromString (numericRemainder s) = Some d ->
  (parseAmount s = inl (ErrExceedsMaximum (TrimSpace s))
     <-> 1000000 < Qabs (toQ d)) /\
  (parseAmount s = inl (ErrTooManyDecimals (TrimSpace s))
     <-> Qabs (toQ d) <= 1000000 /\ (exp d < -2)%Z) /\
  ((exists amount kind, parseAmount s = inr (amount, kind))
     <-> Qabs (toQ d) <= 1000000 /\ (-2 <= exp d)%Z) /\
  (forall amount kind,
      parseAmount s = inr (amount, kind) ->
      exp amount = exp d /\ Z.abs (value amount) = Z.abs (value d) /\
      Qabs (toQ amount) == Qabs (toQ d)) /\
  (IndexAny_Ee (numericRemainder s) = None ->
   exp d = (- bytesAfterPoint (numericRemainder s))%Z).
Proof.
  intros Hd.
  assert (Hne : String.eqb (TrimSpace s) "" = false).
  { destruct (String.eqb_spec (TrimSpace s) "") as [He|]; [|reflexivity].
    unfold numericRemainder in Hd. rewrite He in Hd. discriminate. }
  pose proof (parseAmount_eq s) as Heq. rewrite Hne, Hd in Heq. cbv zeta in Heq.
  set (amount := if String.eqb (kindOfSign s) Debit then Neg (Abs d) else Abs d) in *.
  assert (Hexp : exp amount = exp d).
  { unfold amount, Neg, Abs.
    destruct (String.eqb (kindOfSign s) Debit), (IsNegative d); reflexivity. }
  assert (Hval : Z.abs (value amount) = Z.abs (value d)).
  { unfold amount, Neg, Abs, IsNegative.
    destruct (String.eqb (kindOfSign s) Debit), (Z.ltb_spec (value d) 0);
      cbn [value]; lia. }
  assert (Habs : toQ (Abs amount) == Qabs (toQ d)) by apply normalized_abs.
  unfold Exponent in Heq. rewrite Hexp in Heq.
  assert (Hcase :
            (GreaterThan (Abs amount) NewFromFloat_1000000 = true
             /\ 1000000 < Qabs (toQ d)) \/
            (GreaterThan (Abs amount) NewFromFloat_1000000 = false
             /\ Qabs (toQ d) <= 1000000)).
  { destruct (GreaterThan (Abs amount) NewFromFloat_1000000) eqn:Hg.
    - left. split; [reflexivity|].
      apply GreaterThan_spec in Hg. rewrite Habs, toQ_max in Hg. exact Hg.
    - right. split; [reflexivity|]. apply Qnot_lt_le. intros Hlt.
      rewrite <- toQ_max, <- Habs in Hlt. apply GreaterThan_spec in Hlt.
      congruence. }
  destruct Hcase as [[Hg Hbig]|[Hg Hle]]; rewrite Hg in Heq.
  - assert (Hnle : ~ Qabs (toQ d) <= 1000000) by (apply Qlt_not_le; exact Hbig).
    split; [|split; [|split; [|split]]].
    + split; [intros _; exact Hbig | intros _; exact Heq].
    + split; [rewrite Heq; discriminate | intros [Hle _]; contradiction].
    + split; [intros (a & k & Hp); rewrite Heq in Hp; discriminate
             | intros [Hle _]; contradiction].
    + intros a k Hp. rewrite Heq in Hp. discriminate.
    + apply NewFromString_plain_exp. exact Hd.
  - assert (Hnlt : ~ 1000000 < Qabs (toQ d)) by (apply Qle_not_lt; exact Hle).
    destruct (Z.ltb_spec (exp d) (-2)) as [Hsmall|Hok].
    + split; [|split; [|split; [|split]]].
      * split; [rewrite Heq; discriminate | intros H; contradiction].
      * split; [intros _; split; assumption | intros _; exact Heq].
      * split; [intros (a & k & Hp); rewrite Heq in Hp; discriminate
               | intros [_ H]; lia].
      * intros a k Hp. rewrite Heq in Hp. discriminate.
      * apply NewFromString_plain_exp. exact Hd.
    + split; [|split; [|split; [|split]]].
      * split; [rewrite Heq; discriminate | intros H; contradiction].
      * split; [rewrite Heq; discriminate | intros [_ H]; lia].
      * split; [intros _; split; assumption
               | intros _; exists amount, (kindOfSign s); exact Heq].
      * intros a k Hp. rewrite Heq in Hp. injection Hp as <- _.
        split; [exact Hexp|]. split; [exact Hval|].
        rewrite <- Habs, toQ_Abs. reflexivity.
      * apply NewFromString_plain_exp. exact Hd.
Qed.

Lemma parseAmount_error_payload (s a : string) :
  parseAmount s = inl (ErrExceedsMaximum a) \/ parseAmount s = inl (ErrTooManyDecimals a) ->
  a = TrimSpace s.
Proof.
  rewrite parseAmount_eq.
  destruct (String.eqb (TrimSpace s) ""); [intros [H|H]; discriminate|].
  destruct (NewFromString (numericRemainder s)); [|intros [H|H]; discriminate].
  cbv zeta. destruct (GreaterThan _ _).
  - intros [H|H]; [injection H as <-; reflexivity | discriminate].
  - destruct (_ <? _)%Z; intros [H|H]; try discriminate.
    injection H as <-. reflexivity.
Qed.

(** C5, as amended.  For every input whose numeric remainder parses to a
    decimal [d]: the parser fails with "amount exceeds maximum limit"
    exactly when the magnitude of [d] exceeds 1,000,000; it fails with
    "amount has too many decimal places" exactly when the magnitude does
    not exceed 1,000,000 and the exponent of [d] is below -2; otherwise it
    accepts, and the accepted value has the digits and the exponent of
    [d], nothing rounded or truncated.  For a remainder without exponent
    part the exponent of [d] is minus the number of bytes written after
    the decimal point, so that the second failure is that of more than 2
    bytes after the point; these bytes are all digits, unless the
    remainder starts with the point followed by a sign, which then is the
    one byte after the point that is not a digit. *)
Theorem parseAmount_limits (s : string) (d : Decimal) :
  NewFromString (numericRemainder s) = Some d ->
  ((exists a, parseAmount s = inl (ErrExceedsMaximum a))
     <-> 1000000 < Qabs (toQ d)) /\
  ((exists a, parseAmount s = inl (ErrTooManyDecimals a))
     <-> Qabs (toQ d) <= 1000000 /\ (exp d < -2)%Z) /\
  ((exists amount kind, parseAmount s = inr (amount, kind))
     <-> Qabs (toQ d) <= 1000000 /\ (-2 <= exp d)%Z) /\
  (forall amount kind,
      parseAmount s = inr (amount, kind) ->
      exp amount = exp d /\ Z.abs (value amount) = Z.abs (value d) /\
      Qabs (toQ amount) == Qabs (toQ d)) /\
  (IndexAny_Ee (numericRemainder s) = None ->
   exp d = (- bytesAfterPoint (numericRemainder s))%Z /\
   ((exists a, parseAmount s = inl (ErrTooManyDecimals a))
      <-> Qabs (toQ d) <= 1000000 /\ (2 < bytesAfterPoint (numericRemainder s))%Z) /\
   (bytesAfterPoint (numericRemainder s) = digitsAfterPoint (numericRemainder s) \/
    ((HasPrefix (numericRemainder s) ".+" = true \/
      HasPrefix (numericRemainder s) ".-" = true) /\
     bytesAfterPoint (numericRemainder s)
     = (digitsAfterPoint (numericRemainder s) + 1)%Z))).
Proof.
  intros Hd.
  destruct (parseAmount_limits_payload s d Hd) as (H1 & H2 & H3 & H4 & H5).
  assert (H2' : (exists a, parseAmount s = inl (ErrTooManyDecimals a))
                <-> Qabs (toQ d) <= 1000000 /\ (exp d < -2)%Z).
  { rewrite <- H2. split.
    + intros [a Ha]. rewrite <- (parseAmount_error_payload s a (or_intror Ha)). exact Ha.
    + intros H. eexists. exact H. }
  split; [|split; [exact H2'|split; [exact H3|split; [exact H4|]]]].
  - rewrite <- H1. split.
    + intros [a Ha]. rewrite <- (parseAmount_error_payload s a (or_introl Ha)). exact Ha.
    + intros H. eexists. exact H.
  - intros Hnone. specialize (H5 Hnone).
    split; [exact H5|]. split.
    + rewrite H2', H5. split; intros [Hm He]; (split; [exact Hm | lia]).
    + exact (NewFromString_plain_digits _ _ Hd Hnone).
Qed.

(** The amended C5 at ["100.123"]: within range, exponent -3, refused for
    its decimal places. *)
Lemma parseAmount_limits_witness :
  NewFromString (numericRemainder "100.123") = Some (mkDecimal 100123 (-3)) /\
  parseAmount "100.123" = inl (ErrTooManyDecimals "100.123").
Proof.
  split; [reflexivity|].
  destruct (parseAmount_limits "100.123" (mkDecimal 100123 (-3)) eq_refl)
    as (_ & [_ H] & _).
  destruct H as [a Ha]; [split; [vm_compute; discriminate | reflexivity]|].
  rewrite Ha. f_equal. f_equal.
  exact (parseAmount_error_payload "100.123" a (or_intror Ha)).
Defined.

(** C5 as stated fails.  At ["2000000.123"] three digits follow the
    decimal point, and the parser fails with "amount exceeds maximum
    limit", not with "amount has too many decimal places": the magnitude
    is checked first.  At ["1e-3"] no digit follows a decimal point, and
    the parser fails with "amount has too many decimal places"; at
    ["100.123e1"] three digits follow the point, and the parser accepts
    1001.23: the check is on the exponent of the decimal.  At [".-55"] two
    digits follow the point, and the parser fails with "amount has too
    many decimal places": the sign is a byte after the point. *)
Lemma parseAmount_precision_counterexample :
  digitsAfterPoint (numericRemainder "2000000.123") = 3%Z /\
  parseAmount "2000000.123" = inl (ErrExceedsMaximum "2000000.123") /\
  digitsAfterPoint (numericRemainder "1e-3") = 0%Z /\
  parseAmount "1e-3" = inl (ErrTooManyDecimals "1e-3") /\
  digitsAfterPoint (numericRemainder "100.123e1") = 3%Z /\
  parseAmount "100.123e1" = inr (mkDecimal 100123 (-2), Credit) /\
  digitsAfterPoint (numericRemainder ".-55") = 2%Z /\
  parseAmount ".-55" = inl (ErrTooManyDecimals ".-55") /\
  ~ (forall s d,
        NewFromString (numericRemainder s) = Some d ->
        ((exists a, parseAmount s = inl (ErrTooManyDecimals a))
         <-> (2 < digitsAfterPoint (numericRemainder s))%Z)).
Proof.
  repeat (split; [reflexivity|]).
  intros H.
  destruct (H "2000000.123" (mkDecimal 2000000123 (-3)) eq_refl) as [_ Hback].
  destruct Hback as [a Ha]; [reflexivity|]. discriminate Ha.
Qed.

(** The examples of the specification. *)
Example parseAmount_examples :
  parseAmount "1000000.01" = inl (ErrExceedsMaximum "1000000.01") /\
  parseAmount "1000000" = inr (mkDecimal 1000000 0, Credit) /\
  parseAmount "100.123" = inl (ErrTooManyDecimals "100.123") /\
  parseAmount "+60.5" = inr (mkDecimal 605 (-1), Credit) /\
  parseAmount "-10.3" = inr (mkDecimal (-103) (-1), Debit) /\
  parseAmount "100" = inr (mkDecimal 100 0, Credit) /\
  parseAmount "  +50.25  " = inr (mkDecimal 5025 (-2), Credit) /\
  parseAmount "--5" = inr (mkDecimal (-5) 0, Debit) /\
  parseAmount "+-5" = inr (mkDecimal 5 0, Credit).
Proof. repeat split. Qed.

End amount_parser.

(** ** Header detection *)

Section header_detection.

Lemma isHeaderRow_date_column (f0 f2 : string) :
  isHeaderRow [f0; "date"; f2] = true.
Proof.
  unfold isHeaderRow.
  destruct (String.eqb (ToLower (TrimSpace f0)) "id"
            || String.eqb (ToLower (TrimSpace f0)) "transaction_id");
    reflexivity.
Qed.

(** C2, evaluated on the code.  The row [("123", "date", "5")] has three
    fields and a first field that [strconv.Atoi] reads as the integer 123,
    and [isHeaderRow] classifies it as a header: the keyword test on the
    second column returns before the integer test is reached, and the
    integer test returns [false] where the function would return [false]
    anyway.  As the first row of a stream it is skipped by the ingestion
    driver. *)
Theorem isHeaderRow_integer_id_with_keyword :
  strconv.Atoi (TrimSpace "123") = Some 123 /\
  isHeaderRow ["123"; "date"; "5"] = true /\
  (forall clock accountID ids,
      exists tx,
        ReadTransactions clock
          [Fields ["123"; "date"; "5"]; Fields ["1"; "7/15"; "+60.5"]] accountID ids
        = inr [tx]).
Proof.
  split; [reflexivity|]. split; [apply isHeaderRow_date_column|].
  intros clock accountID ids. unfold ReadTransactions. cbn [readLoop Read length].
  change (Z.of_nat 3 =? 3) with true. cbv iota.
  rewrite isHeaderRow_date_column. cbn [andb Z.add Z.eqb Pos.eqb].
  eexists. vm_compute. reflexivity.
Qed.

End header_detection.

(** ** The date parser *)

Section date_parser.

Lemma Month_to_of_Z (m : Z) : 1 <= m <= 12 -> Month_to_Z (Month_of_Z m) = m.
Proof.
  intros H.
  assert (Hm : m = 1 \/ m = 2 \/ m = 3 \/ m = 4 \/ m = 5 \/ m = 6 \/ m = 7 \/
               m = 8 \/ m = 9 \/ m = 10 \/ m = 11 \/ m = 12) by lia.
  repeat (destruct Hm as [-> | Hm]; [reflexivity|]). subst. reflexivity.
Qed.

Lemma Month_of_to_Z (m : Month) : Month_of_Z (Month_to_Z m) = m.
Proof. destruct m; reflexivity. Qed.

Lemma Month_to_Z_range (m : Month) : 1 <= Month_to_Z m <= 12.
Proof. destruct m; cbn; lia. Qed.

Lemma daysIn_range (m : Month) (y : Z) : 28 <= daysIn m y <= 31.
Proof. unfold daysIn. destruct m; try destruct (isLeap y); lia. Qed.

Lemma carryDays_step (f : nat) (y : Z) (m : Month) (d : Z) :
  carryDays (S f) y m d =
  if d >? daysIn m y
  then let '(y', m') := nextMonth y m in carryDays f y' m' (d - daysIn m y)
  else if d <? 1
  then let '(y', m') := prevMonth y m in carryDays f y' m' (d + daysIn m' y')
  else (y, m, d).
Proof. reflexivity. Qed.

(** A date within its month is the date [Date] returns. *)
Lemma Date_valid (y : Z) (m : Month) (d : Z) (loc : Location) :
  1 <= d <= daysIn m y ->
  Date y (Month_to_Z m) d 0 0 0 0 loc = mkTime y m d 0 0 0 0 loc.
Proof.
  intros Hd. unfold Date, norm.
  pose proof (Month_to_Z_range m) as Hm.
  rewrite (Z.div_small (Month_to_Z m - 1) 12) by lia.
  rewrite (Z.mod_small (Month_to_Z m - 1) 12) by lia.
  cbv iota beta.
  change ((0 + (0 + (0 + 0 / 1000000000) / 60) / 60) / 24) with 0.
  rewrite (Z.add_0_r y), (Z.add_0_r d).
  replace (Month_to_Z m - 1 + 1) with (Month_to_Z m) by lia.
  rewrite Month_of_to_Z, carryDays_step.
  destruct (Z.gtb_spec d (daysIn m y)); [lia|].
  destruct (Z.ltb_spec d 1); [lia|]. reflexivity.
Qed.

(** February 29 of a year that is not a leap year is March 1. *)
Lemma Date_leap_day (y : Z) (loc : Location) :
  isLeap y = false ->
  Date y 2 29 0 0 0 0 loc = mkTime y March 1 0 0 0 0 loc.
Proof.
  intros Hy. unfold Date, norm.
  change ((2 - 1) / 12) with 0. change ((2 - 1) mod 12) with 1.
  cbv iota beta.
  change (29 + (0 + (0 + (0 + 0 / 1000000000) / 60) / 60) / 24) with 29.
  rewrite (Z.add_0_r y). change (Month_of_Z (1 + 1)) with February.
  change (S (Z.to_nat (Z.abs 29))) with (S (S 28)).
  rewrite carryDays_step.
  change (daysIn February y) with (if isLeap y then 29 else 28).
  rewrite Hy. reflexivity.
Qed.

Lemma AddDate_years (y : Z) (m : Month) (d : Z) (years : Z) :
  AddDate (mkTime y m d 0 0 0 0 UTC) years 0 0 =
  Date (y + years) (Month_to_Z m) d 0 0 0 0 UTC.
Proof. unfold AddDate; cbn [tYear tMonth tDay tHour tMinute tSecond tNanosecond tLocation].
       rewrite (Z.add_0_r (Month_to_Z m)), (Z.add_0_r d). reflexivity. Qed.

Lemma getnum_range (s : string) (fixed : bool) (n : Z) (r : string) :
  getnum s fixed = Some (n, r) -> 0 <= n <= 99.
Proof.
  unfold getnum, strconv.isDigit, digitVal.
  destruct s as [|c1 r1]; [discriminate|].
  destruct ((48 <=? code c1) && (code c1 <=? 57)) eqn:H1; [|discriminate].
  apply andb_prop in H1 as [H1a H1b].
  apply Z.leb_le in H1a. apply Z.leb_le in H1b.
  destruct r1 as [|c2 r2].
  - destruct fixed; [discriminate|]. intros [= <- _]. lia.
  - destruct ((48 <=? code c2) && (code c2 <=? 57)) eqn:H2.
    + apply andb_prop in H2 as [H2a H2b].
      apply Z.leb_le in H2a. apply Z.leb_le in H2b.
      intros [= <- _]. lia.
    + destruct fixed; [discriminate|]. intros [= <- _]. lia.
Qed.

(** Two digits read by a two-digit directive are read alike by the
    directive that takes one or two digits. *)
Lemma getnum_fixed (s : string) (n : Z) (r : string) :
  getnum s true = Some (n, r) -> getnum s false = Some (n, r).
Proof.
  unfold getnum. destruct s as [|c1 [|c2 r2]]; try discriminate.
  - destruct (strconv.isDigit c1); discriminate.
  - destruct (strconv.isDigit c1); [|discriminate].
    destruct (strconv.isDigit c2); [trivial|discriminate].
Qed.

Lemma yearless_chunks (layout : string) :
  In layout yearlessFormats ->
  exists bm bd, chunks layout = [Std (monthStd bm); Lit "/"; Std (dayStd bd)].
Proof.
  intros [<-|[<-|[<-|[<-|[]]]]].
  - exists false, false. reflexivity.
  - exists false, true. reflexivity.
  - exists true, false. reflexivity.
  - exists true, true. reflexivity.
Qed.

Lemma parseChunks_month_day (bm bd : bool) (s : string) (f : fields) :
  parseChunks [Std (monthStd bm); Lit "/"; Std (dayStd bd)] s f =
  match getnum s bm with
  | Some (m, r) =>
      if (m <=? 0) || (12 <? m) then inl errMonthRange
      else
        match r with
        | String c' r' =>
            if Ascii.eqb "/" c' then
              match getnum r' bd with
              | Some (d, r'') =>
                  if len r'' =? 0 then inr (mkFields (fYear f) m d)
                  else inl errExtraText
              | None => inl errBad
              end
            else inl errBad
        | EmptyString => inl errBad
        end
  | None => inl errBad
  end.
Proof.
  destruct bm, bd; unfold monthStd, dayStd, parseChunks;
    destruct (getnum s _) as [[m r]|]; try reflexivity;
    destruct ((m <=? 0) || (12 <? m)); try reflexivity;
    destruct r as [|c' r']; try reflexivity;
    destruct (Ascii.eqb "/" c'); try reflexivity;
    destruct (getnum r' _) as [[d r'']|]; reflexivity.
Qed.

Lemma getnum_any (b : bool) (s : string) (n : Z) (r : string) :
  getnum s b = Some (n, r) -> getnum s false = Some (n, r).
Proof. destruct b; [apply getnum_fixed | trivial]. Qed.

(** A string matched by a layout without year: the year read is 0, month
    and day are a date of year 0, and the first layout matches it alike. *)
Lemma Parse_yearless (layout s : string) (t : Time) :
  In layout yearlessFormats ->
  Parse layout s = inr t ->
  exists m d,
    1 <= d <= daysIn m 0 /\
    t = mkTime 0 m d 0 0 0 0 UTC /\
    Parse "1/2" s = inr t.
Proof.
  intros Hin HP.
  destruct (yearless_chunks _ Hin) as (bm & bd & Hc).
  unfold Parse in HP |- *. rewrite Hc in HP.
  change (chunks "1/2") with [Std (monthStd false); Lit "/"; Std (dayStd false)].
  rewrite parseChunks_month_day in HP |- *.
  destruct (getnum s bm) as [[m r]|] eqn:Hm; [|discriminate].
  rewrite (getnum_any _ _ _ _ Hm).
  destruct ((m <=? 0) || (12 <? m)) eqn:Hrange; [discriminate|].
  apply Bool.orb_false_elim in Hrange as [Hm1 Hm2].
  apply Z.leb_gt in Hm1. apply Z.ltb_ge in Hm2.
  destruct r as [|c' r']; [discriminate|].
  destruct (Ascii.eqb "/" c'); [|discriminate].
  destruct (getnum r' bd) as [[d r'']|] eqn:Hd; [|discriminate].
  rewrite (getnum_any _ _ _ _ Hd).
  pose proof (getnum_range _ _ _ _ Hd) as Hdr.
  destruct (len r'' =? 0); [|discriminate].
  cbn [fYear fMonth fDay] in HP |- *.
  destruct (Z.ltb_spec m 0); [lia|].
  destruct (Z.ltb_spec d 0); [lia|].
  destruct ((d <? 1) || (d >? daysIn (Month_of_Z m) 0)) eqn:Hday; [discriminate|].
  apply Bool.orb_false_elim in Hday as [Hd1 Hd2].
  apply Z.ltb_ge in Hd1.
  assert (Hd3 : d <= daysIn (Month_of_Z m) 0).
  { destruct (Z.gtb_spec d (daysIn (Month_of_Z m) 0)); [discriminate | lia]. }
  exists (Month_of_Z m), d. split; [lia|].
  rewrite <- (Month_to_of_Z m) in HP at 1 by lia.
  rewrite Date_valid in HP by lia.
  injection HP as <-. split; [reflexivity|].
  rewrite <- (Month_to_of_Z m) at 1 by lia.
  rewrite Date_valid by lia. reflexivity.
Qed.

Lemma parseDate_from_cons (clock : Clock) (format : string) (fs : list string)
    (dateStr : string) :
  parseDate_from clock (format :: fs) dateStr =
  match Parse format dateStr with
  | inr date =>
      if Year date =? 0 then inr (AddDate date (currentYear clock) 0 0)
      else inr date
  | inl _ => parseDate_from clock fs dateStr
  end.
Proof. reflexivity. Qed.

(** The layouts are tried in order and the first match wins. *)
Lemma parseDate_from_first_match (clock : Clock) (pre : list string)
    (layout : string) (post : list string) (s : string) (t : Time) :
  Forall (noMatch s) pre ->
  Parse layout s = inr t ->
  parseDate_from clock (pre ++ layout :: post)%list s =
  inr (if Year t =? 0 then AddDate t (currentYear clock) 0 0 else t).
Proof.
  intros Hpre HP. induction Hpre as [|l pre [e He] _ IH].
  - cbn [app]. rewrite parseDate_from_cons, HP.
    destruct (Year t =? 0); reflexivity.
  - change ((l :: pre) ++ layout :: post)%list with (l :: (pre ++ layout :: post))%list.
    rewrite parseDate_from_cons, He. exact IH.
Qed.

Lemma parseDate_from_no_match (clock : Clock) (fs : list string) (s : string) :
  Forall (noMatch s) fs ->
  parseDate_from clock fs s = inl (ErrUnableToParseDate s).
Proof.
  intros H. induction H as [|l fs [e He] _ IH]; [reflexivity|].
  rewrite parseDate_from_cons, He. exact IH.
Qed.

Lemma parseDate_yearless (clock : Clock) (s : string) (m : Month) (d : Z) :
  Parse "1/2" s = inr (mkTime 0 m d 0 0 0 0 UTC) ->
  parseDate clock s =
  inr (Date (currentYear clock) (Month_to_Z m) d 0 0 0 0 UTC).
Proof.
  intros HP. unfold parseDate, formats.
  rewrite parseDate_from_cons, HP.
  change (Year (mkTime 0 m d 0 0 0 0 UTC) =? 0) with true. cbv iota.
  rewrite AddDate_years. reflexivity.
Qed.

(** C7, as amended.  For every date string matched by one of the layouts
    without year ([M/D], [M/DD], [MM/D], [MM/DD]), the year read is 0 and the
    date parser returns the matched date moved forward by the current year
    ([AddDate]); when the day exists in that month of the current year
    (every date but February 29 when the current year is not a leap year),
    that is the same month and day of the current year at UTC midnight.
    [parseDate("7/15")] is July 15 of the current year and
    [parseDate("07/15/2023")] is of year 2023.  The ten layouts are tried in
    the order listed, the first match wins, and a string that matches none
    fails with "unable to parse date". *)
Theorem parseDate_layouts (clock : Clock) (s : string) :
  (forall layout t,
      In layout yearlessFormats ->
      Parse layout s = inr t ->
      Year t = 0 /\
      parseDate clock s = inr (AddDate t (currentYear clock) 0 0) /\
      (tDay t <= daysIn (tMonth t) (currentYear clock) ->
       parseDate clock s =
       inr (mkTime (currentYear clock) (tMonth t) (tDay t) 0 0 0 0 UTC))) /\
  (forall pre layout post t,
      formats = (pre ++ layout :: post)%list ->
      Forall (noMatch s) pre ->
      Parse layout s = inr t ->
      parseDate clock s =
      inr (if Year t =? 0 then AddDate t (currentYear clock) 0 0 else t)) /\
  (Forall (noMatch s) formats ->
   parseDate clock s = inl (ErrUnableToParseDate s)) /\
  parseDate clock "7/15" = inr (mkTime (currentYear clock) July 15 0 0 0 0 UTC) /\
  parseDate clock "07/15/2023" = inr (mkTime 2023 July 15 0 0 0 0 UTC).
Proof.
  split; [|split; [|split; [|split]]].
  - intros layout t Hin HP.
    destruct (Parse_yearless _ _ _ Hin HP) as (m & d & Hd & -> & HP1).
    cbn [tDay tMonth] in *.
    rewrite (parseDate_yearless clock s m d HP1).
    split; [reflexivity|]. split; [rewrite AddDate_years; reflexivity|].
    intros Hday. rewrite Date_valid by lia. reflexivity.
  - intros pre layout post t Hf Hpre HP. unfold parseDate. rewrite Hf.
    apply parseDate_from_first_match; assumption.
  - apply parseDate_from_no_match.
  - rewrite (parseDate_yearless clock "7/15" July 15 eq_refl).
    rewrite Date_valid by (cbn; lia). reflexivity.
  - reflexivity.
Qed.

(** The amended C7 at ["07/15"] in the year 2023. *)
Lemma parseDate_layouts_witness :
  parseDate (mkClock 2023 (mkTime 2023 July 1 12 0 0 0 UTC)) "07/15"
  = inr (mkTime 2023 July 15 0 0 0 0 UTC).
Proof.
  apply (proj1 (parseDate_layouts (mkClock 2023 (mkTime 2023 July 1 12 0 0 0 UTC)) "07/15")
               "01/02" (mkTime 0 July 15 0 0 0 0 UTC)).
  - right; right; right; left; reflexivity.
  - reflexivity.
  - cbn. lia.
Defined.

(** C7 as stated fails at ["2/29"] when the current year is 2023: the
    layout [M/D] matches it as February 29, and the date returned is
    March 1, 2023. *)
Lemma parseDate_leap_day_counterexample :
  In "1/2" yearlessFormats /\
  Parse "1/2" "2/29" = inr (mkTime 0 February 29 0 0 0 0 UTC) /\
  parseDate (mkClock 2023 (mkTime 2023 July 1 12 0 0 0 UTC)) "2/29"
  = inr (mkTime 2023 March 1 0 0 0 0 UTC) /\
  ~ (forall clock s layout t,
        In layout yearlessFormats ->
        Parse layout s = inr t ->
        parseDate clock s =
        inr (mkTime (currentYear clock) (tMonth t) (tDay t) 0 0 0 0 UTC)).
Proof.
  split; [left; reflexivity|]. split; [reflexivity|]. split; [reflexivity|].
  intros H.
  specialize (H (mkClock 2023 (mkTime 2023 July 1 12 0 0 0 UTC)) "2/29" "1/2"
                (mkTime 0 February 29 0 0 0 0 UTC)
                (or_introl eq_refl) eq_refl).
  discriminate H.
Qed.

(** C10.  When the current year is not a leap year, [parseDate("2/29")]
    does not fail: the layout [M/D] reads February 29 of year 0, a leap
    year, and adding the current year gives March 1 of the current year,
    which is the date returned. *)
Theorem parseDate_leap_day_not_leap_year (clock : Clock) :
  isLeap (currentYear clock) = false ->
  isLeap 0 = true /\
  Parse "1/2" "2/29" = inr (mkTime 0 February 29 0 0 0 0 UTC) /\
  parseDate clock "2/29" = inr (mkTime (currentYear clock) March 1 0 0 0 0 UTC).
Proof.
  intros Hleap. split; [reflexivity|]. split; [reflexivity|].
  rewrite (parseDate_yearless clock "2/29" February 29 eq_refl).
  change (Month_to_Z February) with 2.
  rewrite (Date_leap_day _ UTC Hleap). reflexivity.
Qed.

(** C10 in the year 2023. *)
Lemma parseDate_leap_day_not_leap_year_witness :
  parseDate (mkClock 2023 (mkTime 2023 July 1 12 0 0 0 UTC)) "2/29"
  = inr (mkTime 2023 March 1 0 0 0 0 UTC).
Proof.
  apply (parseDate_leap_day_not_leap_year
           (mkClock 2023 (mkTime 2023 July 1 12 0 0 0 UTC)) eq_refl).
Defined.

End date_parser.

(** ** The ingestion driver *)

Section ingestion.
Variable clock : Clock.
Variable accountID : string.

(** Whether the record parser fails, and how, does not depend on the
    identifiers generated so far. *)
Lemma parseTransaction_error_ids (record : list string) (ids : nat) :
  match fst (parseTransaction clock record accountID 0) with
  | inl e => parseTransaction clock record accountID ids = (inl e, ids)
  | inr _ => exists tx, parseTransaction clock record accountID ids = (inr tx, S ids)
  end.
Proof.
  unfold parseTransaction.
  destruct record as [|f0 [|f1 [|f2 [|? ?]]]]; try reflexivity.
  destruct (String.eqb (TrimSpace f0) ""); [reflexivity|].
  destruct (parseDate clock (TrimSpace f1)); [reflexivity|].
  destruct (parseAmount (TrimSpace f2)) as [|[amount kind]]; [reflexivity|].
  cbn [fst]. eexists. reflexivity.
Qed.

Lemma readLoop_cons (raw : rawRecord) (rest : list rawRecord)
    (lineNumber : Z) (ids : nat) (transactions : list Transaction.t) :
  readLoop clock (raw :: rest) accountID lineNumber ids transactions =
  match Read 3 raw with
  | inl err => inl (ErrReadRecord (lineNumber + 1) err)
  | inr record =>
      if (lineNumber + 1 =? 1) && isHeaderRow record
      then readLoop clock rest accountID (lineNumber + 1) ids transactions
      else
        match parseTransaction clock record accountID ids with
        | (inl err, _) => inl (ErrParseTransaction (lineNumber + 1) err)
        | (inr transaction, ids') =>
            readLoop clock rest accountID (lineNumber + 1) ids'
                     (transactions ++ [transaction])
        end
  end.
Proof. reflexivity. Qed.

Lemma first_line (n : nat) : (Z.of_nat n + 1 =? 1) = Nat.eqb n 0.
Proof.
  destruct n as [|n]; [reflexivity|].
  cbn [Nat.eqb]. apply Z.eqb_neq. lia.
Qed.

Lemma readLoop_first_failure (bad : rawRecord) (post : list rawRecord)
    (cause : csvError + error) (pre : list rawRecord) :
  forall (n ids : nat) (acc : list Transaction.t),
    (forall i raw, pre !! i = Some raw -> rowPasses clock accountID (n + i) raw) ->
    rowFails clock accountID (n + length pre) bad cause ->
    readLoop clock (pre ++ bad :: post) accountID (Z.of_nat n) ids acc
    = inl (lineError (Z.of_nat (n + length pre) + 1) cause).
Proof.
  induction pre as [|raw pre' IH]; intros n ids acc Hpre [Hskip Hcause].
  - cbn [app length] in *. rewrite Nat.add_0_r in *.
    rewrite readLoop_cons. unfold skippedAsHeader, rowCause in *.
    destruct (Read 3 bad) as [e|record].
    + injection Hcause as <-. reflexivity.
    + rewrite first_line, Hskip.
      pose proof (parseTransaction_error_ids record ids) as Hids.
      destruct (fst (parseTransaction clock record accountID 0)) as [e|tx0];
        [|discriminate].
      injection Hcause as <-. rewrite Hids. reflexivity.
  - change ((raw :: pre') ++ bad :: post)%list with (raw :: (pre' ++ bad :: post))%list.
    rewrite readLoop_cons.
    assert (Hnext : forall ids' acc',
               readLoop clock (pre' ++ bad :: post) accountID (Z.of_nat n + 1) ids' acc'
               = inl (lineError (Z.of_nat (n + length (raw :: pre')) + 1) cause)).
    { intros ids' acc'.
      replace (Z.of_nat n + 1) with (Z.of_nat (S n)) by lia.
      replace (n + length (raw :: pre'))%nat with (S n + length pre')%nat
        by (cbn [length]; lia).
      apply IH.
      - intros i r Hi.
        replace (S n + i)%nat with (n + S i)%nat by lia.
        apply Hpre. exact Hi.
      - split.
        + replace (S n + length pre')%nat with (n + length (raw :: pre'))%nat
            by (cbn [length]; lia).
          exact Hskip.
        + exact Hcause. }
    specialize (Hpre 0%nat raw eq_refl). rewrite Nat.add_0_r in Hpre.
    unfold rowPasses, skippedAsHeader, rowCause in Hpre.
    destruct (Read 3 raw) as [e|record].
    + destruct Hpre as [H|H]; discriminate H.
    + rewrite first_line.
      destruct (Nat.eqb n 0 && isHeaderRow record) eqn:Hh; [apply Hnext|].
      destruct Hpre as [H|H]; [discriminate H|].
      pose proof (parseTransaction_error_ids record ids) as Hids.
      destruct (fst (parseTransaction clock record accountID 0)) as [e|tx0];
        [discriminate H|].
      destruct Hids as [tx Htx]. rewrite Htx. apply Hnext.
Qed.

(** Whatever the stream, the first row that fails to parse (the CSV
    reader refuses it, as it does a row that has not exactly 3 fields, or
    the record parser does) aborts the ingestion: the result is the error
    that carries the position of that row, counted from 1 in the rows as
    the reader yields them, and the cause of the failure; being an error,
    it carries no transactions.  A row of 2 fields fails with the
    reader's "wrong number of fields". *)
Lemma ReadTransactions_first_failure (pre : list rawRecord) (bad : rawRecord)
    (post : list rawRecord) (cause : csvError + error) (ids : nat) :
  (forall i raw, pre !! i = Some raw -> rowPasses clock accountID i raw) ->
  rowFails clock accountID (length pre) bad cause ->
  ReadTransactions clock (pre ++ bad :: post) accountID ids
  = inl (lineError (Z.of_nat (length pre) + 1) cause)
  /\ (forall a b, rowCause clock accountID (Fields [a; b]) = Some (inl ErrFieldCount)).
Proof.
  intros Hpre Hbad. split; [|reflexivity].
  unfold ReadTransactions.
  exact (readLoop_first_failure bad post cause pre 0 ids [] Hpre Hbad).
Qed.

End ingestion.

(** A stream with a header, a row that parses and a row of 2 fields: the
    error names the third record and the reader's cause. *)
Lemma ReadTransactions_first_failure_on_three_records :
  ReadTransactions (mkClock 2023 (mkTime 2023 July 1 12 0 0 0 UTC))
    [Fields ["Id"; "Date"; "Transaction"]; Fields ["1"; "7/15"; "+60.5"];
     Fields ["2"; "7/28"]; Fields ["3"; "8/2"; "-20.46"]] "acc" 0
  = inl (ErrReadRecord 3 ErrFieldCount).
Proof.
  apply (ReadTransactions_first_failure
           (mkClock 2023 (mkTime 2023 July 1 12 0 0 0 UTC)) "acc"
           [Fields ["Id"; "Date"; "Transaction"]; Fields ["1"; "7/15"; "+60.5"]]
           (Fields ["2"; "7/28"]) [Fields ["3"; "8/2"; "-20.46"]]
           (inl ErrFieldCount) 0).
  - intros [|[|i]] raw Hi; cbn in Hi; try discriminate; injection Hi as <-.
    + left. reflexivity.
    + right. reflexivity.
  - split; reflexivity.
Qed.





(** ** The calculator: grouping *)

Section grouping.

Lemma group_fold_lookup (txs : list Transaction.t) :
  forall (m : gmap string (list Transaction.t)) (k : string),
    fold_left groupStep txs m !! k =
    match m !! k, inMonth k txs with
    | None, [] => None
    | o, g => Some (default [] o ++ g)%list
    end.
Proof.
  induction txs as [|tx txs IH]; intros m k.
  - cbn [fold_left]. unfold inMonth. rewrite filter_nil.
    destruct (m !! k) as [l|]; [|reflexivity].
    cbn [default]. rewrite app_nil_r. reflexivity.
  - cbn [fold_left]. rewrite IH. unfold groupStep. cbv zeta. unfold inMonth.
    destruct (decide (Format_January (Transaction.Date tx) = k)) as [He|Hne].
    + rewrite filter_cons_True by exact He.
      rewrite He, lookup_insert_eq. cbn [default].
      destruct (m !! k) as [l|]; cbv [default from_option id];
        rewrite <- app_assoc; reflexivity.
    + rewrite filter_cons_False by exact Hne.
      rewrite lookup_insert_ne by exact Hne. reflexivity.
Qed.

(** A group holds the transactions with its month name, all of them and
    in their order, and no group is empty. *)
Lemma group_lookup (txs : list Transaction.t) (k : string) :
  groupTransactionsByMonth txs !! k =
  match inMonth k txs with
  | [] => None
  | g => Some g
  end.
Proof.
  unfold groupTransactionsByMonth.
  rewrite group_fold_lookup, lookup_empty.
  destruct (inMonth k txs); reflexivity.
Qed.

Lemma monthlySummariesOf_spec (clock : Clock)
    (groups : gmap string (list Transaction.t)) :
  match monthlySummariesOf clock groups with
  | Some ms =>
      forall k,
        match groups !! k with
        | Some g => exists m, calculateMonthlySummary clock k g = Some m
                              /\ ms !! k = Some m
        | None => ms !! k = None
        end
  | None =>
      exists k g, groups !! k = Some g /\ calculateMonthlySummary clock k g = None
  end.
Proof.
  unfold monthlySummariesOf.
  apply (map_fold_weak_ind
           (fun r (m : gmap string (list Transaction.t)) =>
              match r with
              | Some ms =>
                  forall k,
                    match m !! k with
                    | Some g => exists s, calculateMonthlySummary clock k g = Some s
                                          /\ ms !! k = Some s
                    | None => ms !! k = None
                    end
              | None => exists k g, m !! k = Some g
                                    /\ calculateMonthlySummary clock k g = None
              end)).
  - intros k. rewrite !lookup_empty. reflexivity.
  - intros i x m r Hi IH. destruct r as [ms|].
    + destruct (calculateMonthlySummary clock i x) as [summary|] eqn:Hc.
      * intros k. destruct (decide (i = k)) as [<-|Hne].
        -- rewrite !lookup_insert_eq. exists summary. split; [exact Hc | reflexivity].
        -- rewrite !lookup_insert_ne by exact Hne. apply IH.
      * exists i, x. rewrite lookup_insert_eq. split; [reflexivity | exact Hc].
    + destruct IH as (k & g & Hk & Hg). exists k, g. split; [|exact Hg].
      rewrite lookup_insert_ne; [exact Hk|]. intros ->. congruence.
Qed.

Lemma CalculateSummary_monthly (clock : Clock) (accountID : string)
    (txs : list Transaction.t) (summary : AccountSummary.t) :
  CalculateSummary clock accountID txs = Some summary ->
  forall k,
    match inMonth k txs with
    | [] => AccountSummary.MonthlySummaries summary !! k = None
    | g => exists m, calculateMonthlySummary clock k g = Some m
                     /\ AccountSummary.MonthlySummaries summary !! k = Some m
    end.
Proof.
  unfold CalculateSummary. destruct txs as [|tx txs].
  - intros [= <-] k. apply lookup_empty.
  - pose proof (monthlySummariesOf_spec clock (groupTransactionsByMonth (tx :: txs))) as Hs.
    destruct (monthlySummariesOf clock (groupTransactionsByMonth (tx :: txs))) as [ms|];
      [|discriminate].
    intros [= <-] k. cbn [AccountSummary.MonthlySummaries].
    specialize (Hs k). rewrite group_lookup in Hs.
    destruct (inMonth k (tx :: txs)); exact Hs.
Qed.

Lemma calculateMonthlySummary_sample (clock : Clock) (k : string)
    (tx0 : Transaction.t) (rest : list Transaction.t) (m : MonthlySummary.t) :
  calculateMonthlySummary clock k (tx0 :: rest) = Some m ->
  MonthlySummary.Month m = Month_ (Transaction.Date tx0) /\
  MonthlySummary.Year m = Year (Transaction.Date tx0) /\
  MonthlySummary.TransactionCount m = Z.of_nat (length (tx0 :: rest)).
Proof.
  unfold calculateMonthlySummary.
  destruct (fold_left tally (tx0 :: rest) (Zero, Zero, 0, 0)) as [[[tc td] cc] dc].
  destruct (if cc >? 0 then _ else _) as [ac|]; [|discriminate].
  destruct (if dc >? 0 then _ else _) as [ad|]; [|discriminate].
  intros [= <-]. repeat split.
Qed.

(** C8.  The aggregator groups the transactions by the name of their
    calendar month only: the group of a month name holds every
    transaction of the collection with that month name, whatever its year,
    so two transactions with the same month name land in the same group;
    the month and the year of a monthly summary are those of the first
    transaction of its group. *)
Theorem CalculateSummary_groups_by_month_name (clock : Clock) (accountID : string)
    (txs : list Transaction.t) (summary : AccountSummary.t) :
  CalculateSummary clock accountID txs = Some summary ->
  (forall monthName,
      groupTransactionsByMonth txs !! monthName =
      match inMonth monthName txs with
      | [] => None
      | g => Some g
      end) /\
  (forall tx1 tx2,
      tx1 ∈ txs -> tx2 ∈ txs ->
      Format_January (Transaction.Date tx1) = Format_January (Transaction.Date tx2) ->
      exists g,
        groupTransactionsByMonth txs !! Format_January (Transaction.Date tx1) = Some g
        /\ tx1 ∈ g /\ tx2 ∈ g) /\
  (forall monthName,
      match inMonth monthName txs with
      | [] => AccountSummary.MonthlySummaries summary !! monthName = None
      | tx0 :: rest =>
          exists m,
            AccountSummary.MonthlySummaries summary !! monthName = Some m /\
            MonthlySummary.Month m = Month_ (Transaction.Date tx0) /\
            MonthlySummary.Year m = Year (Transaction.Date tx0) /\
            MonthlySummary.TransactionCount m = Z.of_nat (length (tx0 :: rest))
      end).
Proof.
  intros Hs. split; [|split].
  - intros k. apply group_lookup.
  - intros tx1 tx2 H1 H2 Hsame.
    assert (Hin1 : tx1 ∈ inMonth (Format_January (Transaction.Date tx1)) txs).
    { unfold inMonth. apply list_elem_of_filter. split; [reflexivity | exact H1]. }
    assert (Hin2 : tx2 ∈ inMonth (Format_January (Transaction.Date tx1)) txs).
    { unfold inMonth. apply list_elem_of_filter. split; [symmetry; exact Hsame | exact H2]. }
    exists (inMonth (Format_January (Transaction.Date tx1)) txs).
    split; [|split; assumption].
    rewrite group_lookup.
    destruct (inMonth (Format_January (Transaction.Date tx1)) txs); [|reflexivity].
    inversion Hin1.
  - intros k. pose proof (CalculateSummary_monthly _ _ _ _ Hs k) as Hk.
    destruct (inMonth k txs) as [|tx0 rest]; [exact Hk|].
    destruct Hk as (m & Hc & Hm). exists m. split; [exact Hm|].
    exact (calculateMonthlySummary_sample _ _ _ _ _ Hc).
Qed.

End grouping.

(** ** The calculator: sums *)

Section sums.
Local Open Scope Q_scope.

Lemma sumQ_app (l1 l2 : list Q) : sumQ (l1 ++ l2) == sumQ l1 + sumQ l2.
Proof.
  induction l1 as [|x l1 IH]; cbn [app sumQ].
  - rewrite Qplus_0_l. reflexivity.
  - rewrite IH. apply Qplus_assoc.
Qed.

Lemma sumQ_perm (l1 l2 : list Q) : l1 ≡ₚ l2 -> sumQ l1 == sumQ l2.
Proof.
  induction 1 as [|x l1 l2 _ IH|x y l|l1 l2 l3 _ IH1 _ IH2]; cbn [sumQ].
  - reflexivity.
  - rewrite IH. reflexivity.
  - rewrite !Qplus_assoc, (Qplus_comm y x). reflexivity.
  - rewrite IH1. exact IH2.
Qed.

Lemma sumMapQ_empty {A : Type} (F : A -> Q) : sumMapQ F ∅ == 0.
Proof. unfold sumMapQ. rewrite map_to_list_empty. reflexivity. Qed.

Lemma sumMapQ_insert {A : Type} (F : A -> Q) (m : gmap string A) (i : string) (x : A) :
  m !! i = None -> sumMapQ F (<[i:=x]> m) == F x + sumMapQ F m.
Proof.
  intros Hi. unfold sumMapQ.
  rewrite (sumQ_perm _ (map (fun e => F (snd e)) ((i, x) :: map_to_list m))).
  - reflexivity.
  - apply Permutation_map, map_to_list_insert, Hi.
Qed.

Lemma sumMapQ_update {A : Type} (F : A -> Q) (m : gmap string A) (i : string) (x y : A) :
  m !! i = Some x -> sumMapQ F (<[i:=y]> m) == F y + (sumMapQ F m - F x).
Proof.
  intros Hi.
  rewrite <- (insert_delete_id m i x Hi) at 2.
  rewrite <- (insert_delete_eq m i y).
  rewrite !sumMapQ_insert by apply lookup_delete_eq. ring.
Qed.

(** Two maps with the same keys whose values are related sum up alike. *)
Lemma sumMapQ_related {A B : Type} (F : A -> Q) (G : B -> Q) (mb : gmap string B) :
  forall ma : gmap string A,
    (forall k, match mb !! k with
               | Some b => exists a, ma !! k = Some a /\ F a == G b
               | None => ma !! k = None
               end) ->
    sumMapQ F ma == sumMapQ G mb.
Proof.
  induction mb as [|i b mb Hi IH] using map_ind; intros ma Hrel.
  - assert (ma = ∅) as ->.
    { apply map_eq. intros k. specialize (Hrel k).
      rewrite lookup_empty in Hrel. rewrite lookup_empty. exact Hrel. }
    rewrite !sumMapQ_empty. reflexivity.
  - pose proof (Hrel i) as Hreli. rewrite lookup_insert_eq in Hreli.
    destruct Hreli as (a & Ha & Hab).
    rewrite <- (insert_delete_id ma i a Ha).
    rewrite !sumMapQ_insert by (exact Hi || apply lookup_delete_eq).
    rewrite Hab. apply Qplus_inj_l. apply IH.
    intros k. destruct (decide (i = k)) as [<-|Hne].
    + rewrite Hi. apply lookup_delete_eq.
    + specialize (Hrel k). rewrite lookup_insert_ne in Hrel by exact Hne.
      rewrite lookup_delete_ne by exact Hne. exact Hrel.
Qed.

(** Summing a quantity group by group is summing it over the whole
    collection. *)
Lemma sumMapQ_groups (f : Transaction.t -> Q) (txs : list Transaction.t) :
  forall m : gmap string (list Transaction.t),
    sumMapQ (fun g => sumQ (map f g)) (fold_left groupStep txs m)
    == sumMapQ (fun g => sumQ (map f g)) m + sumQ (map f txs).
Proof.
  induction txs as [|tx txs IH]; intros m; cbn [fold_left map sumQ].
  - rewrite Qplus_0_r. reflexivity.
  - rewrite IH.
    assert (Hstep : sumMapQ (fun g => sumQ (map f g)) (groupStep m tx)
                    == sumMapQ (fun g => sumQ (map f g)) m + f tx).
    { unfold groupStep. cbv zeta.
      destruct (m !! Format_January (Transaction.Date tx)) as [old|] eqn:Hk.
      - rewrite (sumMapQ_update _ m _ old _ Hk). cbv [default from_option id].
        rewrite map_app, sumQ_app. cbn. ring.
      - rewrite sumMapQ_insert by exact Hk. cbn. ring. }
    rewrite Hstep. ring.
Qed.

Lemma toQ_Zero : toQ Zero == 0.
Proof. reflexivity. Qed.

Lemma IsCredit_not_IsDebit (tx : Transaction.t) :
  IsCredit tx = true -> IsDebit tx = false.
Proof.
  unfold IsCredit, IsDebit. intros H. apply String.eqb_eq in H. rewrite H.
  reflexivity.
Qed.

Lemma balance_fold (txs : list Transaction.t) :
  forall acc : Decimal,
    toQ (fold_left (fun totalBalance tx => Add totalBalance (Transaction.Amount tx))
                   txs acc)
    == toQ acc + sumQ (map amountQ txs).
Proof.
  induction txs as [|tx txs IH]; intros acc; cbn [fold_left map sumQ].
  - rewrite Qplus_0_r. reflexivity.
  - rewrite IH, toQ_Add. unfold amountQ. rewrite Qplus_assoc. reflexivity.
Qed.

End sums.

(** ** Division *)

Section division.

(** Rounding the quotient of two integers half away from zero, the way
    [DivRound] does it from the truncated quotient and the remainder,
    gives an integer no further than one half from the quotient. *)
Lemma round_half_away (aa bb : Z) :
  0 < bb ->
  2 * Z.abs ((if Z.abs (Z.rem aa bb) * 2 <? bb then Z.quot aa bb
              else if aa <? 0 then Z.quot aa bb - 1 else Z.quot aa bb + 1) * bb - aa)
  <= bb.
Proof.
  intros Hb.
  pose proof (Z.quot_rem' aa bb) as Hqr.
  assert (Hr : (0 <= aa -> 0 <= Z.rem aa bb < bb) /\ (aa < 0 -> - bb < Z.rem aa bb <= 0)).
  { split; intros Ha.
    - apply Z.rem_bound_pos; lia.
    - apply Z.rem_bound_pos_neg; lia. }
  destruct (Z.ltb_spec (Z.abs (Z.rem aa bb) * 2) bb) as [Hlt|Hge].
  - nia.
  - destruct (Z.ltb_spec aa 0) as [Hneg|Hpos]; nia.
Qed.

Lemma int32_small (z : Z) : MinInt32 <= z <= MaxInt32 -> int32 z = z.
Proof.
  unfold int32, MinInt32, MaxInt32. intros H.
  rewrite Z.mod_small by lia. lia.
Qed.

Lemma Cmp_with_integer (x n k : Z) :
  0 <= k -> Cmp (mkDecimal x (- k)) (mkDecimal n 0) = (x ?= n * 10 ^ k).
Proof.
  intros Hk. unfold Cmp, RescalePair, rescale; cbn [value exp].
  destruct (Z.eqb_spec (- k) 0) as [E|E].
  - replace k with 0 by lia. rewrite Z.pow_0_r, Z.mul_1_r. reflexivity.
  - destruct (Z.ltb_spec (- k) 0) as [_|H]; [|lia].
    destruct (Z.eqb_spec 0 (- k)) as [|_]; [lia|].
    destruct (Z.gtb_spec (- k) 0) as [H|_]; [lia|].
    cbn [value]. replace (Z.abs (- k - 0)) with k by lia. reflexivity.
Qed.

Lemma Sub_ulp (x : Z) : Sub (mkDecimal x (-16)) (New 1 (-16)) = mkDecimal (x - 1) (-16).
Proof. reflexivity. Qed.

Lemma Add_ulp (x : Z) : Add (mkDecimal x (-16)) (New 1 (-16)) = mkDecimal (x + 1) (-16).
Proof. reflexivity. Qed.

(** What [Div] by a positive count computes: the quotient of two integers
    [aa] and [bb], rounded half away from zero, as a multiple of 10^-16;
    [aa / bb] is the quotient of the dividend by the count, in units of
    10^-16. *)
Lemma Div_value (d : Decimal) (n : Z) (q : Decimal) :
  0 < n -> MinInt32 <= exp d <= 1 ->
  Div d (NewFromInt n) = Some q ->
  exists aa bb,
    0 < bb /\
    q = mkDecimal (if Z.abs (Z.rem aa bb) * 2 <? bb then Z.quot aa bb
                   else if aa <? 0 then Z.quot aa bb - 1 else Z.quot aa bb + 1) (-16) /\
    (toQ d / inject_Z n == inject_Z aa * (10 # 1)^(-16) / inject_Z bb)%Q.
Proof.
  intros Hn He. unfold Div, DivRound, QuoRem.
  change (int32 DivisionPrecision) with 16%Z.
  change (int32 (Z.opp 16)) with (-16)%Z.
  cbn [value exp NewFromInt].
  destruct (Z.eqb_spec n 0) as [|_]; [lia|].
  assert (Habs : Abs (mkDecimal n 0) = mkDecimal n 0).
  { unfold Abs, IsNegative; cbn [value]. destruct (Z.ltb_spec n 0); [lia|reflexivity]. }
  unfold NewFromInt. rewrite Habs.
  assert (Hsgn : (Z.sgn (value d) * Z.sgn n <? 0) = (value d <? 0)).
  { rewrite (Z.sgn_pos n) by lia. rewrite Z.mul_1_r.
    destruct (Z.ltb_spec (value d) 0), (Z.ltb_spec (Z.sgn (value d)) 0); lia. }
  rewrite Hsgn.
  unfold MinInt32, MaxInt32 in *.
  destruct ((exp d - 0 - -16 >? 2147483647) || (exp d - 0 - -16 <? -2147483648))%Z
    eqn:Hov.
  { discriminate. }
  destruct (Z.ltb_spec (exp d - 0 - -16) 0) as [Hlt|Hge]; cbv beta iota zeta;
    cbn [value exp]; rewrite !Sub_ulp, !Add_ulp.
  - set (k := - (exp d - 0 - -16)).
    assert (Hk : 0 < k) by (unfold k; lia).
    rewrite int32_small by (unfold MinInt32, MaxInt32; lia).
    replace (exp d + 16) with (- k) by (unfold k; lia).
    rewrite Cmp_with_integer by lia.
    assert (Hbb : 0 < n * 10 ^ k) by (apply Z.mul_pos_pos; [lia | apply Z.pow_pos_nonneg; lia]).
    intros H. exists (value d), (n * 10 ^ k).
    split; [exact Hbb|]. split.
    + destruct (Z.compare_spec (Z.abs (Z.rem (value d) (n * 10 ^ k)) * 2) (n * 10 ^ k))
        as [E|E|E];
        destruct (Z.ltb_spec (Z.abs (Z.rem (value d) (n * 10 ^ k)) * 2) (n * 10 ^ k));
        try lia;
        destruct (value d <? 0); injection H as <-; reflexivity.
    + unfold toQ. rewrite inject_Z_mult, (Zpower_Qpower 10 k) by lia.
      change (inject_Z 10) with (10 # 1).
      replace (-16) with (exp d + k) by (unfold k; lia).
      rewrite Qpower_plus by discriminate.
      pose proof (pow10_pos k) as Hp.
      assert (HN : (0 < inject_Z n)%Q) by (rewrite (Zlt_Qlt 0 n) in Hn; exact Hn).
      field. split.
      * intros E. rewrite E in Hp. exact (Qlt_irrefl _ Hp).
      * intros E. rewrite E in HN. exact (Qlt_irrefl _ HN).
  - set (e := exp d - 0 - -16) in *.
    change (int32 (-16 + 0)) with (-16).
    change (int32 (-16 + 16)) with (- 0).
    rewrite Cmp_with_integer by lia.
    rewrite Z.pow_0_r, Z.mul_1_r.
    intros H. exists (value d * 10 ^ e), n.
    split; [exact Hn|]. split.
    + assert (Hneg : (value d * 10 ^ e <? 0) = (value d <? 0)).
      { pose proof (Z.pow_pos_nonneg 10 e ltac:(lia) Hge) as Hp.
        destruct (Z.ltb_spec (value d * 10 ^ e) 0), (Z.ltb_spec (value d) 0); nia. }
      rewrite Hneg.
      destruct (Z.compare_spec (Z.abs (Z.rem (value d * 10 ^ e) n) * 2) n) as [E|E|E];
        destruct (Z.ltb_spec (Z.abs (Z.rem (value d * 10 ^ e) n) * 2) n);
        try lia;
        destruct (value d <? 0); injection H as <-; reflexivity.
    + unfold toQ. rewrite pow10_scale by lia.
      replace (-16 + e) with (exp d) by (unfold e; lia). reflexivity.
Qed.

(** [Div] by a positive count returns the quotient to 16 digits after the
    decimal point. *)
Lemma Div_quotient (d : Decimal) (n : Z) (q : Decimal) :
  0 < n -> MinInt32 <= exp d <= 1 ->
  Div d (NewFromInt n) = Some q ->
  quotientTo16 d n q.
Proof.
  intros Hn He H.
  destruct (Div_value d n q Hn He H) as (aa & bb & Hbb & -> & HQ).
  unfold quotientTo16. split; [reflexivity|].
  rewrite HQ. unfold toQ; cbn [value exp].
  set (res := if Z.abs (Z.rem aa bb) * 2 <? bb then Z.quot aa bb
              else if aa <? 0 then Z.quot aa bb - 1 else Z.quot aa bb + 1).
  pose proof (round_half_away aa bb Hbb) as Hr. fold res in Hr.
  pose proof (pow10_pos (-16)) as Hp.
  assert (HB : (0 < inject_Z bb)%Q) by (rewrite (Zlt_Qlt 0 bb) in Hbb; exact Hbb).
  assert (Eq : (inject_Z res * (10 # 1) ^ (-16) - inject_Z aa * (10 # 1) ^ (-16) / inject_Z bb
               == (inject_Z (res * bb - aa) / inject_Z bb) * (10 # 1) ^ (-16))%Q).
  { unfold Z.sub. rewrite inject_Z_plus, inject_Z_mult, inject_Z_opp. field.
    intros E. rewrite E in HB. exact (Qlt_irrefl _ HB). }
  rewrite Eq. rewrite Qabs_Qmult.
  rewrite (Qabs_pos ((10 # 1) ^ (-16))) by (apply Qlt_le_weak; exact Hp).
  apply Qmult_le_compat_r; [|apply Qlt_le_weak; exact Hp].
  apply Qabs_Qle_condition. split.
  - apply Qle_shift_div_l; [exact HB|].
    unfold Qle, Qmult, Qopp, inject_Z; cbn [Qnum Qden]. lia.
  - apply Qle_shift_div_r; [exact HB|].
    unfold Qle, Qmult, inject_Z; cbn [Qnum Qden]. lia.
Qed.

End division.

(** ** The calculator: totals and averages *)

Section averages.
Local Open Scope Q_scope.

Lemma countIf_nil (p : Transaction.t -> bool) : countIf p [] = 0%Z.
Proof. reflexivity. Qed.

Lemma countIf_cons (p : Transaction.t -> bool) (tx : Transaction.t)
    (g : list Transaction.t) :
  countIf p (tx :: g) = ((if p tx then 1 else 0) + countIf p g)%Z.
Proof.
  unfold countIf. cbn [List.filter]. destruct (p tx); cbn [length]; lia.
Qed.

Lemma countIf_nonneg (p : Transaction.t -> bool) (g : list Transaction.t) :
  (0 <= countIf p g)%Z.
Proof. unfold countIf. lia. Qed.

Lemma tally_fold (g : list Transaction.t) :
  forall tc td cc dc tc' td' cc' dc',
    fold_left tally g (tc, td, cc, dc) = (tc', td', cc', dc') ->
    toQ tc' == toQ tc + sumQ (map creditPart g) /\
    toQ td' == toQ td + sumQ (map debitPart g) /\
    cc' = (cc + countIf IsCredit g)%Z /\
    dc' = (dc + countIf IsDebit g)%Z /\
    (exp tc' <= exp tc)%Z /\ (exp td' <= exp td)%Z /\
    (forall lo,
        (lo <= exp tc)%Z -> (lo <= exp td)%Z ->
        Forall (fun tx => (lo <= exp (Transaction.Amount tx))%Z) g ->
        (lo <= exp tc')%Z /\ (lo <= exp td')%Z).
Proof.
  induction g as [|tx g IH]; intros tc td cc dc tc' td' cc' dc' H.
  - cbn [fold_left] in H. injection H as <- <- <- <-.
    cbn [map sumQ]. rewrite !Qplus_0_r, !countIf_nil.
    repeat split; try reflexivity; try lia.
  - cbn [fold_left] in H. rewrite !countIf_cons. cbn [map sumQ].
    unfold tally at 2 in H. unfold creditPart at 1. unfold debitPart at 1.
    destruct (IsCredit tx) eqn:Hc.
    + rewrite (IsCredit_not_IsDebit tx Hc).
      destruct (IH _ _ _ _ _ _ _ _ H) as (Q1 & Q2 & C1 & C2 & E1 & E2 & Elo).
      rewrite toQ_Add in Q1. rewrite exp_Add in E1.
      split; [rewrite Q1; unfold amountQ; ring|].
      split; [rewrite Q2; ring|].
      split; [lia|]. split; [lia|]. split; [lia|]. split; [lia|].
      intros lo L1 L2 HF. inversion HF as [|? ? Htx HF']; subst.
      apply Elo; try assumption. rewrite exp_Add. lia.
    + destruct (IsDebit tx) eqn:Hd.
      * destruct (IH _ _ _ _ _ _ _ _ H) as (Q1 & Q2 & C1 & C2 & E1 & E2 & Elo).
        rewrite toQ_Add in Q2. rewrite exp_Add in E2.
        split; [rewrite Q1; ring|].
        split; [rewrite Q2; unfold amountQ; ring|].
        split; [lia|]. split; [lia|]. split; [lia|]. split; [lia|].
        intros lo L1 L2 HF. inversion HF as [|? ? Htx HF']; subst.
        apply Elo; try assumption. rewrite exp_Add. lia.
      * destruct (IH _ _ _ _ _ _ _ _ H) as (Q1 & Q2 & C1 & C2 & E1 & E2 & Elo).
        split; [rewrite Q1; ring|].
        split; [rewrite Q2; ring|].
        split; [lia|]. split; [lia|]. split; [lia|]. split; [lia|].
        intros lo L1 L2 HF. inversion HF as [|? ? Htx HF']; subst.
        apply Elo; assumption.
Qed.

(** [Div] by a count that is not 0 does not panic when the exponent of
    the dividend is an [int32] that is at most 1, as that of a total is. *)
Lemma Div_returns (d : Decimal) (n : Z) :
  n <> 0%Z -> (MinInt32 <= exp d <= 1)%Z ->
  exists q, Div d (NewFromInt n) = Some q.
Proof.
  intros Hn He. unfold Div, DivRound, QuoRem.
  change (int32 DivisionPrecision) with 16%Z.
  change (int32 (Z.opp 16)) with (-16)%Z.
  cbn [value exp NewFromInt].
  destruct (Z.eqb_spec n 0) as [|_]; [contradiction|].
  unfold MinInt32, MaxInt32 in *.
  destruct ((exp d - 0 - -16 >? 2147483647) || (exp d - 0 - -16 <? -2147483648))%Z
    eqn:Hov.
  { exfalso. apply Bool.orb_prop in Hov as [H|H].
    - apply Z.gtb_lt in H. lia.
    - apply Z.ltb_lt in H. lia. }
  destruct (exp d - 0 - -16 <? 0)%Z; cbv beta iota zeta;
    match goal with
    | |- context [Cmp ?a ?b] => destruct (Cmp a b)
    end;
    try (eexists; reflexivity);
    match goal with
    | |- context [(?x <? 0)%Z] => destruct (x <? 0)%Z
    end; eexists; reflexivity.
Qed.

Lemma fold_tally_from_Zero (g : list Transaction.t) tc td cc dc :
  fold_left tally g (Zero, Zero, 0%Z, 0%Z) = (tc, td, cc, dc) ->
  toQ tc == sumQ (map creditPart g) /\
  toQ td == sumQ (map debitPart g) /\
  cc = countIf IsCredit g /\ dc = countIf IsDebit g /\
  (exp tc <= 1)%Z /\ (exp td <= 1)%Z /\
  (Forall wellFormed g -> (MinInt32 <= exp tc)%Z /\ (MinInt32 <= exp td)%Z).
Proof.
  intros H. destruct (tally_fold _ _ _ _ _ _ _ _ _ H)
    as (Q1 & Q2 & C1 & C2 & E1 & E2 & Elo).
  rewrite toQ_Zero, Qplus_0_l in Q1, Q2.
  split; [exact Q1|]. split; [exact Q2|].
  split; [lia|]. split; [lia|].
  split; [exact E1|]. split; [exact E2|].
  intros Hwf. apply (Elo MinInt32); [discriminate | discriminate |].
  eapply Forall_impl; [exact Hwf|]. intros tx [Hlo _]. exact Hlo.
Qed.

(** A group of well-formed transactions has a summary: neither division
    panics. *)
Lemma calculateMonthlySummary_returns (clock : Clock) (k : string)
    (g : list Transaction.t) :
  Forall wellFormed g -> exists m, calculateMonthlySummary clock k g = Some m.
Proof.
  intros Hwf. unfold calculateMonthlySummary.
  destruct g as [|tx0 rest]; [eexists; reflexivity|].
  destruct (fold_left tally (tx0 :: rest) (Zero, Zero, 0%Z, 0%Z))
    as [[[tc td] cc] dc] eqn:Hf.
  destruct (fold_tally_from_Zero _ _ _ _ _ Hf) as (_ & _ & _ & _ & E1 & E2 & Elo).
  destruct (Elo Hwf) as [L1 L2].
  destruct (Z.gtb_spec cc 0) as [Hcc|Hcc].
  - destruct (Div_returns tc cc ltac:(lia) ltac:(lia)) as [ac ->].
    destruct (Z.gtb_spec dc 0) as [Hdc|Hdc].
    + destruct (Div_returns td dc ltac:(lia) ltac:(lia)) as [ad ->].
      eexists; reflexivity.
    + eexists; reflexivity.
  - destruct (Z.gtb_spec dc 0) as [Hdc|Hdc].
    + destruct (Div_returns td dc ltac:(lia) ltac:(lia)) as [ad ->].
      eexists; reflexivity.
    + eexists; reflexivity.
Qed.

Lemma guardedAverage_of (total : Decimal) (count : Z) (average : Decimal) :
  (0 <= count)%Z -> (MinInt32 <= exp total <= 1)%Z ->
  (if (count >? 0)%Z then Div total (NewFromInt count) else Some zeroValue)
  = Some average ->
  guardedAverage total count average.
Proof.
  intros Hc He H. unfold guardedAverage.
  destruct (Z.gtb_spec count 0) as [Hpos|Hle].
  - left. split; [lia|]. split; [exact H|].
    apply Div_quotient; [lia | exact He | exact H].
  - right. split; [lia|]. injection H as <-. reflexivity.
Qed.

Lemma calculateMonthlySummary_facts (clock : Clock) (k : string)
    (g : list Transaction.t) (m : MonthlySummary.t) :
  calculateMonthlySummary clock k g = Some m ->
  toQ (MonthlySummary.TotalCredits m) == sumQ (map creditPart g) /\
  toQ (MonthlySummary.TotalDebits m) == sumQ (map debitPart g) /\
  (g <> [] -> Forall wellFormed g ->
   guardedAverage (MonthlySummary.TotalCredits m) (MonthlySummary.CreditCount m)
                  (MonthlySummary.AverageCredit m)) /\
  (g <> [] -> Forall wellFormed g ->
   guardedAverage (MonthlySummary.TotalDebits m) (MonthlySummary.DebitCount m)
                  (MonthlySummary.AverageDebit m)) /\
  (exp (MonthlySummary.TotalCredits m) <= 1)%Z /\
  (exp (MonthlySummary.TotalDebits m) <= 1)%Z /\
  (Forall wellFormed g ->
   (MinInt32 <= exp (MonthlySummary.TotalCredits m))%Z /\
   (MinInt32 <= exp (MonthlySummary.TotalDebits m))%Z).
Proof.
  unfold calculateMonthlySummary.
  destruct g as [|tx0 rest].
  - intros [= <-]. cbn [MonthlySummary.TotalCredits MonthlySummary.TotalDebits
                        MonthlySummary.CreditCount MonthlySummary.DebitCount
                        MonthlySummary.AverageCredit MonthlySummary.AverageDebit
                        map sumQ].
    rewrite toQ_Zero.
    repeat split; try reflexivity; try discriminate; intros H; contradiction.
  - destruct (fold_left tally (tx0 :: rest) (Zero, Zero, 0%Z, 0%Z))
      as [[[tc td] cc] dc] eqn:Hf.
    destruct (fold_tally_from_Zero _ _ _ _ _ Hf) as (Q1 & Q2 & C1 & C2 & E1 & E2 & Elo).
    pose proof (countIf_nonneg IsCredit (tx0 :: rest)) as N1.
    pose proof (countIf_nonneg IsDebit (tx0 :: rest)) as N2.
    destruct (if (cc >? 0)%Z then Div tc (NewFromInt cc) else Some zeroValue)
      as [ac|] eqn:Hac; [|discriminate].
    destruct (if (dc >? 0)%Z then Div td (NewFromInt dc) else Some zeroValue)
      as [ad|] eqn:Had; [|discriminate].
    intros [= <-].
    cbn [MonthlySummary.TotalCredits MonthlySummary.TotalDebits
         MonthlySummary.CreditCount MonthlySummary.DebitCount
         MonthlySummary.AverageCredit MonthlySummary.AverageDebit].
    split; [exact Q1|]. split; [exact Q2|].
    split; [|split; [|split; [exact E1|split; [exact E2|exact Elo]]]].
    + intros _ Hwf. destruct (Elo Hwf) as [L1 _].
      apply guardedAverage_of; [lia | split; assumption | exact Hac].
    + intros _ Hwf. destruct (Elo Hwf) as [_ L2].
      apply guardedAverage_of; [lia | split; assumption | exact Had].
Qed.

Lemma inMonth_wellFormed (k : string) (txs : list Transaction.t) :
  Forall wellFormed txs -> Forall wellFormed (inMonth k txs).
Proof.
  intros H. apply Forall_forall. intros tx Hin.
  apply list_elem_of_filter in Hin as [_ Hin].
  rewrite Forall_forall in H. apply H, Hin.
Qed.

Lemma group_wellFormed (txs : list Transaction.t) (k : string)
    (g : list Transaction.t) :
  Forall wellFormed txs -> groupTransactionsByMonth txs !! k = Some g ->
  Forall wellFormed g.
Proof.
  intros Hwf Hk. rewrite group_lookup in Hk.
  pose proof (inMonth_wellFormed k txs Hwf) as Hg.
  destruct (inMonth k txs); [discriminate|]. injection Hk as <-. exact Hg.
Qed.

(** [CalculateSummary] returns for every collection of well-formed
    transactions. *)
Lemma CalculateSummary_returns (clock : Clock) (accountID : string)
    (txs : list Transaction.t) :
  Forall wellFormed txs ->
  exists summary, CalculateSummary clock accountID txs = Some summary.
Proof.
  intros Hwf. unfold CalculateSummary. destruct txs as [|tx txs]; [eexists; reflexivity|].
  pose proof (monthlySummariesOf_spec clock (groupTransactionsByMonth (tx :: txs))) as Hs.
  destruct (monthlySummariesOf clock (groupTransactionsByMonth (tx :: txs))) as [ms|].
  - eexists; reflexivity.
  - destruct Hs as (k & g & Hk & Hnone).
    destruct (calculateMonthlySummary_returns clock k g (group_wellFormed _ _ _ Hwf Hk))
      as [m Hm].
    congruence.
Qed.

Lemma credit_debit_parts (txs : list Transaction.t) :
  Forall (fun tx => Transaction.Type_ tx = Credit \/ Transaction.Type_ tx = Debit) txs ->
  sumQ (map creditPart txs) + sumQ (map debitPart txs) == sumQ (map amountQ txs).
Proof.
  induction 1 as [|tx txs Hk _ IH]; cbn [map sumQ].
  - reflexivity.
  - rewrite <- IH. unfold creditPart at 1. unfold debitPart at 1.
    unfold IsCredit, IsDebit.
    destruct Hk as [-> | ->];
      [change (String.eqb Credit Credit) with true;
       change (String.eqb Credit Debit) with false
      |change (String.eqb Debit Credit) with false;
       change (String.eqb Debit Debit) with true];
      cbv iota; ring.
Qed.

Lemma toQ_fold_Add (l : list Decimal) :
  forall acc, toQ (fold_left Add l acc) == toQ acc + sumQ (map toQ l).
Proof.
  induction l as [|d l IH]; intros acc; cbn [fold_left map sumQ].
  - rewrite Qplus_0_r. reflexivity.
  - rewrite IH, toQ_Add. rewrite Qplus_assoc. reflexivity.
Qed.

Lemma toQ_totalOverMonths (F : MonthlySummary.t -> Decimal)
    (ms : gmap string MonthlySummary.t) :
  toQ (totalOverMonths F ms) == sumOverMonths F ms.
Proof.
  unfold totalOverMonths, sumOverMonths, sumMapQ.
  rewrite toQ_fold_Add, toQ_Zero, Qplus_0_l, map_map. reflexivity.
Qed.

(** The totals of the months add up to the totals of the collection. *)
Lemma CalculateSummary_sums (clock : Clock) (accountID : string)
    (txs : list Transaction.t) (summary : AccountSummary.t) :
  CalculateSummary clock accountID txs = Some summary ->
  toQ (AccountSummary.TotalBalance summary) == sumQ (map amountQ txs) /\
  sumOverMonths MonthlySummary.TotalCredits (AccountSummary.MonthlySummaries summary)
    == sumQ (map creditPart txs) /\
  sumOverMonths MonthlySummary.TotalDebits (AccountSummary.MonthlySummaries summary)
    == sumQ (map debitPart txs).
Proof.
  unfold CalculateSummary. destruct txs as [|tx txs].
  - intros [= <-]. cbn [AccountSummary.TotalBalance AccountSummary.MonthlySummaries
                        map sumQ].
    unfold sumOverMonths.
    split; [exact toQ_Zero|]. split; apply sumMapQ_empty.
  - pose proof (monthlySummariesOf_spec clock (groupTransactionsByMonth (tx :: txs))) as Hs.
    destruct (monthlySummariesOf clock (groupTransactionsByMonth (tx :: txs))) as [ms|];
      [|discriminate].
    intros [= <-]. cbn [AccountSummary.TotalBalance AccountSummary.MonthlySummaries].
    split; [|split].
    + rewrite balance_fold, toQ_Add, toQ_Zero, Qplus_0_l. reflexivity.
    + unfold sumOverMonths.
      rewrite (sumMapQ_related _ (fun g => sumQ (map creditPart g))
                               (groupTransactionsByMonth (tx :: txs))).
      * unfold groupTransactionsByMonth.
        rewrite sumMapQ_groups, sumMapQ_empty, Qplus_0_l. reflexivity.
      * intros k. specialize (Hs k).
        destruct (groupTransactionsByMonth (tx :: txs) !! k) as [g|]; [|exact Hs].
        destruct Hs as (m & Hc & Hm). exists m. split; [exact Hm|].
        apply (calculateMonthlySummary_facts _ _ _ _ Hc).
    + unfold sumOverMonths.
      rewrite (sumMapQ_related _ (fun g => sumQ (map debitPart g))
                               (groupTransactionsByMonth (tx :: txs))).
      * unfold groupTransactionsByMonth.
        rewrite sumMapQ_groups, sumMapQ_empty, Qplus_0_l. reflexivity.
      * intros k. specialize (Hs k).
        destruct (groupTransactionsByMonth (tx :: txs) !! k) as [g|]; [|exact Hs].
        destruct Hs as (m & Hc & Hm). exists m. split; [exact Hm|].
        apply (calculateMonthlySummary_facts _ _ _ _ Hc).
Qed.

(** C4.  For every transaction collection in which each transaction's
    kind is Credit or Debit, the summary that [CalculateSummary] returns
    has a total balance equal to the sum over all monthly summaries of
    the total credits plus the sum over all monthly summaries of the total
    debits, and equal to the exact sum of the amounts of all
    transactions.  The equalities are those of the numbers the decimals
    stand for; the third part states the first with [Decimal.Equal] on the
    decimals added up as the formatter adds them. *)
Theorem CalculateSummary_total_balance (clock : Clock) (accountID : string)
    (txs : list Transaction.t) (summary : AccountSummary.t) :
  Forall (fun tx => Transaction.Type_ tx = Credit \/ Transaction.Type_ tx = Debit) txs ->
  CalculateSummary clock accountID txs = Some summary ->
  toQ (AccountSummary.TotalBalance summary)
    == sumOverMonths MonthlySummary.TotalCredits (AccountSummary.MonthlySummaries summary)
       + sumOverMonths MonthlySummary.TotalDebits (AccountSummary.MonthlySummaries summary)
  /\ toQ (AccountSummary.TotalBalance summary) == sumQ (map amountQ txs)
  /\ Equal (AccountSummary.TotalBalance summary)
           (Add (totalOverMonths MonthlySummary.TotalCredits
                                 (AccountSummary.MonthlySummaries summary))
                (totalOverMonths MonthlySummary.TotalDebits
                                 (AccountSummary.MonthlySummaries summary))) = true.
Proof.
  intros Hkinds Hs.
  destruct (CalculateSummary_sums _ _ _ _ Hs) as (Hb & Hc & Hd).
  assert (H1 : toQ (AccountSummary.TotalBalance summary)
               == sumOverMonths MonthlySummary.TotalCredits
                                (AccountSummary.MonthlySummaries summary)
                  + sumOverMonths MonthlySummary.TotalDebits
                                  (AccountSummary.MonthlySummaries summary)).
  { rewrite Hb, Hc, Hd. symmetry. apply credit_debit_parts, Hkinds. }
  split; [exact H1|]. split; [exact Hb|].
  apply Equal_spec. rewrite toQ_Add, !toQ_totalOverMonths. exact H1.
Qed.

End averages.

(** ** The report formatter *)

Section report.

Lemma string_app_nil_r (s : string) : s ++ "" = s.
Proof.
  induction s as [|c s IH]; [reflexivity|].
  change (String c (s ++ "") = String c s). rewrite IH. reflexivity.
Qed.

Lemma overallStep_fold (order : list (string * MonthlySummary.t)) :
  forall tc0 td0 cc0 dc0 tc td cc dc,
    fold_left overallStep order (tc0, td0, cc0, dc0) = (tc, td, cc, dc) ->
    exp tc <= exp tc0 /\ exp td <= exp td0 /\
    (forall lo,
        lo <= exp tc0 -> lo <= exp td0 ->
        Forall (fun e => lo <= exp (MonthlySummary.TotalCredits (snd e))
                         /\ lo <= exp (MonthlySummary.TotalDebits (snd e))) order ->
        lo <= exp tc /\ lo <= exp td).
Proof.
  induction order as [|e order IH]; intros tc0 td0 cc0 dc0 tc td cc dc H.
  - cbn [fold_left] in H. injection H as <- <- <- <-.
    repeat split; try lia; assumption.
  - cbn [fold_left] in H. unfold overallStep at 2 in H.
    destruct (IH _ _ _ _ _ _ _ _ H) as (E1 & E2 & Elo).
    rewrite exp_Add in E1, E2.
    split; [lia|]. split; [lia|].
    intros lo L1 L2 HF. inversion HF as [|? ? [He1 He2] HF']; subst.
    apply Elo; try assumption; rewrite exp_Add; lia.
Qed.

(** The overall totals are the sums of the monthly totals and counts. *)
Lemma overallStep_sums (order : list (string * MonthlySummary.t)) :
  forall tc0 td0 cc0 dc0 tc td cc dc,
    fold_left overallStep order (tc0, td0, cc0, dc0) = (tc, td, cc, dc) ->
    (toQ tc == toQ tc0
               + sumQ (map (fun e => toQ (MonthlySummary.TotalCredits (snd e))) order))%Q /\
    (toQ td == toQ td0
               + sumQ (map (fun e => toQ (MonthlySummary.TotalDebits (snd e))) order))%Q /\
    cc = cc0 + fold_right Z.add 0 (map (fun e => MonthlySummary.CreditCount (snd e)) order) /\
    dc = dc0 + fold_right Z.add 0 (map (fun e => MonthlySummary.DebitCount (snd e)) order).
Proof.
  induction order as [|e order IH]; intros tc0 td0 cc0 dc0 tc td cc dc H.
  - cbn [fold_left] in H. injection H as <- <- <- <-. cbn [map sumQ fold_right].
    rewrite !Qplus_0_r. repeat split; try reflexivity; lia.
  - cbn [fold_left] in H. unfold overallStep at 2 in H.
    destruct (IH _ _ _ _ _ _ _ _ H) as (Q1 & Q2 & C1 & C2).
    rewrite toQ_Add in Q1, Q2. cbn [map sumQ fold_right].
    split; [rewrite Q1; ring|]. split; [rewrite Q2; ring|]. split; lia.
Qed.



Lemma averageLine_of (label : string) (total : Decimal) (count : Z)
    (ending : string) (result : string) :
  0 <= count -> MinInt32 <= exp total <= 1 ->
  exists line,
    (if count >? 0
     then match Div total (NewFromInt count) with
          | Some average => Some (result ++ label ++ StringFixed average 2 ++ ending)
          | None => None
          end
     else Some result) = Some (result ++ line) /\
    averageLine label total count ending line.
Proof.
  intros Hc He. unfold averageLine.
  destruct (Z.gtb_spec count 0) as [Hpos|Hle].
  - destruct (Div_returns total count ltac:(lia) He) as [average Ha].
    exists (label ++ StringFixed average 2 ++ ending).
    split; [rewrite Ha; reflexivity|].
    left. split; [lia|]. exists average. split; [exact Ha|].
    split; [|reflexivity]. apply Div_quotient; [lia | exact He | exact Ha].
  - exists "". split; [rewrite string_app_nil_r; reflexivity|].
    right. split; [lia | reflexivity].
Qed.

(** The report, once the exponents of the overall totals are known to be
    of a total: the head, the month lines, and the two average lines,
    each there with its quotient or left out. *)
Lemma FormatSummaryForEmail_in_spec (order1 order2 : list (string * MonthlySummary.t))
    (summary : AccountSummary.t) (tc td : Decimal) (cc dc : Z) :
  overallTotals order2 = (tc, td, cc, dc) ->
  0 <= cc -> 0 <= dc ->
  MinInt32 <= exp tc <= 1 -> MinInt32 <= exp td <= 1 ->
  exists dline cline,
    FormatSummaryForEmail_in order1 order2 summary =
    Some ((monthLines ("Total balance is "
                         ++ StringFixed (AccountSummary.TotalBalance summary) 2
                         ++ newline) order1 ++ dline) ++ cline) /\
    averageLine "Average debit amount: " td dc newline dline /\
    averageLine "Average credit amount: " tc cc "" cline.
Proof.
  intros Htot Hcc Hdc Hc Hd. unfold FormatSummaryForEmail_in. rewrite Htot.
  set (head := monthLines _ order1).
  destruct (averageLine_of "Average debit amount: " td dc newline head Hdc Hd)
    as (dline & Ed & Hdline).
  rewrite Ed.
  destruct (averageLine_of "Average credit amount: " tc cc "" (head ++ dline) Hcc Hc)
    as (cline & Ec & Hcline).
  exists dline, cline. split; [|split; assumption].
  destruct (cc >? 0).
  - destruct (Div tc (NewFromInt cc)) as [ac|]; [|discriminate].
    rewrite string_app_nil_r in Ec. exact Ec.
  - exact Ec.
Qed.

Lemma calculateMonthlySummary_counts (clock : Clock) (k : string)
    (g : list Transaction.t) (m : MonthlySummary.t) :
  calculateMonthlySummary clock k g = Some m ->
  MonthlySummary.TransactionCount m = Z.of_nat (length g) /\
  MonthlySummary.CreditCount m = countIf IsCredit g /\
  MonthlySummary.DebitCount m = countIf IsDebit g.
Proof.
  unfold calculateMonthlySummary.
  destruct g as [|tx0 rest].
  - intros [= <-]. repeat split.
  - destruct (fold_left tally (tx0 :: rest) (Zero, Zero, 0, 0))
      as [[[tc td] cc] dc] eqn:Hf.
    destruct (fold_tally_from_Zero _ _ _ _ _ Hf) as (_ & _ & C1 & C2 & _).
    destruct (if cc >? 0 then Div tc (NewFromInt cc) else Some zeroValue)
      as [ac|]; [|discriminate].
    destruct (if dc >? 0 then Div td (NewFromInt dc) else Some zeroValue)
      as [ad|]; [|discriminate].
    intros [= <-]. cbn. repeat split; assumption.
Qed.

Lemma CalculateSummary_entry (clock : Clock) (accountID : string)
    (txs : list Transaction.t) (summary : AccountSummary.t)
    (k : string) (m : MonthlySummary.t) :
  Forall wellFormed txs ->
  CalculateSummary clock accountID txs = Some summary ->
  AccountSummary.MonthlySummaries summary !! k = Some m ->
  exists g,
    calculateMonthlySummary clock k g = Some m /\ Forall wellFormed g /\ g <> [].
Proof.
  intros Hwf Hs Hk.
  pose proof (CalculateSummary_monthly _ _ _ _ Hs k) as Hm.
  pose proof (inMonth_wellFormed k txs Hwf) as Hg.
  destruct (inMonth k txs) as [|tx0 rest]; [congruence|].
  destruct Hm as (m' & Hc & Hm'). exists (tx0 :: rest).
  split; [congruence|]. split; [exact Hg | discriminate].
Qed.

Lemma sumZ_nonneg (l : list Z) :
  Forall (fun z => 0 <= z) l -> 0 <= fold_right Z.add 0 l.
Proof. induction 1; cbn [fold_right]; lia. Qed.

(** For a summary of [CalculateSummary], the formatter returns, whatever
    the order of its passes over the months. *)
Lemma report_returns (clock : Clock) (accountID : string)
    (txs : list Transaction.t) (summary : AccountSummary.t)
    (order1 order2 : list (string * MonthlySummary.t)) :
  Forall wellFormed txs ->
  CalculateSummary clock accountID txs = Some summary ->
  order2 ≡ₚ map_to_list (AccountSummary.MonthlySummaries summary) ->
  exists tc td cc dc dline cline,
    overallTotals order2 = (tc, td, cc, dc) /\
    FormatSummaryForEmail_in order1 order2 summary =
    Some ((monthLines ("Total balance is "
                         ++ StringFixed (AccountSummary.TotalBalance summary) 2
                         ++ newline) order1 ++ dline) ++ cline) /\
    averageLine "Average debit amount: " td dc newline dline /\
    averageLine "Average credit amount: " tc cc "" cline.
Proof.
  intros Hwf Hs Hp2.
  destruct (overallTotals order2) as [[[tc td] cc] dc] eqn:Htot.
  destruct (overallStep_fold _ _ _ _ _ _ _ _ _ Htot) as (E1 & E2 & Elo).
  destruct (overallStep_sums _ _ _ _ _ _ _ _ _ Htot) as (_ & _ & C1 & C2).
  assert (HF : Forall (fun e => MinInt32 <= exp (MonthlySummary.TotalCredits (snd e))
                                /\ MinInt32 <= exp (MonthlySummary.TotalDebits (snd e)))
                      order2).
  { apply Forall_forall. intros [k m] Hin. cbn [snd].
    rewrite Hp2 in Hin. apply elem_of_map_to_list in Hin.
    destruct (CalculateSummary_entry _ _ _ _ _ _ Hwf Hs Hin) as (g & Hc & Hg & _).
    destruct (calculateMonthlySummary_facts _ _ _ _ Hc) as (_ & _ & _ & _ & _ & _ & Hlo).
    exact (Hlo Hg). }
  assert (HN : Forall (fun e => 0 <= MonthlySummary.CreditCount (snd e)
                                /\ 0 <= MonthlySummary.DebitCount (snd e)) order2).
  { apply Forall_forall. intros [k m] Hin. cbn [snd].
    rewrite Hp2 in Hin. apply elem_of_map_to_list in Hin.
    destruct (CalculateSummary_entry _ _ _ _ _ _ Hwf Hs Hin) as (g & Hc & _ & _).
    destruct (calculateMonthlySummary_counts _ _ _ _ Hc) as (_ & -> & ->).
    split; apply countIf_nonneg. }
  assert (Hcc : 0 <= cc).
  { rewrite C1, Z.add_0_l. apply sumZ_nonneg. apply Forall_map.
    eapply Forall_impl; [exact HN|]. intros e [H _]. exact H. }
  assert (Hdc : 0 <= dc).
  { rewrite C2, Z.add_0_l. apply sumZ_nonneg. apply Forall_map.
    eapply Forall_impl; [exact HN|]. intros e [_ H]. exact H. }
  destruct (Elo MinInt32 ltac:(discriminate) ltac:(discriminate) HF) as [L1 L2].
  destruct (FormatSummaryForEmail_in_spec order1 order2 summary tc td cc dc Htot
              Hcc Hdc (conj L1 E1) (conj L2 E2)) as (dline & cline & Hout & Hd & Hc).
  exists tc, td, cc, dc, dline, cline. repeat split; assumption.
Qed.


End report.

(** ** The calculator and the formatter on examples *)

(** C4 on three transactions. *)
Lemma CalculateSummary_total_balance_witness :
  exists summary,
    CalculateSummary sampleClock "acc" twoJulys = Some summary /\
    (toQ (AccountSummary.TotalBalance summary) == sumQ (map amountQ twoJulys))%Q.
Proof.
  assert (Hs : exists s, CalculateSummary sampleClock "acc" twoJulys = Some s)
    by (vm_compute; eexists; reflexivity).
  destruct Hs as [s Hs]. exists s. split; [exact Hs|].
  apply (CalculateSummary_total_balance sampleClock "acc" twoJulys s); [|exact Hs].
  repeat constructor; (left; reflexivity) || (right; reflexivity).
Defined.

(** C8 on two transactions of July of different years: one group, with the
    year of the first. *)
Lemma CalculateSummary_groups_by_month_name_witness :
  exists summary m,
    CalculateSummary sampleClock "acc" twoJulys = Some summary /\
    AccountSummary.MonthlySummaries summary !! "July" = Some m /\
    MonthlySummary.Month m = July /\
    MonthlySummary.Year m = 2023 /\
    MonthlySummary.TransactionCount m = 2.
Proof.
  assert (Hs : exists s, CalculateSummary sampleClock "acc" twoJulys = Some s)
    by (vm_compute; eexists; reflexivity).
  destruct Hs as [s Hs].
  pose proof (proj2 (proj2 (CalculateSummary_groups_by_month_name
                              sampleClock "acc" twoJulys s Hs)) "July") as H.
  change (inMonth "July" twoJulys)
    with [ sampleTx (mkTime 2023 July 15 0 0 0 0 UTC) (mkDecimal 605 (-1)) Credit;
           sampleTx (mkTime 2024 July 28 0 0 0 0 UTC) (mkDecimal (-103) (-1)) Debit ] in H.
  destruct H as (m & Hm & HMonth & HYear & HCount).
  exists s, m. repeat split; assumption.
Defined.



(** C3.  The four rows [(1,"7/15","+60.5")], [(2,"7/28","-10.3")],
    [(3,"8/2","-20.46")], [(4,"8/13","+10")], whatever the current year:
    the ingestion driver reads four transactions; the aggregator gives a
    total balance of 39.74 and exactly two monthly groups, July with 2
    transactions, average credit 60.50 and average debit -10.30, and
    August with 2 transactions, average credit 10.00 and average debit
    -20.46; the formatter returns a report.  Every report it can return
    is the text of five lines that begins with ["Total balance is
    39.74"], has the lines of the two months in either order, and ends
    with ["Average debit amount: -15.38"] and ["Average credit amount:
    35.25"]; so these three are lines of it. *)
Theorem example_dataset (clock : Clock) (accountID : string) (ids : nat) :
  exists txs summary july august,
    ReadTransactions clock exampleRows accountID ids = inr txs /\
    length txs = 4%nat /\
    CalculateSummary clock accountID txs = Some summary /\
    Equal (AccountSummary.TotalBalance summary) (mkDecimal 3974 (-2)) = true /\
    dom (AccountSummary.MonthlySummaries summary) = {[ "July"; "August" ]} /\
    AccountSummary.MonthlySummaries summary !! "July" = Some july /\
    AccountSummary.MonthlySummaries summary !! "August" = Some august /\
    MonthlySummary.TransactionCount july = 2 /\
    Equal (MonthlySummary.AverageCredit july) (mkDecimal 6050 (-2)) = true /\
    Equal (MonthlySummary.AverageDebit july) (mkDecimal (-1030) (-2)) = true /\
    MonthlySummary.TransactionCount august = 2 /\
    Equal (MonthlySummary.AverageCredit august) (mkDecimal 1000 (-2)) = true /\
    Equal (MonthlySummary.AverageDebit august) (mkDecimal (-2046) (-2)) = true /\
    FormatSummaryForEmail summary (exampleReport "July" "August") /\
    FormatSummaryForEmail summary (exampleReport "August" "July") /\
    (forall out,
        FormatSummaryForEmail summary out ->
        (out = exampleReport "July" "August" \/ out = exampleReport "August" "July") /\
        In "Total balance is 39.74" (lines out) /\
        In "Average debit amount: -15.38" (lines out) /\
        In "Average credit amount: 35.25" (lines out) /\
        length (lines out) = 5%nat).
Proof.
  destruct clock as [cy now stamp].
  eexists. eexists. eexists. eexists.
  split; [vm_compute; reflexivity|].
  split; [reflexivity|].
  split; [vm_compute; reflexivity|].
  split; [vm_compute; reflexivity|].
  split; [vm_compute; reflexivity|].
  split; [vm_compute; reflexivity|].
  split; [vm_compute; reflexivity|].
  split; [reflexivity|].
  split; [vm_compute; reflexivity|].
  split; [vm_compute; reflexivity|].
  split; [reflexivity|].
  split; [vm_compute; reflexivity|].
  split; [vm_compute; reflexivity|].
  split; [|split].
  - unfold FormatSummaryForEmail. eexists. eexists.
    split; [vm_compute; apply perm_swap|].
    split; [reflexivity|]. vm_compute. reflexivity.
  - unfold FormatSummaryForEmail. eexists. eexists.
    split; [reflexivity|]. split; [reflexivity|]. vm_compute. reflexivity.
  - intros out (order1 & order2 & P1 & P2 & Hout).
    vm_compute in P1. vm_compute in P2.
    apply Permutation_sym, Permutation_length_2_inv in P1.
    apply Permutation_sym, Permutation_length_2_inv in P2.
    destruct P1 as [-> | ->], P2 as [-> | ->];
      vm_compute in Hout; injection Hout as <-;
      (split; [(left; reflexivity) || (right; reflexivity)|]);
      vm_compute; repeat split; auto 10.
Qed.

(** ** The date parser: what every result looks like *)

Section parsed_dates.

Lemma parseChunks_month (cs : list chunk) :
  forall val f f',
    parseChunks cs val f = inr f' ->
    fMonth f = -1 \/ 1 <= fMonth f <= 12 ->
    fMonth f' = -1 \/ 1 <= fMonth f' <= 12.
Proof.
  induction cs as [|[c|s] cs IH]; intros val f f' H Hf.
  - simpl in H. destruct (len val =? 0); inversion H; subst; exact Hf.
  - simpl in H. destruct val as [|c' r]; [discriminate|].
    destruct (Ascii.eqb c c'); [|discriminate]. exact (IH _ _ _ H Hf).
  - destruct s; simpl in H.
    + destruct (getnum val false) as [[m r]|]; [|discriminate].
      destruct ((m <=? 0) || (12 <? m)) eqn:E; [discriminate|].
      apply (IH _ _ _ H). cbn [fMonth]. right. lia.
    + destruct (getnum val true) as [[m r]|]; [|discriminate].
      destruct ((m <=? 0) || (12 <? m)) eqn:E; [discriminate|].
      apply (IH _ _ _ H). cbn [fMonth]. right. lia.
    + destruct (getnum val false) as [[d r]|]; [|discriminate].
      apply (IH _ _ _ H). exact Hf.
    + destruct (getnum val true) as [[d r]|]; [|discriminate].
      apply (IH _ _ _ H). exact Hf.
    + destruct (getLongYear val) as [[y r]|]; [|discriminate].
      apply (IH _ _ _ H). exact Hf.
Qed.

Lemma Parse_calendar_day (layout s : string) (t : Time) :
  Parse layout s = inr t ->
  exists y m d, t = mkTime y m d 0 0 0 0 UTC /\ 1 <= d <= daysIn m y.
Proof.
  unfold Parse. intros H.
  destruct (parseChunks (chunks layout) s (mkFields 0 (-1) (-1))) as [e|f] eqn:E;
    [discriminate|].
  pose proof (parseChunks_month _ _ _ _ E (or_introl eq_refl)) as Hm.
  cbv zeta in H.
  set (month := if fMonth f <? 0 then 1 else fMonth f) in *.
  set (day := if fDay f <? 1 then 1 else fDay f) in *.
  assert (Hmonth : 1 <= month <= 12).
  { subst month. destruct (fMonth f <? 0) eqn:E0; lia. }
  clearbody month.
  destruct ((_ <? 1) || _) eqn:Eday in H; [discriminate|].
  inversion H; subst t; clear H.
  apply orb_false_iff in Eday. destruct Eday as [D1 D2].
  exists (fYear f), (Month_of_Z month), (if fDay f <? 0 then 1 else fDay f).
  split.
  - rewrite <- (Month_to_of_Z month Hmonth) at 1. apply Date_valid. lia.
  - lia.
Qed.

Lemma daysIn_year (m : Month) (y y' : Z) :
  m <> February -> daysIn m y = daysIn m y'.
Proof. destruct m; intros H; try reflexivity. congruence. Qed.

Lemma parseDate_from_calendar_day (clock : Clock) (fs : list string)
    (s : string) (t : Time) :
  parseDate_from clock fs s = inr t ->
  calendarDay t /\ midnightUTC t /\
  (tYear t = currentYear clock \/ tYear t <> 0).
Proof.
  induction fs as [|format fs IH]; [discriminate|].
  rewrite parseDate_from_cons.
  destruct (Parse format s) as [e|date] eqn:EP; [exact IH|].
  destruct (Parse_calendar_day _ _ _ EP) as (y & m & d & -> & Hd).
  unfold Year; cbn [tYear].
  destruct (y =? 0) eqn:Ey; intros H; inversion H; subst t; clear H.
  - apply Z.eqb_eq in Ey. subst y. rewrite AddDate_years.
    change (0 + currentYear clock) with (currentYear clock).
    destruct (Z_le_gt_dec d (daysIn m (currentYear clock))) as [Hle|Hgt].
    + rewrite Date_valid by lia.
      unfold calendarDay, midnightUTC; cbn. repeat split; try lia; now left.
    + assert (m = February).
      { destruct m; try reflexivity; cbn in Hd, Hgt; lia. }
      subst m. cbn [daysIn] in Hd, Hgt.
      change (isLeap 0) with true in Hd.
      destruct (isLeap (currentYear clock)) eqn:EL; [lia|].
      assert (d = 29) by lia. subst d.
      change (Month_to_Z February) with 2.
      rewrite (Date_leap_day _ _ EL).
      unfold calendarDay, midnightUTC; cbn. repeat split; try lia; now left.
  - apply Z.eqb_neq in Ey.
    unfold calendarDay, midnightUTC; cbn. repeat split; try lia; now right.
Qed.


End parsed_dates.


(** ** The ingestion driver: what a successful run returns *)

Section ingested.
Variable clock : Clock.
Variable accountID : string.

Lemma parseTransaction_inr (record : list string) (ids ids' : nat)
    (tx : Transaction.t) :
  parseTransaction clock record accountID ids = (inr tx, ids') ->
  exists f0 f1 f2,
    record = [f0; f1; f2] /\ TrimSpace f0 <> "" /\
    parseDate clock (TrimSpace f1) = inr (Transaction.Date tx) /\
    parseAmount (TrimSpace f2) = inr (Transaction.Amount tx, Transaction.Type_ tx) /\
    ids' = S ids /\ Transaction.ID tx = ids /\
    Transaction.AccountID tx = accountID /\
    Transaction.Description tx = "Transaction " ++ TrimSpace f0 /\
    Transaction.CreatedAt tx = stampUTC clock (2 * ids) /\
    Transaction.UpdatedAt tx = stampUTC clock (2 * ids + 1).
Proof.
  unfold parseTransaction.
  destruct record as [|f0 [|f1 [|f2 [|f3 r]]]]; try discriminate.
  destruct (String.eqb (TrimSpace f0) "") eqn:E0; [discriminate|].
  destruct (parseDate clock (TrimSpace f1)) as [e|date] eqn:Ed; [discriminate|].
  destruct (parseAmount (TrimSpace f2)) as [e|[amount kind]] eqn:Ea; [discriminate|].
  intros H. inversion H; subst; clear H. cbn.
  exists f0, f1, f2. apply String.eqb_neq in E0.
  repeat split; try assumption; reflexivity.
Qed.

Lemma Read_inr (raw : rawRecord) (record : list string) :
  Read 3 raw = inr record -> raw = Fields record.
Proof.
  destruct raw as [r|msg]; cbn; [|discriminate].
  destruct (Z.of_nat (length r) =? 3); [|discriminate].
  intros H; inversion H; reflexivity.
Qed.

Lemma readLoop_rows (stream : list rawRecord) :
  forall (n ids : nat) (acc txs : list Transaction.t),
    readLoop clock stream accountID (Z.of_nat n) ids acc = inr txs ->
    exists new,
      txs = (acc ++ new)%list /\ txs <> [] /\
      length new = length (if Nat.eqb n 0 then dataRows stream else stream) /\
      forall i raw,
        (if Nat.eqb n 0 then dataRows stream else stream) !! i = Some raw ->
        exists tx, new !! i = Some tx /\ parsesTo clock accountID (ids + i) raw tx.
Proof.
  induction stream as [|raw rest IH]; intros n ids acc txs H.
  - cbn in H. destruct (Z.of_nat (length acc) =? 0) eqn:E; [discriminate|].
    inversion H; subst txs; clear H.
    exists []. rewrite app_nil_r.
    split; [reflexivity|]. split.
    { intros ->. discriminate. }
    split; [destruct (Nat.eqb n 0); reflexivity|].
    intros i raw. destruct (Nat.eqb n 0); cbn; intros Hi; discriminate.
  - rewrite readLoop_cons in H.
    unfold dataRows, skippedAsHeader.
    destruct (Read 3 raw) as [e|record] eqn:ER; [discriminate|].
    rewrite first_line in H.
    replace (Z.of_nat n + 1) with (Z.of_nat (S n)) in H by lia.
    destruct (Nat.eqb n 0 && isHeaderRow record) eqn:EH.
    + apply andb_true_iff in EH. destruct EH as [En EH]. rewrite En.
      specialize (IH _ _ _ _ H). cbn [Nat.eqb] in IH.
      change (Nat.eqb 0 0 && isHeaderRow record) with (isHeaderRow record).
      rewrite EH. exact IH.
    + destruct (parseTransaction clock record accountID ids) as [[e|tx] ids'] eqn:EP;
        [discriminate|].
      destruct (parseTransaction_inr _ _ _ _ EP) as (f0 & f1 & f2 & _ & _ & _ & _ & -> & _).
      specialize (IH _ _ _ _ H). cbn [Nat.eqb] in IH.
      destruct IH as (new & -> & Hne & Hlen & Hrows).
      assert (Hrow : (if Nat.eqb n 0
                      then if Nat.eqb 0 0 && isHeaderRow record then rest else raw :: rest
                      else raw :: rest) = raw :: rest).
      { destruct (Nat.eqb n 0); [|reflexivity].
        cbn [andb Nat.eqb] in EH |- *. rewrite EH. reflexivity. }
      rewrite Hrow.
      exists (tx :: new). rewrite <- app_assoc in Hne |- *. cbn [app] in Hne |- *.
      split; [reflexivity|]. split; [exact Hne|].
      split; [cbn [length]; congruence|].
      intros [|i] raw'; cbn; intros Hi.
      * inversion Hi; subst raw'. exists tx. split; [reflexivity|].
        exists record. split; [exact (Read_inr _ _ ER)|].
        rewrite Nat.add_0_r. exact EP.
      * destruct (Hrows i raw' Hi) as (tx' & Hn & Hp).
        exists tx'. split; [exact Hn|].
        replace (ids + S i)%nat with (S ids + i)%nat by lia. exact Hp.
Qed.


(** X1.  A successful run of [ReadTransactions] returns exactly one
    transaction per data row, in the order of the rows: the transaction at
    position [i] is what the record parser makes of the data row at
    position [i].  The data rows are all rows of the stream, but for a
    first row skipped as a header; no other row is ever skipped, and the
    result is never empty. *)
Theorem ReadTransactions_one_per_row (stream : list rawRecord) (ids : nat)
    (txs : list Transaction.t) :
  ReadTransactions clock stream accountID ids = inr txs ->
  txs <> [] /\
  length txs = length (dataRows stream) /\
  forall i raw,
    dataRows stream !! i = Some raw ->
    exists tx, txs !! i = Some tx /\ parsesTo clock accountID (ids + i) raw tx.
Proof.
  intros H.
  destruct (readLoop_rows stream 0 ids [] txs H) as (new & -> & Hne & Hlen & Hrows).
  cbn [Nat.eqb app] in *. auto.
Qed.



End ingested.

Lemma ReadTransactions_one_per_row_witness :
  match ReadTransactions sampleClock exampleRows "acc" 0 with
  | inr txs => length txs = 4%nat
  | inl _ => False
  end.
Proof.
  destruct (ReadTransactions sampleClock exampleRows "acc" 0) as [e|txs] eqn:H;
    [vm_compute in H; discriminate|].
  exact (proj1 (proj2 (ReadTransactions_one_per_row sampleClock "acc" exampleRows 0%nat
                         txs H))).
Defined.


(** ** The ingestion driver: what every transaction it returns satisfies *)

Section ingested_transactions.

Lemma NewFromString_exp_int32 (val : string) (d : Decimal) :
  NewFromString val = Some d -> MinInt32 <= exp d <= MaxInt32.
Proof.
  unfold NewFromString, NewFromString_mantissa.
  destruct (IndexAny_Ee val) as [eIndex|];
    [destruct (strconv.ParseInt _ 32) as [expInt|]; [|discriminate]|];
    (destruct (pointIndex _ 0 None) as [|[p|]]; [discriminate| |]);
    (destruct (strconv.signedDigits _); [|discriminate]);
    (destruct (_ || _) eqn:E; [discriminate|]);
    intros [= <-]; cbn [exp];
    apply orb_false_iff in E; destruct E as [E1 E2];
    apply Z.ltb_ge in E1; rewrite Z.gtb_ltb in E2; apply Z.ltb_ge in E2;
    split; assumption.
Qed.

Lemma parseAmount_valid (s : string) (amount : Decimal) (kind : TransactionType) :
  parseAmount s = inr (amount, kind) ->
  (kind = Credit \/ kind = Debit) /\
  (Qabs (toQ amount) <= 1000000)%Q /\
  -2 <= exp amount <= MaxInt32.
Proof.
  intros H.
  destruct (parseAmount_inr s amount kind H) as (d & Hd & Hk & Ha & Hmax & Hexp).
  split; [|split; [|split; [exact Hexp|]]].
  - rewrite Hk. destruct (kindOfSign_cases s) as [[-> _]|[-> _]]; [right|left]; reflexivity.
  - rewrite <- toQ_Abs. rewrite Ha, Hk. rewrite normalized_abs. exact Hmax.
  - pose proof (NewFromString_exp_int32 _ _ Hd) as [_ Hd2].
    rewrite Ha. unfold Neg, Abs.
    destruct (String.eqb kind Debit), (IsNegative d); cbn [exp]; exact Hd2.
Qed.

Lemma parseTransaction_valid (clock : Clock) (record : list string)
    (accountID : string) (ids ids' : nat) (tx : Transaction.t) :
  parseTransaction clock record accountID ids = (inr tx, ids') ->
  Transaction.AccountID tx = accountID /\
  (Transaction.Type_ tx = Credit \/ Transaction.Type_ tx = Debit) /\
  (Qabs (amountQ tx) <= 1000000)%Q /\
  -2 <= exp (Transaction.Amount tx) <= MaxInt32 /\
  calendarDay (Transaction.Date tx) /\ midnightUTC (Transaction.Date tx).
Proof.
  intros H.
  destruct (parseTransaction_inr _ _ _ _ _ _ H)
    as (f0 & f1 & f2 & _ & _ & Hdate & Hamount & _ & _ & Hacc & _).
  destruct (parseAmount_valid _ _ _ Hamount) as (Hk & Hm & He).
  destruct (parseDate_from_calendar_day _ _ _ _ Hdate) as (Hd & Hu & _).
  exact (conj Hacc (conj Hk (conj Hm (conj He (conj Hd Hu))))).
Qed.

(** X5.  Every transaction that [ReadTransactions] returns belongs to the
    account asked for, is a credit or a debit, has an amount of magnitude
    at most 1,000,000 with at most 2 digits after the decimal point (an
    exponent of -2 or more), and is dated on a day of the calendar, at
    midnight, in UTC; the absolute amount that [GetAbsoluteAmount]
    returns for it is at most 1,000,000 too. *)
Theorem ReadTransactions_transactions_valid (clock : Clock)
    (stream : list rawRecord) (accountID : string) (ids : nat)
    (txs : list Transaction.t) :
  ReadTransactions clock stream accountID ids = inr txs ->
  Forall (fun tx =>
            Transaction.AccountID tx = accountID /\
            (Transaction.Type_ tx = Credit \/ Transaction.Type_ tx = Debit) /\
            (Qabs (amountQ tx) <= 1000000)%Q /\
            -2 <= exp (Transaction.Amount tx) <= MaxInt32 /\
            calendarDay (Transaction.Date tx) /\ midnightUTC (Transaction.Date tx) /\
            (toQ (domainMethods.GetAbsoluteAmount tx) <= 1000000)%Q) txs.
Proof.
  intros H. unfold ReadTransactions in H.
  apply (readLoop_Forall _ clock accountID) with (3 := H); [|constructor].
  intros record n tx n' Hp.
  destruct (parseTransaction_valid _ _ _ _ _ _ Hp) as (A & K & M & E & D & U).
  refine (conj A (conj K (conj M (conj E (conj D (conj U _)))))).
  unfold domainMethods.GetAbsoluteAmount. rewrite toQ_Abs. exact M.
Qed.

(** What [CalculateSummary] copies into the summary. *)
Lemma CalculateSummary_header (clock : Clock) (accountID : string)
    (txs : list Transaction.t) (summary : AccountSummary.t) :
  CalculateSummary clock accountID txs = Some summary ->
  AccountSummary.AccountID summary = accountID /\
  AccountSummary.ProcessedAt summary = nowUTC clock /\
  AccountSummary.TotalTransactions summary = Z.of_nat (length txs).
Proof.
  unfold CalculateSummary. destruct txs as [|tx txs].
  - intros [= <-]. repeat split.
  - destruct (monthlySummariesOf _ _); [|discriminate].
    intros [= <-]. repeat split.
Qed.

(** X6.  Ingestion and aggregation compose: whatever [ReadTransactions]
    returns, [CalculateSummary] returns a summary for it (no division
    panics), for any account and at any time; the summary counts one
    transaction per data row, its total balance is the sum of the monthly
    total credits and total debits, and the formatter returns a report
    for it, whatever the order of its passes over the months. *)
Theorem ReadTransactions_then_CalculateSummary (clock clock' : Clock)
    (stream : list rawRecord) (accountID accountID' : string) (ids : nat)
    (txs : list Transaction.t) :
  ReadTransactions clock stream accountID ids = inr txs ->
  exists summary,
    CalculateSummary clock' accountID' txs = Some summary /\
    AccountSummary.TotalTransactions summary = Z.of_nat (length (dataRows stream)) /\
    (toQ (AccountSummary.TotalBalance summary)
     == sumOverMonths MonthlySummary.TotalCredits (AccountSummary.MonthlySummaries summary)
        + sumOverMonths MonthlySummary.TotalDebits
                        (AccountSummary.MonthlySummaries summary))%Q /\
    (forall order1 order2,
        order2 ≡ₚ map_to_list (AccountSummary.MonthlySummaries summary) ->
        exists out, FormatSummaryForEmail_in order1 order2 summary = Some out).
Proof.
  intros H.
  assert (Hvalid : Forall (fun tx =>
                             (Transaction.Type_ tx = Credit \/ Transaction.Type_ tx = Debit)
                             /\ wellFormed tx) txs).
  { unfold ReadTransactions in H.
    apply (readLoop_Forall _ clock accountID) with (3 := H); [|constructor].
    intros record n tx n' Hp.
    destruct (parseTransaction_valid _ _ _ _ _ _ Hp) as (_ & K & _ & E & _).
    split; [exact K|]. unfold wellFormed, MinInt32. lia. }
  assert (Hwf : Forall wellFormed txs).
  { eapply Forall_impl; [exact Hvalid|]. intros tx [_ W]. exact W. }
  assert (Hkinds : Forall (fun tx => Transaction.Type_ tx = Credit
                                     \/ Transaction.Type_ tx = Debit) txs).
  { eapply Forall_impl; [exact Hvalid|]. intros tx [K _]. exact K. }
  destruct (CalculateSummary_returns clock' accountID' txs Hwf) as [summary Hs].
  exists summary. split; [exact Hs|].
  destruct (CalculateSummary_header _ _ _ _ Hs) as (_ & _ & Hn).
  destruct (readLoop_rows clock accountID stream 0 ids [] txs H)
    as (new & -> & _ & Hlen & _).
  cbn [Nat.eqb app] in *.
  split; [rewrite Hn, Hlen; reflexivity|]. split.
  - destruct (CalculateSummary_sums _ _ _ _ Hs) as (Hb & Hc & Hd).
    rewrite Hb, Hc, Hd. symmetry. apply credit_debit_parts, Hkinds.
  - intros order1 order2 Hp2.
    destruct (report_returns clock' accountID' new summary order1 order2 Hwf Hs Hp2)
      as (tc & td & cc & dc & dline & cline & _ & Hout & _).
    eexists. exact Hout.
Qed.

End ingested_transactions.

Lemma ReadTransactions_transactions_valid_witness :
  match ReadTransactions sampleClock exampleRows "acc" 0 with
  | inr txs => Forall (fun tx => Transaction.AccountID tx = "acc") txs
  | inl _ => False
  end.
Proof.
  destruct (ReadTransactions sampleClock exampleRows "acc" 0) as [e|txs] eqn:H;
    [vm_compute in H; discriminate|].
  eapply Forall_impl;
    [exact (ReadTransactions_transactions_valid sampleClock exampleRows "acc" 0%nat txs H)|].
  intros tx [A _]. exact A.
Defined.

Lemma ReadTransactions_then_CalculateSummary_witness :
  match ReadTransactions sampleClock exampleRows "acc" 0 with
  | inr txs => exists summary, CalculateSummary sampleClock "acc" txs = Some summary
  | inl _ => False
  end.
Proof.
  destruct (ReadTransactions sampleClock exampleRows "acc" 0) as [e|txs] eqn:H;
    [vm_compute in H; discriminate|].
  destruct (ReadTransactions_then_CalculateSummary sampleClock sampleClock exampleRows
              "acc" "acc" 0%nat txs H) as (summary & Hs & _).
  exists summary. exact Hs.
Defined.

(** ** The calculator: month names and keys *)

Section month_names.

Lemma parseMonth_of_name (m : Month) : parseMonth (Month_String m) = m.
Proof. destruct m; reflexivity. Qed.

Lemma parseMonth_name (s : string) :
  parseMonth s <> January -> Month_String (parseMonth s) = s.
Proof.
  unfold parseMonth.
  repeat match goal with
         | |- context [String.eqb s ?n] => destruct (String.eqb_spec s n) as [->|?]
         end;
    try reflexivity; intros H; contradiction.
Qed.

Lemma parseMonth_default (s : string) :
  (forall m, Month_String m <> s) -> parseMonth s = January.
Proof.
  intros H. unfold parseMonth.
  repeat match goal with
         | |- context [String.eqb s ?n] => destruct (String.eqb_spec s n) as [->|?]
         end;
    try reflexivity;
    first [ exfalso; apply (H February); reflexivity
          | exfalso; apply (H March); reflexivity
          | exfalso; apply (H April); reflexivity
          | exfalso; apply (H May); reflexivity
          | exfalso; apply (H June); reflexivity
          | exfalso; apply (H July); reflexivity
          | exfalso; apply (H August); reflexivity
          | exfalso; apply (H September); reflexivity
          | exfalso; apply (H October); reflexivity
          | exfalso; apply (H November); reflexivity
          | exfalso; apply (H December); reflexivity ].
Qed.

(** X8.  The calculator's [parseMonth] inverts [Month.String]: it maps the
    English name of every month to that month; a string that it maps to a
    month other than January is the name of that month, written exactly
    so; every string that is not the name of a month is mapped to
    January. *)
Theorem parseMonth_inverts_Month_String :
  (forall m, parseMonth (Month_String m) = m) /\
  (forall s, parseMonth s <> January -> Month_String (parseMonth s) = s) /\
  (forall s, (forall m, Month_String m <> s) -> parseMonth s = January).
Proof.
  split; [exact parseMonth_of_name|]. split; [exact parseMonth_name|].
  exact parseMonth_default.
Qed.

(** X9.  The mail service's [parseMonth] agrees with the calculator's on
    the name of every month, and wherever the calculator's finds a month
    other than January; it also takes the names in lower case and the
    Spanish names, which the calculator's maps to January. *)
Theorem email_parseMonth_extends_parseMonth :
  (forall m, email.parseMonth (Month_String m) = m) /\
  (forall s, parseMonth s <> January -> email.parseMonth s = parseMonth s) /\
  (forall m, email.parseMonth (ToLower (Month_String m)) = m) /\
  map email.parseMonth
      [ "enero"; "febrero"; "marzo"; "abril"; "mayo"; "junio"; "julio"; "agosto";
        "septiembre"; "octubre"; "noviembre"; "diciembre" ] = allMonths /\
  (forall m, parseMonth (ToLower (Month_String m)) = January).
Proof.
  assert (H1 : forall m, email.parseMonth (Month_String m) = m)
    by (intros m; destruct m; reflexivity).
  split; [exact H1|]. split.
  - intros s Hs. rewrite <- (parseMonth_name s Hs) at 1. apply H1.
  - split; [intros m; destruct m; reflexivity|].
    split; [reflexivity|].
    intros m. destruct m; reflexivity.
Qed.

(** X7.  In a summary of [CalculateSummary] every monthly summary is
    stored under its own key: [GetMonthlyKey] of the summary stored under
    a key is that key, and [parseMonth] of the key is the month of the
    summary. *)
Theorem CalculateSummary_monthly_keys (clock : Clock) (accountID : string)
    (txs : list Transaction.t) (summary : AccountSummary.t)
    (k : string) (m : MonthlySummary.t) :
  CalculateSummary clock accountID txs = Some summary ->
  AccountSummary.MonthlySummaries summary !! k = Some m ->
  domainMethods.GetMonthlyKey m = k /\ parseMonth k = MonthlySummary.Month m.
Proof.
  intros Hs Hk.
  pose proof (CalculateSummary_monthly _ _ _ _ Hs k) as Hm.
  destruct (inMonth k txs) as [|tx0 rest] eqn:Eg; [congruence|].
  destruct Hm as (m' & Hc & Hm'). assert (m' = m) by congruence. subst m'.
  destruct (calculateMonthlySummary_sample _ _ _ _ _ Hc) as (HMonth & _).
  assert (Hin : tx0 ∈ inMonth k txs) by (rewrite Eg; left).
  apply list_elem_of_filter in Hin as [Hkey _].
  assert (Hname : domainMethods.GetMonthlyKey m = k).
  { unfold domainMethods.GetMonthlyKey. rewrite HMonth. exact Hkey. }
  split; [exact Hname|].
  rewrite <- Hname. apply parseMonth_of_name.
Qed.

End month_names.

Lemma CalculateSummary_monthly_keys_witness :
  exists summary m,
    CalculateSummary sampleClock "acc" twoJulys = Some summary /\
    AccountSummary.MonthlySummaries summary !! "August" = Some m /\
    domainMethods.GetMonthlyKey m = "August".
Proof.
  assert (Hs : exists s m, CalculateSummary sampleClock "acc" twoJulys = Some s
                           /\ AccountSummary.MonthlySummaries s !! "August" = Some m)
    by (vm_compute; eexists; eexists; split; reflexivity).
  destruct Hs as (s & m & Hs & Hm). exists s, m.
  split; [exact Hs|]. split; [exact Hm|].
  exact (proj1 (CalculateSummary_monthly_keys sampleClock "acc" twoJulys s "August" m Hs Hm)).
Defined.

(** ** The calculator: counts, signs and kinds *)

Section counts.

Lemma countIf_kinds (g : list Transaction.t) :
  countIf IsCredit g + countIf IsDebit g + countIf isOther g = Z.of_nat (length g).
Proof.
  induction g as [|tx g IH]; [reflexivity|].
  rewrite !countIf_cons. cbn [length]. unfold isOther at 1.
  destruct (IsCredit tx) eqn:Hc.
  - rewrite (IsCredit_not_IsDebit tx Hc). cbn [negb andb]. lia.
  - destruct (IsDebit tx); cbn [negb andb]; lia.
Qed.

Lemma countIf_isOther (g : list Transaction.t) :
  Forall (fun tx => Transaction.Type_ tx = Credit \/ Transaction.Type_ tx = Debit) g ->
  countIf isOther g = 0.
Proof.
  induction 1 as [|tx g Hk _ IH]; [reflexivity|].
  rewrite countIf_cons, IH. unfold isOther, IsCredit, IsDebit.
  destruct Hk as [-> | ->]; reflexivity.
Qed.

Lemma CalculateSummary_group (clock : Clock) (accountID : string)
    (txs : list Transaction.t) (summary : AccountSummary.t)
    (k : string) (m : MonthlySummary.t) :
  CalculateSummary clock accountID txs = Some summary ->
  AccountSummary.MonthlySummaries summary !! k = Some m ->
  calculateMonthlySummary clock k (inMonth k txs) = Some m /\ inMonth k txs <> [].
Proof.
  intros Hs Hk.
  pose proof (CalculateSummary_monthly _ _ _ _ Hs k) as Hm.
  destruct (inMonth k txs) as [|tx0 rest]; [congruence|].
  destruct Hm as (m' & Hc & Hm'). split; [congruence | discriminate].
Qed.

(** X10.  The counts of a monthly summary are those of the transactions
    with its month name: all of them, the credits and the debits.  A
    transaction that is neither a credit nor a debit is counted among the
    transactions of the month and in neither of the two other counts; the
    three counts agree when every transaction is a credit or a debit.  No
    month is stored without a transaction. *)
Theorem CalculateSummary_monthly_counts (clock : Clock) (accountID : string)
    (txs : list Transaction.t) (summary : AccountSummary.t)
    (k : string) (m : MonthlySummary.t) :
  CalculateSummary clock accountID txs = Some summary ->
  AccountSummary.MonthlySummaries summary !! k = Some m ->
  MonthlySummary.TransactionCount m = Z.of_nat (length (inMonth k txs)) /\
  MonthlySummary.CreditCount m = countIf IsCredit (inMonth k txs) /\
  MonthlySummary.DebitCount m = countIf IsDebit (inMonth k txs) /\
  MonthlySummary.TransactionCount m
  = MonthlySummary.CreditCount m + MonthlySummary.DebitCount m
    + countIf isOther (inMonth k txs) /\
  (Forall (fun tx => Transaction.Type_ tx = Credit \/ Transaction.Type_ tx = Debit) txs ->
   MonthlySummary.TransactionCount m
   = MonthlySummary.CreditCount m + MonthlySummary.DebitCount m) /\
  1 <= MonthlySummary.TransactionCount m.
Proof.
  intros Hs Hk.
  destruct (CalculateSummary_group _ _ _ _ _ _ Hs Hk) as [Hc Hne].
  destruct (calculateMonthlySummary_counts _ _ _ _ Hc) as (Ht & Hcc & Hdc).
  pose proof (countIf_kinds (inMonth k txs)) as Hsum.
  split; [exact Ht|]. split; [exact Hcc|]. split; [exact Hdc|].
  split; [lia|]. split.
  - intros Hkinds.
    assert (H0 : countIf isOther (inMonth k txs) = 0).
    { apply countIf_isOther. apply Forall_forall. intros tx Hin.
      apply list_elem_of_filter in Hin as [_ Hin].
      rewrite Forall_forall in Hkinds. exact (Hkinds tx Hin). }
    lia.
  - destruct (inMonth k txs); [contradiction|]. rewrite Ht. cbn [length]. lia.
Qed.

End counts.

Lemma CalculateSummary_monthly_counts_witness :
  exists summary m,
    CalculateSummary sampleClock "acc" twoJulys = Some summary /\
    AccountSummary.MonthlySummaries summary !! "July" = Some m /\
    MonthlySummary.TransactionCount m
    = MonthlySummary.CreditCount m + MonthlySummary.DebitCount m.
Proof.
  assert (Hs : exists s m, CalculateSummary sampleClock "acc" twoJulys = Some s
                           /\ AccountSummary.MonthlySummaries s !! "July" = Some m)
    by (vm_compute; eexists; eexists; split; reflexivity).
  destruct Hs as (s & m & Hs & Hm). exists s, m.
  split; [exact Hs|]. split; [exact Hm|].
  apply (CalculateSummary_monthly_counts sampleClock "acc" twoJulys s "July" m Hs Hm).
  repeat constructor; (left; reflexivity) || (right; reflexivity).
Defined.

(** ** The calculator: what the months add up to *)

Section month_sums.
Local Open Scope Q_scope.

Lemma sumQ_ones {A : Type} (g : list A) :
  sumQ (map (fun _ => 1) g) == inject_Z (Z.of_nat (length g)).
Proof.
  induction g as [|x g IH]; [reflexivity|].
  cbn [map sumQ length]. rewrite IH, Nat2Z.inj_succ.
  unfold Z.succ. rewrite inject_Z_plus. ring.
Qed.

Lemma countIf_sumQ (p : Transaction.t -> bool) (g : list Transaction.t) :
  inject_Z (countIf p g) == sumQ (map (fun t => if p t then 1 else 0) g).
Proof.
  unfold countIf. induction g as [|t l IH]; [reflexivity|].
  cbn [map sumQ List.filter]. rewrite <- IH.
  destruct (p t); cbn [length]; [|ring].
  rewrite Nat2Z.inj_succ. unfold Z.succ. rewrite inject_Z_plus. ring.
Qed.

Lemma countIf_all (g : list Transaction.t) :
  countIf (fun _ => true) g = Z.of_nat (length g).
Proof.
  unfold countIf. f_equal. f_equal.
  induction g as [|t l IH]; [reflexivity|]. cbn [List.filter]. f_equal. exact IH.
Qed.

Lemma sumMapZ_Q {A : Type} (F : A -> Z) (m : gmap string A) :
  inject_Z (sumMapZ F m) == sumMapQ (fun a => inject_Z (F a)) m.
Proof.
  unfold sumMapZ, sumMapQ. induction (map_to_list m) as [|e l IH]; [reflexivity|].
  cbn [map fold_right sumQ]. rewrite inject_Z_plus, IH. reflexivity.
Qed.

Lemma CalculateSummary_groups (clock : Clock) (accountID : string)
    (tx : Transaction.t) (txs : list Transaction.t) (summary : AccountSummary.t) :
  CalculateSummary clock accountID (tx :: txs) = Some summary ->
  forall k,
    match groupTransactionsByMonth (tx :: txs) !! k with
    | Some g => exists m, calculateMonthlySummary clock k g = Some m /\
                          AccountSummary.MonthlySummaries summary !! k = Some m
    | None => AccountSummary.MonthlySummaries summary !! k = None
    end.
Proof.
  unfold CalculateSummary.
  pose proof (monthlySummariesOf_spec clock (groupTransactionsByMonth (tx :: txs))) as Hs.
  destruct (monthlySummariesOf clock (groupTransactionsByMonth (tx :: txs))) as [ms|];
    [|discriminate].
  intros [= <-]. exact Hs.
Qed.

(** X11.  The transaction counts of the months add up to the number of
    transactions of the summary, and the credit and debit counts of the
    months to the numbers of credits and of debits in the collection. *)
Theorem CalculateSummary_counts_add_up (clock : Clock) (accountID : string)
    (txs : list Transaction.t) (summary : AccountSummary.t) :
  CalculateSummary clock accountID txs = Some summary ->
  sumMapZ MonthlySummary.TransactionCount (AccountSummary.MonthlySummaries summary)
  = AccountSummary.TotalTransactions summary /\
  AccountSummary.TotalTransactions summary = Z.of_nat (length txs) /\
  sumMapZ MonthlySummary.CreditCount (AccountSummary.MonthlySummaries summary)
  = countIf IsCredit txs /\
  sumMapZ MonthlySummary.DebitCount (AccountSummary.MonthlySummaries summary)
  = countIf IsDebit txs.
Proof.
  intros Hs.
  destruct (CalculateSummary_header _ _ _ _ Hs) as (_ & _ & Hn).
  assert (Hsum : forall (F : MonthlySummary.t -> Z) (p : Transaction.t -> bool),
             (forall k g m, calculateMonthlySummary clock k g = Some m ->
                            F m = countIf p g) ->
             sumMapZ F (AccountSummary.MonthlySummaries summary) = countIf p txs).
  { intros F p HF. apply inject_Z_injective. rewrite sumMapZ_Q.
    destruct txs as [|tx txs].
    - injection Hs as <-. reflexivity.
    - pose proof (CalculateSummary_groups _ _ _ _ _ Hs) as Hg.
      rewrite (sumMapQ_related _ (fun g => sumQ (map (fun t => if p t then 1 else 0) g))
                               (groupTransactionsByMonth (tx :: txs))).
      + unfold groupTransactionsByMonth.
        rewrite sumMapQ_groups, sumMapQ_empty, Qplus_0_l.
        symmetry. apply countIf_sumQ.
      + intros k. specialize (Hg k).
        destruct (groupTransactionsByMonth (tx :: txs) !! k) as [g|]; [|exact Hg].
        destruct Hg as (m & Hc & Hm). exists m. split; [exact Hm|].
        rewrite (HF _ _ _ Hc). apply countIf_sumQ. }
  split; [|split; [exact Hn|split]].
  - rewrite Hn.
    rewrite (Hsum MonthlySummary.TransactionCount (fun _ => true)).
    + apply countIf_all.
    + intros k g m Hc.
      destruct (calculateMonthlySummary_counts _ _ _ _ Hc) as (Ht & _).
      rewrite Ht. symmetry. apply countIf_all.
  - apply Hsum. intros k g m Hc.
    exact (proj1 (proj2 (calculateMonthlySummary_counts _ _ _ _ Hc))).
  - apply Hsum. intros k g m Hc.
    exact (proj2 (proj2 (calculateMonthlySummary_counts _ _ _ _ Hc))).
Qed.

Lemma parts_signs (g : list Transaction.t) :
  Forall (fun tx => signAgrees (Transaction.Amount tx) (Transaction.Type_ tx)) g ->
  0 <= sumQ (map creditPart g) /\ sumQ (map debitPart g) <= 0.
Proof.
  induction 1 as [|tx g Hs _ [IH1 IH2]]; cbn [map sumQ].
  - split; apply Qle_refl.
  - assert (Hc : 0 <= creditPart tx).
    { unfold creditPart, IsCredit, amountQ.
      destruct (String.eqb_spec (Transaction.Type_ tx) Credit) as [E|_]; [|apply Qle_refl].
      destruct Hs as [[_ H]|[E' _]]; [exact H|].
      rewrite E in E'. exfalso. exact (Credit_neq_Debit E'). }
    assert (Hd : debitPart tx <= 0).
    { unfold debitPart, IsDebit, amountQ.
      destruct (String.eqb_spec (Transaction.Type_ tx) Debit) as [E|_]; [|apply Qle_refl].
      destruct Hs as [[E' _]|[_ H]]; [|exact H].
      rewrite E in E'. exfalso. exact (Credit_neq_Debit (eq_sym E')). }
    split.
    + rewrite <- (Qplus_0_l 0). apply Qplus_le_compat; assumption.
    + rewrite <- (Qplus_0_l 0). apply Qplus_le_compat; assumption.
Qed.

(** X12.  When the amount of every transaction agrees in sign with its
    kind, as it does for all that the ingestion driver returns, the total
    credits of every month are not negative and its total debits are not
    positive. *)
Theorem CalculateSummary_totals_signs (clock : Clock) (accountID : string)
    (txs : list Transaction.t) (summary : AccountSummary.t)
    (k : string) (m : MonthlySummary.t) :
  Forall (fun tx => signAgrees (Transaction.Amount tx) (Transaction.Type_ tx)) txs ->
  CalculateSummary clock accountID txs = Some summary ->
  AccountSummary.MonthlySummaries summary !! k = Some m ->
  0 <= toQ (MonthlySummary.TotalCredits m) /\ toQ (MonthlySummary.TotalDebits m) <= 0.
Proof.
  intros Hsigns Hs Hk.
  destruct (CalculateSummary_group _ _ _ _ _ _ Hs Hk) as [Hc _].
  destruct (calculateMonthlySummary_facts _ _ _ _ Hc) as (Q1 & Q2 & _).
  rewrite Q1, Q2. apply parts_signs.
  apply Forall_forall. intros tx Hin.
  apply list_elem_of_filter in Hin as [_ Hin].
  rewrite Forall_forall in Hsigns. exact (Hsigns tx Hin).
Qed.

Lemma parts_add_up (txs : list Transaction.t) :
  sumQ (map creditPart txs) + sumQ (map debitPart txs) + sumQ (map otherPart txs)
  == sumQ (map amountQ txs).
Proof.
  induction txs as [|tx txs IH]; cbn [map sumQ]; [reflexivity|].
  rewrite <- IH. unfold creditPart at 1, debitPart at 1, otherPart at 1, isOther.
  destruct (IsCredit tx) eqn:Hc.
  - rewrite (IsCredit_not_IsDebit tx Hc). cbn [negb andb]. ring.
  - destruct (IsDebit tx); cbn [negb andb]; ring.
Qed.

(** X13.  The total balance is the sum of all amounts, of whatever kind:
    it exceeds the monthly total credits and total debits taken together
    by the amounts of the transactions that are neither credits nor
    debits, which enter no monthly total. *)
Theorem CalculateSummary_balance_of_other_kinds (clock : Clock) (accountID : string)
    (txs : list Transaction.t) (summary : AccountSummary.t) :
  CalculateSummary clock accountID txs = Some summary ->
  toQ (AccountSummary.TotalBalance summary)
  - (sumOverMonths MonthlySummary.TotalCredits (AccountSummary.MonthlySummaries summary)
     + sumOverMonths MonthlySummary.TotalDebits (AccountSummary.MonthlySummaries summary))
  == sumQ (map otherPart txs).
Proof.
  intros Hs. destruct (CalculateSummary_sums _ _ _ _ Hs) as (Hb & Hc & Hd).
  rewrite Hb, Hc, Hd, <- parts_add_up. ring.
Qed.

End month_sums.

Lemma CalculateSummary_counts_add_up_witness :
  exists summary,
    CalculateSummary sampleClock "acc" twoJulys = Some summary /\
    sumMapZ MonthlySummary.TransactionCount (AccountSummary.MonthlySummaries summary) = 3.
Proof.
  assert (Hs : exists s, CalculateSummary sampleClock "acc" twoJulys = Some s)
    by (vm_compute; eexists; reflexivity).
  destruct Hs as (s & Hs). exists s. split; [exact Hs|].
  destruct (CalculateSummary_counts_add_up sampleClock "acc" twoJulys s Hs) as (H1 & H2 & _).
  rewrite H1, H2. reflexivity.
Defined.

Lemma CalculateSummary_totals_signs_witness :
  exists summary m,
    CalculateSummary sampleClock "acc" twoJulys = Some summary /\
    AccountSummary.MonthlySummaries summary !! "July" = Some m /\
    (toQ (MonthlySummary.TotalDebits m) <= 0)%Q.
Proof.
  assert (Hs : exists s m, CalculateSummary sampleClock "acc" twoJulys = Some s
                           /\ AccountSummary.MonthlySummaries s !! "July" = Some m)
    by (vm_compute; eexists; eexists; split; reflexivity).
  destruct Hs as (s & m & Hs & Hm). exists s, m.
  split; [exact Hs|]. split; [exact Hm|].
  apply (CalculateSummary_totals_signs sampleClock "acc" twoJulys s "July" m); [|exact Hs|exact Hm].
  unfold twoJulys.
  constructor; [left; split; [reflexivity | vm_compute; discriminate]|].
  constructor; [right; split; [reflexivity | vm_compute; discriminate]|].
  constructor; [right; split; [reflexivity | vm_compute; discriminate]|].
  constructor.
Defined.

Lemma CalculateSummary_balance_of_other_kinds_witness :
  exists summary,
    CalculateSummary sampleClock "acc"
      [sampleTx (mkTime 2023 July 15 0 0 0 0 UTC) (mkDecimal 605 (-1)) "refund"]
    = Some summary /\
    (toQ (AccountSummary.TotalBalance summary)
     - (sumOverMonths MonthlySummary.TotalCredits (AccountSummary.MonthlySummaries summary)
        + sumOverMonths MonthlySummary.TotalDebits (AccountSummary.MonthlySummaries summary))
     == 605 # 10)%Q.
Proof.
  assert (Hs : exists s, CalculateSummary sampleClock "acc"
                 [sampleTx (mkTime 2023 July 15 0 0 0 0 UTC) (mkDecimal 605 (-1)) "refund"]
               = Some s)
    by (vm_compute; eexists; reflexivity).
  destruct Hs as (s & Hs). exists s. split; [exact Hs|].
  rewrite (CalculateSummary_balance_of_other_kinds sampleClock "acc" _ s Hs).
  vm_compute. reflexivity.
Defined.

(** ** The report: what does not depend on the order of the months *)

Section report_order.

Lemma Add_normal (a b : Decimal) :
  Add a b
  = mkDecimal (value a * 10 ^ (exp a - Z.min (exp a) (exp b))
               + value b * 10 ^ (exp b - Z.min (exp a) (exp b)))
              (Z.min (exp a) (exp b)).
Proof.
  unfold Add, RescalePair, rescale.
  destruct (Z.ltb_spec (exp a) (exp b)) as [Hlt|Hge].
  - destruct (Z.eqb_spec (exp b) (exp a)) as [|_]; [lia|].
    destruct (Z.gtb_spec (exp a) (exp b)) as [|_]; [lia|].
    cbn [value exp].
    rewrite (Z.min_l (exp a) (exp b)) by lia.
    rewrite Z.sub_diag, Z.pow_0_r, Z.mul_1_r.
    replace (Z.abs (exp a - exp b)) with (exp b - exp a) by lia. reflexivity.
  - destruct (Z.gtb_spec (exp a) (exp b)) as [Hgt|Hle].
    + destruct (Z.eqb_spec (exp a) (exp b)) as [|_]; [lia|].
      destruct (Z.gtb_spec (exp b) (exp a)) as [|_]; [lia|].
      cbn [value exp].
      rewrite (Z.min_r (exp a) (exp b)) by lia.
      rewrite Z.sub_diag, Z.pow_0_r, Z.mul_1_r.
      replace (Z.abs (exp b - exp a)) with (exp a - exp b) by lia. reflexivity.
    + assert (E : exp a = exp b) by lia.
      rewrite (Z.min_l (exp a) (exp b)) by lia.
      rewrite E, Z.sub_diag, Z.pow_0_r, !Z.mul_1_r. rewrite <- E.
      destruct a, b; cbn [value exp] in *. reflexivity.
Qed.

Lemma pow10_twice (v a b c : Z) :
  0 <= a -> 0 <= b -> c = a + b -> v * 10 ^ a * 10 ^ b = v * 10 ^ c.
Proof.
  intros Ha Hb ->. rewrite <- Z.mul_assoc, <- Z.pow_add_r by assumption. reflexivity.
Qed.

(** Adding two decimals to a third gives the same decimal, digits and
    exponent, in either order. *)
Lemma Add_swap (a x y : Decimal) : Add (Add a x) y = Add (Add a y) x.
Proof.
  rewrite !Add_normal. cbn [value exp].
  set (m := Z.min (Z.min (exp a) (exp x)) (exp y)).
  replace (Z.min (Z.min (exp a) (exp y)) (exp x)) with m by (unfold m; lia).
  f_equal.
  rewrite !Z.mul_add_distr_r.
  rewrite (pow10_twice (value a) _ _ (exp a - m)) by (unfold m; lia).
  rewrite (pow10_twice (value x) _ _ (exp x - m)) by (unfold m; lia).
  rewrite (pow10_twice (value a) _ _ (exp a - m)) by (unfold m; lia).
  rewrite (pow10_twice (value y) _ _ (exp y - m)) by (unfold m; lia).
  lia.
Qed.

Lemma overallStep_swap (acc : Decimal * Decimal * Z * Z)
    (e1 e2 : string * MonthlySummary.t) :
  overallStep (overallStep acc e1) e2 = overallStep (overallStep acc e2) e1.
Proof.
  destruct acc as [[[tc td] cc] dc]. unfold overallStep.
  rewrite (Add_swap tc), (Add_swap td). f_equal; [f_equal|]; lia.
Qed.

Lemma overallTotals_perm (order order' : list (string * MonthlySummary.t)) :
  order ≡ₚ order' ->
  forall acc, fold_left overallStep order acc = fold_left overallStep order' acc.
Proof.
  induction 1 as [|e l l' _ IH|e1 e2 l|l l' l'' _ IH1 _ IH2]; intros acc;
    cbn [fold_left].
  - reflexivity.
  - apply IH.
  - rewrite overallStep_swap. reflexivity.
  - rewrite IH1. apply IH2.
Qed.

(** X14.  The order in which the second loop of [FormatSummaryForEmail]
    ranges over the months does not show in the report: the overall
    totals have the same digits and exponent in every order, and so have
    the overall averages.  Two reports for one summary differ at most in
    the order of their month lines. *)
Theorem FormatSummaryForEmail_second_pass_order
    (order1 order2 order2' : list (string * MonthlySummary.t))
    (summary : AccountSummary.t) :
  order2 ≡ₚ order2' ->
  overallTotals order2 = overallTotals order2' /\
  FormatSummaryForEmail_in order1 order2 summary
  = FormatSummaryForEmail_in order1 order2' summary.
Proof.
  intros Hp.
  assert (H : overallTotals order2 = overallTotals order2')
    by (apply overallTotals_perm; exact Hp).
  split; [exact H|]. unfold FormatSummaryForEmail_in. rewrite H. reflexivity.
Qed.

Lemma Round_exact (d : Decimal) :
  -2 <= exp d -> Round d 2 = mkDecimal (value d * 10 ^ (exp d + 2)) (-2).
Proof.
  intros He. unfold Round.
  destruct (Z.eqb_spec (exp d) (Z.opp 2)) as [E|Hne].
  - change (Z.opp 2) with (-2) in E.
    rewrite E. change (-2 + 2) with 0. rewrite Z.pow_0_r, Z.mul_1_r.
    destruct d; cbn [value exp] in *. rewrite E. reflexivity.
  - change (Z.opp 2) with (-2) in Hne.
    change (int32 (Z.opp 2 - 1)) with (-3).
    unfold rescale.
    destruct (Z.eqb_spec (exp d) (-3)) as [|_]; [lia|].
    destruct (Z.gtb_spec (-3) (exp d)) as [|_]; [lia|].
    cbn [value exp]. change (int32 (-3 + 1)) with (-2). f_equal.
    replace (Z.abs (-3 - exp d)) with (exp d + 2 + 1) by lia.
    rewrite (Z.pow_add_r 10 (exp d + 2) 1) by lia. change (10 ^ 1) with 10.
    set (u := value d * 10 ^ (exp d + 2)).
    replace (value d * (10 ^ (exp d + 2) * 10)) with (10 * u) by (unfold u; ring).
    clearbody u.
    destruct (Z.ltb_spec (10 * u) 0) as [Hneg|Hpos].
    + assert (Hq : (10 * u - 5) / 10 = u - 1)
        by (symmetry; apply (Z.div_unique_pos _ 10 _ 5); lia).
      assert (Hm : (10 * u - 5) mod 10 = 5)
        by (symmetry; apply (Z.mod_unique_pos _ 10 (u - 1) 5); lia).
      rewrite Hq, Hm.
      destruct (Z.ltb_spec (u - 1) 0) as [_|H]; [|lia].
      change (5 =? 0) with false. cbn [negb andb]. lia.
    + assert (Hq : (10 * u + 5) / 10 = u)
        by (symmetry; apply (Z.div_unique_pos _ 10 _ 5); lia).
      rewrite Hq.
      destruct (Z.ltb_spec u 0) as [H|_]; [lia|]. reflexivity.
Qed.

Lemma balance_exp (txs : list Transaction.t) :
  forall (lo : Z) (acc : Decimal),
    lo <= exp acc ->
    Forall (fun tx => lo <= exp (Transaction.Amount tx)) txs ->
    lo <= exp (fold_left (fun totalBalance tx => Add totalBalance (Transaction.Amount tx))
                         txs acc).
Proof.
  induction txs as [|tx txs IH]; intros lo acc Hacc HF; cbn [fold_left].
  - exact Hacc.
  - inversion HF as [|? ? Htx HF']; subst.
    apply IH; [rewrite exp_Add; lia | exact HF'].
Qed.

(** X15.  When no amount has more than 2 digits after the decimal point
    (an exponent below -2), as is the case for all that the ingestion
    driver returns, the total balance is printed exactly: what
    [StringFixed(2)] prints for it is a whole number of hundredths that
    equals the sum of all amounts; nothing is rounded off. *)
Theorem FormatSummaryForEmail_balance_exact (clock : Clock) (accountID : string)
    (txs : list Transaction.t) (summary : AccountSummary.t) :
  Forall (fun tx => -2 <= exp (Transaction.Amount tx)) txs ->
  CalculateSummary clock accountID txs = Some summary ->
  exists hundredths,
    StringFixed (AccountSummary.TotalBalance summary) 2
    = string_ (mkDecimal hundredths (-2)) /\
    (toQ (mkDecimal hundredths (-2)) == sumQ (map amountQ txs))%Q.
Proof.
  intros HF Hs.
  assert (He : -2 <= exp (AccountSummary.TotalBalance summary)).
  { unfold CalculateSummary in Hs. destruct txs as [|tx txs].
    - injection Hs as <-. cbn. lia.
    - destruct (monthlySummariesOf _ _); [|discriminate].
      injection Hs as <-. cbn [AccountSummary.TotalBalance].
      apply (balance_exp (tx :: txs) (-2) Zero);
        [change (exp Zero) with 1; lia | exact HF]. }
  exists (value (AccountSummary.TotalBalance summary)
          * 10 ^ (exp (AccountSummary.TotalBalance summary) + 2)).
  split.
  - unfold StringFixed. rewrite (Round_exact _ He). reflexivity.
  - destruct (CalculateSummary_sums _ _ _ _ Hs) as (Hb & _).
    rewrite <- Hb. unfold toQ at 1; cbn [value exp].
    rewrite pow10_scale by lia.
    replace (-2 + (exp (AccountSummary.TotalBalance summary) + 2))
      with (exp (AccountSummary.TotalBalance summary)) by lia.
    reflexivity.
Qed.

End report_order.

Lemma FormatSummaryForEmail_second_pass_order_witness :
  exists summary e1 e2,
    CalculateSummary sampleClock "acc" twoJulys = Some summary /\
    map_to_list (AccountSummary.MonthlySummaries summary) = [e1; e2] /\
    FormatSummaryForEmail_in [e1; e2] [e1; e2] summary
    = FormatSummaryForEmail_in [e1; e2] [e2; e1] summary.
Proof.
  assert (Hs : exists s e1 e2, CalculateSummary sampleClock "acc" twoJulys = Some s /\
                               map_to_list (AccountSummary.MonthlySummaries s) = [e1; e2])
    by (vm_compute; eexists; eexists; eexists; split; reflexivity).
  destruct Hs as (s & e1 & e2 & Hs & Hl). exists s, e1, e2.
  split; [exact Hs|]. split; [exact Hl|].
  apply (FormatSummaryForEmail_second_pass_order [e1; e2] [e1; e2] [e2; e1] s).
  apply perm_swap.
Defined.

Lemma FormatSummaryForEmail_balance_exact_witness :
  exists summary,
    CalculateSummary sampleClock "acc" twoJulys = Some summary /\
    StringFixed (AccountSummary.TotalBalance summary) 2 = "29.74".
Proof.
  assert (Hs : exists s, CalculateSummary sampleClock "acc" twoJulys = Some s)
    by (vm_compute; eexists; reflexivity).
  destruct Hs as (s & Hs). exists s. split; [exact Hs|].
  destruct (FormatSummaryForEmail_balance_exact sampleClock "acc" twoJulys s) as (h & Hh & _).
  - unfold twoJulys. repeat (constructor; [cbn; lia|]). constructor.
  - exact Hs.
  - clear Hh. vm_compute in Hs. injection Hs as <-. vm_compute. reflexivity.
Defined.

(** ** S3 locations *)

Section s3_locations.

Lemma string_app_cons (c : ascii) (a b : string) : String c a ++ b = String c (a ++ b).
Proof. reflexivity. Qed.

Lemma code_eq (c : ascii) (n : nat) :
  (n < 256)%nat -> code c = Z.of_nat n <-> c = ascii_of_nat n.
Proof.
  intros Hn. unfold code. split.
  - intros H. apply Nat2Z.inj in H. rewrite <- H. symmetry. apply ascii_nat_embedding.
  - intros ->. rewrite nat_ascii_embedding by exact Hn. reflexivity.
Qed.

Lemma string_prefix_app (p s : string) : String.prefix p (p ++ s) = true.
Proof.
  induction p as [|c p IH]; [destruct s; reflexivity|].
  rewrite string_app_cons. cbn [String.prefix].
  destruct (ascii_dec c c); [exact IH | congruence].
Qed.

Lemma string_prefix_inv (p s : string) :
  String.prefix p s = true -> s = p ++ drop (String.length p) s.
Proof.
  revert s. induction p as [|c p IH]; intros s; [reflexivity|].
  destruct s as [|c' s]; cbn [String.prefix]; [discriminate|].
  destruct (ascii_dec c c') as [<-|]; [|discriminate].
  intros H. rewrite string_app_cons. cbn [String.length drop]. f_equal. exact (IH s H).
Qed.

Lemma string_drop_app (p s : string) : drop (String.length p) (p ++ s) = s.
Proof.
  induction p as [|c p IH]; [reflexivity|].
  rewrite string_app_cons. exact IH.
Qed.

Lemma cutSlash_Some (s a b : string) :
  aws.cutSlash s = Some (a, b) <-> s = a ++ "/" ++ b /\ noByte 47 a = true.
Proof.
  revert a. induction s as [|c s IH]; intros a; cbn [aws.cutSlash].
  - split; [discriminate|]. intros [H _]. destruct a; discriminate.
  - destruct (Z.eqb_spec (code c) 47) as [E|E].
    + apply (code_eq c 47 ltac:(lia)) in E. subst c. split.
      * intros [= <- <-]. split; reflexivity.
      * intros [H Hno]. destruct a as [|c' a].
        -- change ("" ++ "/" ++ b) with (String "/" b) in H.
           injection H as ->. reflexivity.
        -- rewrite string_app_cons in H. injection H as <- _.
           cbn [noByte] in Hno. discriminate.
    + split.
      * destruct (aws.cutSlash s) as [[before after]|] eqn:Ec; [|discriminate].
        intros [= <- <-]. destruct (proj1 (IH before) eq_refl) as [-> Hno].
        split; [reflexivity|]. cbn [noByte].
        destruct (Z.eqb_spec (code c) 47); [contradiction | exact Hno].
      * intros [H Hno]. destruct a as [|c' a].
        -- change ("" ++ "/" ++ b) with (String "/" b) in H.
           injection H as -> _. exfalso. apply E. reflexivity.
        -- rewrite string_app_cons in H. injection H as <- ->.
           cbn [noByte] in Hno. apply andb_true_iff in Hno as [_ Hno].
           rewrite (proj2 (IH a) (conj eq_refl Hno)). reflexivity.
Qed.

Lemma cutSlash_None (s : string) :
  aws.cutSlash s = None <-> noByte 47 s = true.
Proof.
  induction s as [|c s IH]; cbn [aws.cutSlash noByte]; [split; reflexivity|].
  destruct (code c =? 47); [split; discriminate|]. cbn [negb andb].
  destruct (aws.cutSlash s) as [[before after]|].
  - split; [discriminate|]. intros H. apply IH in H. discriminate.
  - rewrite <- IH. split; reflexivity.
Qed.

(** What [ParseS3URL] returns, for every input. *)
Lemma ParseS3URL_cases (s3URL : string) :
  (forall bucket key,
      aws.ParseS3URL s3URL = inr (bucket, key) <->
      s3URL = "s3://" ++ bucket ++ "/" ++ key /\
      bucket <> "" /\ key <> "" /\ noByte 47 bucket = true) /\
  (aws.ParseS3URL s3URL = inl aws.ErrEmptyURL <-> s3URL = "") /\
  (aws.ParseS3URL s3URL = inl (aws.ErrInvalidFormat s3URL) <->
   s3URL <> "" /\ HasPrefix s3URL "s3://" = false) /\
  (aws.ParseS3URL s3URL = inl (aws.ErrMissingBucket s3URL) <->
   exists rest, s3URL = "s3://" ++ "/" ++ rest) /\
  (aws.ParseS3URL s3URL = inl (aws.ErrMissingKey s3URL) <->
   exists bucket,
     noByte 47 bucket = true /\
     (s3URL = "s3://" ++ bucket \/ (bucket <> "" /\ s3URL = "s3://" ++ bucket ++ "/"))).
Proof.
  unfold aws.ParseS3URL, aws.SplitN_2, TrimPrefix.
  destruct (String.eqb_spec s3URL "") as [->|Hne].
  { split; [|split; [|split; [|split]]].
    - intros bucket key. split; [discriminate|]. intros [H _]. discriminate.
    - split; reflexivity.
    - split; [discriminate|]. intros [H _]. contradiction.
    - split; [discriminate|]. intros [rest H]. discriminate.
    - split; [discriminate|]. intros (b & _ & [H|[_ H]]); discriminate. }
  destruct (HasPrefix s3URL "s3://") eqn:Hp; cbn [negb].
  2:{ split; [|split; [|split; [|split]]].
      - intros bucket key. split; [discriminate|]. intros [-> _].
        unfold HasPrefix in Hp. rewrite string_prefix_app in Hp. discriminate.
      - split; [discriminate|]. intros H. contradiction.
      - split; [intros _; split; [exact Hne | reflexivity] | reflexivity].
      - split; [discriminate|]. intros [rest ->].
        unfold HasPrefix in Hp. rewrite string_prefix_app in Hp. discriminate.
      - split; [discriminate|]. intros (b & _ & [->|[_ ->]]);
          unfold HasPrefix in Hp; rewrite string_prefix_app in Hp; discriminate. }
  unfold HasPrefix in Hp. pose proof (string_prefix_inv _ _ Hp) as Hurl.
  set (path := drop (String.length "s3://") s3URL) in *.
  destruct (aws.cutSlash path) as [[b k]|] eqn:Ec.
  - apply cutSlash_Some in Ec. destruct Ec as [Epath Hno].
    destruct (String.eqb_spec b "") as [->|Hb].
    { split; [|split; [|split; [|split]]].
      - intros bucket key. split; [discriminate|].
        intros (H & Hb' & _ & Hno'). exfalso. apply Hb'.
        rewrite Hurl, Epath in H. apply (f_equal (drop 5)) in H.
        rewrite (string_drop_app "s3://"), (string_drop_app "s3://") in H.
        destruct bucket; [reflexivity|]. rewrite string_app_cons in H.
        injection H as <- _. cbn [noByte] in Hno'. discriminate.
      - split; [discriminate|]. intros H; contradiction.
      - split; [discriminate|]. intros [_ H]. discriminate.
      - split; [intros _|reflexivity]. exists k. rewrite Hurl at 1. rewrite Epath.
        reflexivity.
      - split; [discriminate|]. intros (b & Hno' & [H|[Hb' H]]).
        + rewrite Hurl, Epath in H. apply (f_equal (drop 5)) in H.
          rewrite (string_drop_app "s3://"), (string_drop_app "s3://") in H. subst b.
          cbn [noByte] in Hno'. discriminate.
        + rewrite Hurl, Epath in H. apply (f_equal (drop 5)) in H.
          rewrite (string_drop_app "s3://"), (string_drop_app "s3://") in H.
          destruct b; [contradiction|]. rewrite string_app_cons in H.
          injection H as <- _. cbn [noByte] in Hno'. discriminate. }
    assert (Hsame : forall b' k', noByte 47 b' = true -> path = b' ++ "/" ++ k' ->
                                  b' = b /\ k' = k).
    { intros b' k' Hno' H.
      pose proof (proj2 (cutSlash_Some path b' k') (conj H Hno')) as E1.
      pose proof (proj2 (cutSlash_Some path b k) (conj Epath Hno)) as E2.
      rewrite E1 in E2. injection E2 as -> ->. split; reflexivity. }
    destruct (String.eqb_spec k "") as [->|Hk].
    { split; [|split; [|split; [|split]]].
      - intros bucket key. split; [discriminate|].
        intros (H & _ & Hk' & Hno'). exfalso. apply Hk'.
        rewrite Hurl in H. apply (f_equal (drop 5)) in H.
        rewrite (string_drop_app "s3://"), (string_drop_app "s3://") in H. fold path in H.
        exact (proj2 (Hsame _ _ Hno' H)).
      - split; [discriminate|]. intros H; contradiction.
      - split; [discriminate|]. intros [_ H]. discriminate.
      - split; [discriminate|]. intros [rest H].
        rewrite Hurl in H. apply (f_equal (drop 5)) in H.
        rewrite (string_drop_app "s3://"), (string_drop_app "s3://") in H.
        fold path in H. destruct (Hsame "" rest eq_refl H) as [<- _]. contradiction.
      - split; [intros _|reflexivity]. exists b. split; [exact Hno|].
        right. split; [exact Hb|]. rewrite Hurl at 1. rewrite Epath. reflexivity. }
    split; [|split; [|split; [|split]]].
    + intros bucket key. split.
      * intros [= <- <-]. split; [rewrite Hurl at 1; rewrite Epath; reflexivity|].
        split; [exact Hb|]. split; [exact Hk | exact Hno].
      * intros (H & _ & _ & Hno').
        rewrite Hurl in H. apply (f_equal (drop 5)) in H.
        rewrite (string_drop_app "s3://"), (string_drop_app "s3://") in H. fold path in H.
        destruct (Hsame _ _ Hno' H) as [-> ->]. reflexivity.
    + split; [discriminate|]. intros H; contradiction.
    + split; [discriminate|]. intros [_ H]. discriminate.
    + split; [discriminate|]. intros [rest H].
      rewrite Hurl in H. apply (f_equal (drop 5)) in H.
      rewrite (string_drop_app "s3://"), (string_drop_app "s3://") in H.
      fold path in H. destruct (Hsame "" rest eq_refl H) as [<- _]. contradiction.
    + split; [discriminate|]. intros (b' & Hno' & [H|[Hb' H]]).
      * rewrite Hurl in H. apply (f_equal (drop 5)) in H.
        rewrite (string_drop_app "s3://"), (string_drop_app "s3://") in H. fold path in H.
        apply cutSlash_None in Hno'. rewrite <- H in Hno'.
        rewrite (proj2 (cutSlash_Some path b k) (conj Epath Hno)) in Hno'. discriminate.
      * rewrite Hurl in H. apply (f_equal (drop 5)) in H.
        rewrite (string_drop_app "s3://"), (string_drop_app "s3://") in H. fold path in H.
        destruct (Hsame b' "" Hno' H) as [_ <-]. contradiction.
  - apply cutSlash_None in Ec.
    split; [|split; [|split; [|split]]].
    + intros bucket key. split; [discriminate|].
      intros (H & _ & _ & Hno'). exfalso.
      rewrite Hurl in H. apply (f_equal (drop 5)) in H.
      rewrite (string_drop_app "s3://"), (string_drop_app "s3://") in H. fold path in H.
      apply cutSlash_None in Ec.
      rewrite (proj2 (cutSlash_Some path bucket key) (conj H Hno')) in Ec. discriminate.
    + split; [discriminate|]. intros H; contradiction.
    + split; [discriminate|]. intros [_ H]. discriminate.
    + split; [discriminate|]. intros [rest H].
      rewrite Hurl in H. apply (f_equal (drop 5)) in H.
      rewrite (string_drop_app "s3://"), (string_drop_app "s3://") in H.
      fold path in H. apply cutSlash_None in Ec.
      rewrite (proj2 (cutSlash_Some path "" rest) (conj H eq_refl)) in Ec. discriminate.
    + split; [intros _|reflexivity]. exists path. split; [exact Ec|].
      left. exact Hurl.
Qed.


(** X16.  [ParseS3URL] returns a bucket and a key exactly for the URLs
    of the form [s3://bucket/key] with a bucket that is not empty and has
    no slash and a key that is not empty (the key may have slashes): the
    URL is put together again from what is returned.  The empty string is
    the one input with the error "S3 URL cannot be empty"; of the other
    inputs those that do not start with [s3://] are the ones with "invalid
    S3 URL format"; a URL [s3:///...], with nothing before the first
    slash, is missing its bucket; and a URL with no slash after [s3://],
    or nothing after the slash that ends a bucket, is missing its key. *)
Theorem ParseS3URL_round_trip (s3URL : string) :
  (forall bucket key,
      aws.ParseS3URL s3URL = inr (bucket, key) <->
      s3URL = "s3://" ++ bucket ++ "/" ++ key /\
      bucket <> "" /\ key <> "" /\ noByte 47 bucket = true) /\
  (aws.ParseS3URL s3URL = inl aws.ErrEmptyURL <-> s3URL = "") /\
  (aws.ParseS3URL s3URL = inl (aws.ErrInvalidFormat s3URL) <->
   s3URL <> "" /\ HasPrefix s3URL "s3://" = false) /\
  (aws.ParseS3URL s3URL = inl (aws.ErrMissingBucket s3URL) <->
   exists rest, s3URL = "s3://" ++ "/" ++ rest) /\
  (aws.ParseS3URL s3URL = inl (aws.ErrMissingKey s3URL) <->
   exists bucket,
     noByte 47 bucket = true /\
     (s3URL = "s3://" ++ bucket \/ (bucket <> "" /\ s3URL = "s3://" ++ bucket ++ "/"))).
Proof. exact (ParseS3URL_cases s3URL). Qed.

(** X21.  [GenerateProcessedKey] moves a key of the input directory to the
    processed directory: one leading ["input/"] is replaced by
    ["processed/"], and a key without it is put under ["processed/"] as it
    is.  The key returned is never empty, so that with a bucket it makes
    a URL that [ParseS3URL] takes apart into that bucket and that key. *)
Theorem GenerateProcessedKey_valid (originalKey : string) :
  (forall rest, originalKey = "input/" ++ rest ->
                aws.GenerateProcessedKey originalKey = "processed/" ++ rest) /\
  (HasPrefix originalKey "input/" = false ->
   aws.GenerateProcessedKey originalKey = "processed/" ++ originalKey) /\
  HasPrefix (aws.GenerateProcessedKey originalKey) "processed/" = true /\
  (forall bucket,
      bucket <> "" -> noByte 47 bucket = true ->
      aws.ParseS3URL ("s3://" ++ bucket ++ "/" ++ aws.GenerateProcessedKey originalKey)
      = inr (bucket, aws.GenerateProcessedKey originalKey)).
Proof.
  unfold aws.GenerateProcessedKey, TrimPrefix.
  split; [|split; [|split]].
  - intros rest ->. unfold HasPrefix. rewrite string_prefix_app, string_drop_app. reflexivity.
  - intros ->. reflexivity.
  - unfold HasPrefix. apply string_prefix_app.
  - intros bucket Hb Hno.
    apply (proj1 (ParseS3URL_cases _)). split; [reflexivity|].
    split; [exact Hb|]. split; [discriminate | exact Hno].
Qed.

End s3_locations.

(** ** The mail settings *)

Section mail_settings.
Import config.

(** X17.  [ConfigureSMTP] assigns the four SMTP parameters and nothing
    else, and assigning twice is assigning once.  In the MailHog modes
    the parameters are those of MailHog and the credentials are empty; in
    the Gmail mode they are those of Gmail. *)
Theorem ConfigureSMTP_idempotent (e : Email) :
  ConfigureSMTP (ConfigureSMTP e) = ConfigureSMTP e /\
  (exists host port username password,
      ConfigureSMTP e = setSMTP e host port username password) /\
  (IsMailHogMode e = true ->
   ConfigureSMTP e = setSMTP e (MailHogHost e) (MailHogPort e) "" "") /\
  (IsGmailMode e = true ->
   ConfigureSMTP e
   = setSMTP e (GmailHost e) (GmailPort e) (GmailUsername e) (GmailPassword e)) /\
  IsMailHogMode (ConfigureSMTP e) = IsMailHogMode e /\
  IsGmailMode (ConfigureSMTP e) = IsGmailMode e.
Proof.
  unfold ConfigureSMTP, IsMailHogMode, IsGmailMode.
  destruct (String.eqb_spec (EmailMode e) "development") as [E1|N1];
    [|destruct (String.eqb_spec (EmailMode e) "mailhog") as [E2|N2];
      [|destruct (String.eqb_spec (EmailMode e) "gmail") as [E3|N3];
        [|destruct (String.eqb_spec (EmailMode e) "production") as [E4|N4]]]];
    cbn [orb setSMTP EmailMode MailHogHost MailHogPort GmailHost GmailPort
         GmailUsername GmailPassword].
  - rewrite E1. cbn. repeat split; try reflexivity; try discriminate.
    eexists _, _, _, _. reflexivity.
  - rewrite E2. cbn. repeat split; try reflexivity; try discriminate.
    eexists _, _, _, _. reflexivity.
  - rewrite E3. cbn. repeat split; try reflexivity; try discriminate.
    eexists _, _, _, _. reflexivity.
  - rewrite E4. cbn. repeat split; try reflexivity; try discriminate.
    eexists _, _, _, _. reflexivity.
  - destruct (String.eqb_spec (EmailMode e) "development") as [|_]; [contradiction|].
    destruct (String.eqb_spec (EmailMode e) "mailhog") as [|_]; [contradiction|].
    destruct (String.eqb_spec (EmailMode e) "gmail") as [|_]; [contradiction|].
    destruct (String.eqb_spec (EmailMode e) "production") as [|_]; [contradiction|].
    cbn. repeat split; try reflexivity; try discriminate.
    exists (SMTPHost e), (SMTPPort e), (SMTPUsername e), (SMTPPassword e).
    destruct e; reflexivity.
Qed.

(** X18.  In every mode but ["production"] the description of the mode
    names the host and the port that [ConfigureSMTP] selects.  In the
    mode ["production"] the description says AWS SES, while
    [ConfigureSMTP] selects the host and the port of Gmail. *)
Theorem GetEmailModeDescription_names_SMTP (e : Email) :
  (EmailMode e <> "production" ->
   exists label,
     GetEmailModeDescription e
     = label ++ SMTPHost (ConfigureSMTP e) ++ ":"
             ++ service.formatInt (SMTPPort (ConfigureSMTP e)) ++ ")") /\
  (EmailMode e = "production" ->
   GetEmailModeDescription e = "Production Mode (AWS SES)" /\
   SMTPHost (ConfigureSMTP e) = GmailHost e /\
   SMTPPort (ConfigureSMTP e) = GmailPort e).
Proof.
  unfold GetEmailModeDescription, ConfigureSMTP.
  split.
  - intros Hmode.
    destruct (String.eqb_spec (EmailMode e) "production") as [|_]; [contradiction|].
    destruct (String.eqb (EmailMode e) "development" || String.eqb (EmailMode e) "mailhog").
    + exists "Development Mode (MailHog at ". reflexivity.
    + destruct (String.eqb (EmailMode e) "gmail"); cbn [orb].
      * exists "Gmail Mode (SMTP at ". reflexivity.
      * exists "Legacy Mode (SMTP at ". reflexivity.
  - intros ->. cbn. repeat split.
Qed.

End mail_settings.

(** ** The processor *)

Section batches.
Context {World Err : Type}.
Variable ProcessFile : string -> World -> option Err * World.

Lemma ProcessBatch_app (pre rest : list string) (w : World) :
  processor.ProcessBatch ProcessFile (pre ++ rest) w
  = match processor.ProcessBatch ProcessFile pre w with
    | (None, w1) => processor.ProcessBatch ProcessFile rest w1
    | failed => failed
    end.
Proof.
  revert w. induction pre as [|f pre IH]; intros w; cbn [app processor.ProcessBatch].
  - reflexivity.
  - destruct (ProcessFile f w) as [[err|] w']; [reflexivity | apply IH].
Qed.

(** X20.  [ProcessBatch] stops at the first file that [ProcessFile] fails
    on: it returns an error exactly when some file fails after all the
    files before it have been processed without error, one after the
    other; the error names that file and wraps its error, the world is
    left as that file left it, and no file after it is processed. *)
Theorem ProcessBatch_first_failure (filePaths : list string) (w w' : World)
    (e : processor.batchError) :
  processor.ProcessBatch ProcessFile filePaths w = (Some e, w') <->
  exists pre bad post cause w1,
    filePaths = (pre ++ bad :: post)%list /\
    processor.ProcessBatch ProcessFile pre w = (None, w1) /\
    ProcessFile bad w1 = (Some cause, w') /\
    e = processor.ErrProcessFile bad cause.
Proof.
  split.
  - revert w. induction filePaths as [|f rest IH]; intros w; cbn [processor.ProcessBatch].
    + discriminate.
    + destruct (ProcessFile f w) as [[err|] w1] eqn:Ef.
      * intros [= <- <-]. exists [], f, rest, err, w. repeat split. exact Ef.
      * intros H. destruct (IH _ H) as (pre & bad & post & cause & w2 & -> & Hpre & Hbad & ->).
        exists (f :: pre), bad, post, cause, w2.
        split; [reflexivity|]. split; [|split; [exact Hbad | reflexivity]].
        cbn [processor.ProcessBatch]. rewrite Ef. exact Hpre.
  - intros (pre & bad & post & cause & w1 & -> & Hpre & Hbad & ->).
    rewrite ProcessBatch_app, Hpre. cbn [processor.ProcessBatch]. rewrite Hbad.
    reflexivity.
Qed.

End batches.

(** ** The account of a file *)

Section account_of_file.
Import processor.

Lemma string_app_assoc (a b c : string) : (a ++ b) ++ c = a ++ b ++ c.
Proof.
  induction a as [|x a IH]; [reflexivity|].
  rewrite !string_app_cons. rewrite IH. reflexivity.
Qed.

Lemma string_length_app (a b : string) :
  String.length (a ++ b) = (String.length a + String.length b)%nat.
Proof.
  induction a as [|x a IH]; [reflexivity|].
  rewrite string_app_cons. cbn [String.length]. rewrite IH. reflexivity.
Qed.

Lemma string_take_app (a b : string) : take (String.length a) (a ++ b) = a.
Proof.
  induction a as [|x a IH]; [destruct b; reflexivity|].
  rewrite string_app_cons. cbn [String.length take]. rewrite IH. reflexivity.
Qed.

Lemma rev_onto_app (s acc : string) : rev_onto s acc = reverse s ++ acc.
Proof.
  unfold reverse. revert acc. induction s as [|c s IH]; intros acc; cbn [rev_onto].
  - reflexivity.
  - rewrite (IH (String c acc)), (IH (String c "")), string_app_assoc. reflexivity.
Qed.

Lemma string_reverse_cons (c : ascii) (s : string) : reverse (String c s) = reverse s ++ String c "".
Proof. unfold reverse at 1. cbn [rev_onto]. apply rev_onto_app. Qed.

Lemma string_reverse_app (a b : string) : reverse (a ++ b) = reverse b ++ reverse a.
Proof.
  induction a as [|c a IH].
  - change ("" ++ b) with b. change (reverse "") with "". rewrite string_app_nil_r. reflexivity.
  - rewrite string_app_cons, !string_reverse_cons, IH, string_app_assoc. reflexivity.
Qed.

Lemma string_reverse_involutive (s : string) : reverse (reverse s) = s.
Proof.
  induction s as [|c s IH]; [reflexivity|].
  rewrite string_reverse_cons, string_reverse_app, IH. reflexivity.
Qed.

Lemma noByte_app (b : Z) (s t : string) :
  noByte b (s ++ t) = noByte b s && noByte b t.
Proof.
  induction s as [|c s IH]; [reflexivity|].
  rewrite string_app_cons. cbn [noByte]. rewrite IH, andb_assoc. reflexivity.
Qed.

Lemma noByte_reverse (b : Z) (s : string) : noByte b (reverse s) = noByte b s.
Proof.
  induction s as [|c s IH]; [reflexivity|].
  rewrite string_reverse_cons, noByte_app, IH. cbn [noByte].
  rewrite andb_true_r. apply andb_comm.
Qed.

Lemma untilSeparator_app (r rest : string) :
  noByte 47 r = true -> untilSeparator (r ++ "/" ++ rest) = r.
Proof.
  induction r as [|c r IH]; intros H.
  - reflexivity.
  - rewrite string_app_cons. cbn [untilSeparator noByte] in *. unfold IsPathSeparator.
    apply andb_true_iff in H as [Hc Hr].
    destruct (code c =? 47); [discriminate|]. rewrite (IH Hr). reflexivity.
Qed.

Lemma untilSeparator_all (r : string) :
  noByte 47 r = true -> untilSeparator r = r.
Proof.
  induction r as [|c r IH]; intros H; [reflexivity|].
  cbn [untilSeparator noByte] in *. unfold IsPathSeparator.
  apply andb_true_iff in H as [Hc Hr].
  destruct (code c =? 47); [discriminate|]. rewrite (IH Hr). reflexivity.
Qed.

Lemma extFrom_dot (r1 r2 seen : string) :
  noByte 47 r1 = true -> noByte 46 r1 = true ->
  extFrom (r1 ++ "." ++ r2) seen = "." ++ reverse r1 ++ seen.
Proof.
  revert seen. induction r1 as [|c r1 IH]; intros seen H47 H46.
  - reflexivity.
  - rewrite string_app_cons. cbn [extFrom noByte] in *. unfold IsPathSeparator.
    apply andb_true_iff in H47 as [Hc47 H47]. apply andb_true_iff in H46 as [Hc46 H46].
    destruct (code c =? 47); [discriminate|]. destruct (code c =? 46); [discriminate|].
    rewrite (IH _ H47 H46), string_reverse_cons, string_app_assoc. reflexivity.
Qed.

Lemma extFrom_none (r seen : string) :
  noByte 46 r = true -> extFrom r seen = "".
Proof.
  revert seen. induction r as [|c r IH]; intros seen H; [reflexivity|].
  cbn [extFrom noByte] in *. apply andb_true_iff in H as [Hc H].
  destruct (IsPathSeparator c); [reflexivity|].
  destruct (code c =? 46); [discriminate|]. apply IH, H.
Qed.

(** The last element of a path that does not end with a separator. *)
Lemma Base_last (dir file : string) :
  directoryPart dir -> noByte 47 file = true -> file <> "" ->
  Base (dir ++ file) = file.
Proof.
  intros Hdir Hno Hne. unfold Base.
  destruct (String.eqb_spec (dir ++ file) "") as [E|_].
  { destruct dir; [|discriminate]. contradiction. }
  rewrite string_reverse_app.
  assert (Hrev : noByte 47 (reverse file) = true) by (rewrite noByte_reverse; exact Hno).
  assert (Hdrop : dropSeparators (reverse file ++ reverse dir) = reverse file ++ reverse dir).
  { destruct (reverse file) as [|c r] eqn:E.
    - apply (f_equal reverse) in E. rewrite string_reverse_involutive in E. contradiction.
    - rewrite string_app_cons. cbn [dropSeparators noByte] in *. unfold IsPathSeparator.
      apply andb_true_iff in Hrev as [Hc _].
      destruct (code c =? 47); [discriminate | reflexivity]. }
  rewrite Hdrop.
  assert (Huntil : untilSeparator (reverse file ++ reverse dir) = reverse file).
  { destruct Hdir as [->|[d' ->]].
    - change (reverse "") with "". rewrite string_app_nil_r. apply untilSeparator_all, Hrev.
    - rewrite string_reverse_app. change (reverse "/") with "/".
      apply untilSeparator_app, Hrev. }
  rewrite Huntil, string_reverse_involutive.
  destruct (String.eqb_spec file "") as [|_]; [contradiction | reflexivity].
Qed.

Lemma string_drop_all (s : string) : drop (String.length s) s = "".
Proof. induction s as [|c s IH]; [reflexivity | exact IH]. Qed.

Lemma string_take_all (s : string) : take (String.length s) s = s.
Proof. induction s as [|c s IH]; [reflexivity|]. cbn [String.length take]. rewrite IH. reflexivity. Qed.

Lemma TrimSuffix_app (a suffix : string) : TrimSuffix (a ++ suffix) suffix = a.
Proof.
  unfold TrimSuffix, HasSuffix. rewrite string_length_app.
  replace (String.length a + String.length suffix - String.length suffix)%nat
    with (String.length a) by lia.
  rewrite string_drop_app, string_take_app, String.eqb_refl.
  destruct (Nat.leb_spec (String.length suffix) (String.length a + String.length suffix));
    [reflexivity | lia].
Qed.

(** X19.  For a path that is a directory part (nothing, or text ending
    with a slash) followed by a file name [name.ext], where the extension
    has neither dot nor slash and the name has no slash (it may have
    dots), [extractAccountIDFromFilename] returns the name, or
    ["default-account"] when the name is empty or is ["transactions"].
    The same holds for a file name without any dot, which then is the
    name. *)
Theorem extractAccountIDFromFilename_name (dir name ext : string) :
  directoryPart dir ->
  noByte 47 name = true ->
  noByte 47 ext = true -> noByte 46 ext = true ->
  extractAccountIDFromFilename (dir ++ name ++ "." ++ ext) = accountOfName name /\
  (name <> "" -> noByte 46 name = true ->
   extractAccountIDFromFilename (dir ++ name) = accountOfName name).
Proof.
  intros Hdir Hname Hext47 Hext46. unfold extractAccountIDFromFilename. split.
  - assert (Hfile : noByte 47 (name ++ "." ++ ext) = true).
    { rewrite !noByte_app, Hname, Hext47. reflexivity. }
    rewrite (Base_last dir (name ++ "." ++ ext) Hdir Hfile).
    + assert (HExt : Ext (name ++ "." ++ ext) = "." ++ ext).
      { unfold Ext. rewrite !string_reverse_app. change (reverse ".") with ".".
        rewrite string_app_assoc.
        rewrite extFrom_dot by (rewrite noByte_reverse; assumption).
        rewrite string_reverse_involutive, string_app_nil_r. reflexivity. }
      rewrite HExt, TrimSuffix_app. reflexivity.
    + destruct name; discriminate.
  - intros Hne Hdot.
    rewrite (Base_last dir name Hdir Hname Hne).
    + assert (HExt : Ext name = "").
      { unfold Ext. apply extFrom_none. rewrite noByte_reverse. exact Hdot. }
      rewrite HExt. unfold TrimSuffix, HasSuffix. cbn [String.length].
      rewrite Nat.sub_0_r, string_drop_all, string_take_all. reflexivity.
Qed.

End account_of_file.

Lemma extractAccountIDFromFilename_name_witness :
  processor.extractAccountIDFromFilename "/app/data/acc123.v2.csv" = "acc123.v2" /\
  processor.extractAccountIDFromFilename "s3://bucket/input/transactions.csv"
  = "default-account".
Proof.
  split.
  - apply (proj1 (extractAccountIDFromFilename_name "/app/data/" "acc123.v2" "csv"
                    (or_intror (ex_intro _ "/app/data" eq_refl)) eq_refl eq_refl eq_refl)).
  - apply (proj1 (extractAccountIDFromFilename_name "s3://bucket/input/" "transactions" "csv"
                    (or_intror (ex_intro _ "s3://bucket/input" eq_refl)) eq_refl eq_refl
                    eq_refl)).
Defined.
